(** * Beijing new-house data: preprocessing and aggregation

    A shallow embedding of [preprocessing.py] (the record normaliser, the
    batch conversion and the script) and of the load / group / pivot /
    normalise functions and the bar widths of the chart scripts,
    together with the parts of the Python runtime they rely on: Unicode
    strings, [re.findall] for the one pattern used, [float], [round], [int],
    and the pandas operations on small tables. *)

From Stdlib Require Import ZArith NArith QArith Qabs Qround List Bool Lia String Ascii.
From Stdlib Require Import SpecFloat.
From Stdlib Require Import Lqa Permutation.
Import ListNotations.

Set Warnings "-register-all".
Local Open Scope Z_scope.

(* ================================================================== *)
(** * Python runtime                                                    *)
(* ================================================================== *)

Module Py.

(** ** Exceptions and the error monad *)

Inductive exn : Type :=
  | TypeError | ValueError | OverflowError | ZeroDivisionError | KeyError
  | UnicodeEncodeError.

Inductive exc (A : Type) : Type :=
  | Ok (a : A)
  | Raise (e : exn).
Arguments Ok {A} a.
Arguments Raise {A} e.

Definition bind {A B} (m : exc A) (k : A -> exc B) : exc B :=
  match m with
  | Ok a => k a
  | Raise e => Raise e
  end.

Fixpoint mapM {A B} (f : A -> exc B) (l : list A) : exc (list B) :=
  match l with
  | [] => Ok []
  | a :: l' => bind (f a) (fun b => bind (mapM f l') (fun bs => Ok (b :: bs)))
  end.

(** ** Strings: sequences of Unicode code points *)

Definition str := list N.

Fixpoint str_eqb (a b : str) : bool :=
  match a, b with
  | [], [] => true
  | x :: a', y :: b' => N.eqb x y && str_eqb a' b'
  | _, _ => false
  end.

(** String literals of the source are written as UTF-8 text and decoded. *)
Fixpoint utf8 (s : string) : str :=
  match s with
  | EmptyString => []
  | String c0 s0 =>
      let b0 := N_of_ascii c0 in
      if (b0 <? 128)%N then b0 :: utf8 s0
      else match s0 with
      | EmptyString => []
      | String c1 s1 =>
          let b1 := (N_of_ascii c1 - 128)%N in
          if (b0 <? 224)%N then ((b0 - 192) * 64 + b1)%N :: utf8 s1
          else match s1 with
          | EmptyString => []
          | String c2 s2 =>
              let b2 := (N_of_ascii c2 - 128)%N in
              if (b0 <? 240)%N
              then ((b0 - 224) * 4096 + b1 * 64 + b2)%N :: utf8 s2
              else match s2 with
              | EmptyString => []
              | String c3 s3 =>
                  let b3 := (N_of_ascii c3 - 128)%N in
                  ((b0 - 240) * 262144 + b1 * 4096 + b2 * 64 + b3)%N :: utf8 s3
              end
          end
      end
  end.

Arguments utf8 : simpl never.

(** Code points that start a run of ten decimal digits (category Nd,
    Unicode 14.0 as shipped with CPython 3.11). *)
Definition decimal_blocks : list N :=
  [0x30; 0x660; 0x6F0; 0x7C0; 0x966; 0x9E6; 0xA66; 0xAE6; 0xB66; 0xBE6;
   0xC66; 0xCE6; 0xD66; 0xDE6; 0xE50; 0xED0; 0xF20; 0x1040; 0x1090; 0x17E0;
   0x1810; 0x1946; 0x19D0; 0x1A80; 0x1A90; 0x1B50; 0x1BB0; 0x1C40; 0x1C50;
   0xA620; 0xA8D0; 0xA900; 0xA9D0; 0xA9F0; 0xAA50; 0xABF0; 0xFF10; 0x104A0;
   0x10D30; 0x11066; 0x110F0; 0x11136; 0x111D0; 0x112F0; 0x11450; 0x114D0;
   0x11650; 0x116C0; 0x11730; 0x118E0; 0x11950; 0x11C50; 0x11D50; 0x11DA0;
   0x16A60; 0x16AC0; 0x16B50; 0x1E140; 0x1E2F0; 0x1E950; 0x1FBF0]%N.

(** [Py_UNICODE_TODECIMAL]: the digit value of a decimal character.  The
    mathematical digits U+1D7CE..U+1D7FF form five runs in a row. *)
Definition to_decimal (c : N) : option N :=
  match find (fun b => (b <=? c) && (c <? b + 10))%N decimal_blocks with
  | Some b => Some (c - b)%N
  | None =>
      if ((0x1D7CE <=? c) && (c <=? 0x1D7FF))%N
      then Some ((c - 0x1D7CE) mod 10)%N
      else None
  end.

(** The class [\d] of [re] on [str] patterns. *)
Definition is_digit (c : N) : bool :=
  match to_decimal c with Some _ => true | None => false end.

(** The characters for which [str.isspace] holds. *)
Definition whitespace : list N :=
  [9; 10; 11; 12; 13; 0x1C; 0x1D; 0x1E; 0x1F; 0x20; 0x85; 0xA0; 0x1680;
   0x2000; 0x2001; 0x2002; 0x2003; 0x2004; 0x2005; 0x2006; 0x2007; 0x2008;
   0x2009; 0x200A; 0x2028; 0x2029; 0x202F; 0x205F; 0x3000]%N.

Definition is_space (c : N) : bool := existsb (N.eqb c) whitespace.

Fixpoint lstrip (sp : N -> bool) (s : str) : str :=
  match s with
  | c :: s' => if sp c then lstrip sp s' else s
  | [] => []
  end.

Definition strip_with (sp : N -> bool) (s : str) : str :=
  rev (lstrip sp (rev (lstrip sp s))).

(** [str.strip()] *)
Definition strip (s : str) : str := strip_with is_space s.

(** ** [re.findall(r"\d+\.?\d*", s)] *)

Definition dot : N := 46%N.

(** The longest prefix of [\d] characters, and what follows it. *)
Fixpoint span_digits (s : str) : str * str :=
  match s with
  | c :: s' =>
      if is_digit c
      then let (ds, r) := span_digits s' in (c :: ds, r)
      else ([], s)
  | [] => ([], [])
  end.

(** One match of the pattern at the start of [s]: the token and the rest.
    All three pieces are greedy and what follows them is optional, so the
    matcher never backtracks. *)
Definition match_number (s : str) : option (str * str) :=
  match span_digits s with
  | ([], _) => None
  | (ds1, r1) =>
      let (pt, r2) :=
        match r1 with
        | c :: r => if N.eqb c dot then ([c], r) else ([], r1)
        | [] => ([], r1)
        end in
      let (ds2, r3) := span_digits r2 in
      Some (ds1 ++ pt ++ ds2, r3)
  end.

(** Non-overlapping matches from left to right; a position with no match is
    skipped.  [fuel] bounds the number of steps. *)
Fixpoint findall_from (fuel : nat) (s : str) : list str :=
  match fuel with
  | O => []
  | S fuel' =>
      match s with
      | [] => []
      | _ :: s' =>
          match match_number s with
          | Some (tok, r) => tok :: findall_from fuel' r
          | None => findall_from fuel' s'
          end
      end
  end.

Definition findall_number (s : str) : list str :=
  findall_from (List.length s) s.

(** The shape of a match: digits, then possibly a point and more digits. *)
Definition number_token (t : str) : Prop :=
  exists ds1 pt ds2,
    t = ds1 ++ pt ++ ds2 /\ ds1 <> [] /\
    forallb is_digit ds1 = true /\ forallb is_digit ds2 = true /\
    (pt = [dot] \/ pt = [] /\ ds2 = []).

Definition no_digit (s : str) : bool := forallb (fun c => negb (is_digit c)) s.

(** ** binary64 floats

    [float] is IEEE 754 binary64, here the specification floats of the
    standard library at precision 53 and maximal exponent 1024.  Every
    operation rounds to nearest, ties to even. *)

Definition prec : Z := 53.
Definition emax : Z := 1024.
Definition float := spec_float.

Definition is_finite (f : float) : bool :=
  match f with
  | S754_zero _ | S754_finite _ _ _ => true
  | S754_infinity _ | S754_nan => false
  end.

Definition is_zero (f : float) : bool :=
  match f with S754_zero _ => true | _ => false end.

(** The sign bit is clear and the value is a number. *)
Definition nonneg (f : float) : bool :=
  match f with
  | S754_zero s | S754_finite s _ _ | S754_infinity s => negb s
  | S754_nan => false
  end.

Definition float_of_Z (z : Z) : float := binary_normalize prec emax z 0 false.

(** [m * 10 ^ e10] rounded once.  A negative power of ten is a division of
    two integers, which [SFdiv] rounds correctly whatever their sizes. *)
Definition decimal_to_float (sg : bool) (m : N) (e10 : Z) : float :=
  match m with
  | N0 => S754_zero sg
  | Npos p =>
      if 0 <=? e10
      then binary_round prec emax sg (p * Z.to_pos (10 ^ e10)) 0
      else SFdiv prec emax (S754_finite sg p 0)
                           (S754_finite false (Z.to_pos (10 ^ (- e10))) 0)
  end.

(** [a + b] on floats. *)
Definition float_add (a b : float) : float := SFadd prec emax a b.

(** [a / b] on floats. *)
Definition float_truediv (a b : float) : exc float :=
  if is_zero b then Raise ZeroDivisionError else Ok (SFdiv prec emax a b).

(** Conversion of an [int] operand in mixed arithmetic. *)
Definition int_to_float (z : Z) : exc float :=
  let f := float_of_Z z in
  if is_finite f then Ok f else Raise OverflowError.

(** [sum(fs)] of a list of floats: the start value is the int [0], and the
    additions go from left to right (the uncompensated loop of CPython up
    to 3.11). *)
Definition float_sum (fs : list float) : float :=
  fold_left float_add fs (S754_zero false).

Definition cond_opp (s : bool) (z : Z) : Z := if s then - z else z.

(** [int(f)]: truncation toward zero. *)
Definition float_int (f : float) : exc Z :=
  match f with
  | S754_zero _ => Ok 0
  | S754_infinity _ => Raise OverflowError
  | S754_nan => Raise ValueError
  | S754_finite s m e =>
      Ok (cond_opp s (if 0 <=? e then Z.pos m * 2 ^ e
                      else Z.pos m / 2 ^ (- e)))
  end.

(** [round(f)] with one argument: the nearest integer, ties to even. *)
Definition float_round (f : float) : exc Z :=
  match f with
  | S754_zero _ => Ok 0
  | S754_infinity _ => Raise OverflowError
  | S754_nan => Raise ValueError
  | S754_finite s m e =>
      Ok (cond_opp s
            (if 0 <=? e then Z.pos m * 2 ^ e
             else
               let d := 2 ^ (- e) in
               let q := Z.pos m / d in
               match 2 * (Z.pos m mod d) ?= d with
               | Lt => q
               | Gt => q + 1
               | Eq => if Z.even q then q else q + 1
               end))
  end.

(** The number a finite float stands for. *)
Definition float_value (f : float) : Q :=
  match f with
  | S754_finite s m e =>
      if 0 <=? e then inject_Z (cond_opp s (Z.pos m * 2 ^ e))
      else Qmake (cond_opp s (Z.pos m)) (Z.to_pos (2 ^ (- e)))
  | _ => 0%Q
  end.

(** Truncation of a rational toward zero. *)
Definition Qtrunc (q : Q) : Z := Z.quot (Qnum q) (Z.pos (Qden q)).

(** The nearest integer, a tie going to the even one. *)
Definition round_half_even (q : Q) : Z :=
  let f := Qfloor q in
  match Qcompare (q - inject_Z f) (1 # 2) with
  | Lt => f
  | Gt => f + 1
  | Eq => if Z.even f then f else f + 1
  end.

(** The float [f] is the whole number [n], in normal form. *)
Definition exact_float (f : float) (n : Z) : Prop :=
  n = 0 /\ f = S754_zero false \/
  exists m e, f = S754_finite false m e /\ Z.pos (digits2_pos m) = 53 /\
              -52 <= e <= 0 /\ Z.pos m = n * 2 ^ (- e).

(** ** [float(s)] on a string *)

(** Characters below 127 are kept and only the C-locale blanks among them
    are stripped; the other Unicode blanks count as spaces. *)
Definition float_space (c : N) : bool :=
  if (c <? 127)%N then existsb (N.eqb c) [9; 10; 11; 12; 13; 32]%N
  else is_space c.

Definition underscore : N := 95%N.

(** Digits after a first digit, single underscores allowed between two
    digits: the values read and the rest of the string. *)
Fixpoint more_digits (s : str) : list N * str :=
  match s with
  | c :: s' =>
      match to_decimal c with
      | Some d => let (ds, r) := more_digits s' in (d :: ds, r)
      | None =>
          if N.eqb c underscore then
            match s' with
            | c2 :: s'' =>
                match to_decimal c2 with
                | Some d2 => let (ds, r) := more_digits s'' in (d2 :: ds, r)
                | None => ([], s)
                end
            | [] => ([], s)
            end
          else ([], s)
      end
  | [] => ([], [])
  end.

(** A possibly empty digit part. *)
Definition digit_part (s : str) : list N * str :=
  match s with
  | c :: s' =>
      match to_decimal c with
      | Some d => let (ds, r) := more_digits s' in (d :: ds, r)
      | None => ([], s)
      end
  | [] => ([], [])
  end.

(** What may follow a run of digits without being read as part of it. *)
Definition stops (r : str) : Prop :=
  match r with
  | [] => True
  | c :: _ => is_digit c = false /\ c <> underscore
  end.

Definition digit_values (ds : str) : list N :=
  map (fun c => match to_decimal c with Some d => d | None => 0%N end) ds.

Definition digits_value (ds : list N) : N :=
  fold_left (fun a d => 10 * a + d)%N ds 0%N.

Definition take_sign (s : str) : bool * str :=
  match s with
  | c :: r => if N.eqb c 45 then (true, r)
              else if N.eqb c 43 then (false, r) else (false, s)
  | [] => (false, s)
  end.

Definition lower (s : str) : str :=
  map (fun c => if (65 <=? c) && (c <=? 90) then c + 32 else c)%N s.

(** The decimal literals [float] accepts: digits with an optional point,
    at least one digit, an optional exponent, nothing after.  The result is
    the integer written by all the digits and the power of ten. *)
Definition decimal_literal (s : str) : option (N * Z) :=
  let (ip, r1) := digit_part s in
  let (fp, r2) :=
    match r1 with
    | c :: r => if N.eqb c dot then digit_part r else ([], r1)
    | [] => ([], r1)
    end in
  match ip ++ fp with
  | [] => None
  | ds =>
      let m := digits_value ds in
      let k := Z.of_nat (List.length fp) in
      match r2 with
      | [] => Some (m, - k)
      | c :: r3 =>
          if N.eqb c 101 || N.eqb c 69 then
            let (sg, r4) := take_sign r3 in
            match digit_part r4 with
            | (d :: es, []) =>
                Some (m, cond_opp sg (Z.of_N (digits_value (d :: es))) - k)
            | _ => None
            end
          else None
      end
  end.

(** [float(s)]: blanks around the text are dropped, a sign may come first,
    then [inf], [infinity] or [nan] in any case, or a decimal literal.
    Anything else is a [ValueError]. *)
Definition float_of_str (s : str) : exc float :=
  let (sg, body) := take_sign (strip_with float_space s) in
  let word := lower body in
  if str_eqb word (utf8 "inf") || str_eqb word (utf8 "infinity")
  then Ok (S754_infinity sg)
  else if str_eqb word (utf8 "nan") then Ok S754_nan
  else match decimal_literal body with
       | Some (m, e10) => Ok (decimal_to_float sg m e10)
       | None => Raise ValueError
       end.

(** ** Values and dicts *)

(** What [json.load] produces. *)
Inductive value : Type :=
  | VNone
  | VBool (b : bool)
  | VInt (z : Z)
  | VFloat (f : float)
  | VStr (s : str)
  | VList (l : list value)
  | VDict (d : list (str * value)).

(** A dict with [str] keys, in insertion order, one entry per key. *)
Definition dict := list (str * value).

Fixpoint dict_lookup (d : dict) (k : str) : option value :=
  match d with
  | [] => None
  | (k', v) :: d' => if str_eqb k' k then Some v else dict_lookup d' k
  end.

(** [d.get(k, default)] *)
Definition dict_get (d : dict) (k : str) (default : value) : value :=
  match dict_lookup d k with
  | Some v => v
  | None => default
  end.

(** [d[k] = v] *)
Fixpoint dict_set (d : dict) (k : str) (v : value) : dict :=
  match d with
  | [] => [(k, v)]
  | (k', v') :: d' =>
      if str_eqb k' k then (k', v) :: d' else (k', v') :: dict_set d' k v
  end.

Definition enumerate {A} (l : list A) : list (nat * A) :=
  combine (seq 0 (List.length l)) l.

End Py.

Declare Scope py_scope.
Delimit Scope py_scope with py.
Notation "x <- m ;; k" := (Py.bind m (fun x => k))
  (at level 61, m at next level, right associativity) : py_scope.
Notation "'u' s" := (Py.utf8 s%string) (at level 1, s at level 0, only parsing) : py_scope.

(* ================================================================== *)
(** * preprocessing.py                                                  *)
(* ================================================================== *)

Module Preprocessing.
Import Py.
Local Open Scope py_scope.

(** [extract_number(text)]: [re.findall] takes a [str] (the pattern is a
    [str] pattern) and raises [TypeError] on anything else. *)
Definition extract_number (text : value) : exc (list str) :=
  match text with
  | VStr s => Ok (findall_number s)
  | _ => Raise TypeError
  end.

(** [safe_get_str(record, key)] *)
Definition safe_get_str (record : dict) (key : str) : str :=
  match dict_get record key (VStr []) with
  | VStr s => strip s
  | _ => []
  end.

Definition location_fields : list str :=
  [u"行政区"; u"街道"; u"具体位置"].

Definition fieldnames : list str :=
  [u"楼盘名称"; u"类型"; u"行政区"; u"街道"; u"具体位置";
   u"房型"; u"面积"; u"总价"; u"均价"].

(** [value if isinstance(value, list) else []] *)
Definition as_list (v : value) : list value :=
  match v with
  | VList l => l
  | _ => []
  end.

(** The loop of section 4 over [rooms], with [room_numbers] as it stands. *)
Fixpoint collect_room_numbers (rooms : list value) (room_numbers : list float)
  : exc (list float) :=
  match rooms with
  | [] => Ok room_numbers
  | room :: rest =>
      match room with
      | VStr _ =>
          nums <- extract_number room ;;
          match nums with
          | [] => collect_room_numbers rest room_numbers
          | _ =>
              fs <- mapM float_of_str nums ;;
              collect_room_numbers rest (room_numbers ++ fs)
          end
      | _ => collect_room_numbers rest room_numbers
      end
  end.

(** Section 4 up to [avg_room]: [None] when [room_numbers] is empty. *)
Definition avg_room (record : dict) : exc (option float) :=
  let rooms := as_list (dict_get record u"room" (VList [])) in
  room_numbers <- collect_room_numbers rooms [] ;;
  match room_numbers with
  | [] => Ok None
  | _ =>
      n <- int_to_float (Z.of_nat (List.length room_numbers)) ;;
      avg <- float_truediv (float_sum room_numbers) n ;;
      Ok (Some avg)
  end.

(** Section 5 up to the float that is rounded: the midpoint of the first
    two numbers, or the only number, or [None]. *)
Definition avg_area (record : dict) : exc (option float) :=
  let area_text := safe_get_str record u"area" in
  area_numbers <- extract_number (VStr area_text) ;;
  match area_numbers with
  | n0 :: n1 :: _ =>
      lower <- float_of_str n0 ;;
      upper <- float_of_str n1 ;;
      two <- int_to_float 2 ;;
      avg_area <- float_truediv (float_add lower upper) two ;;
      Ok (Some avg_area)
  | [n0] =>
      f <- float_of_str n0 ;;
      Ok (Some f)
  | [] => Ok None
  end.

(** Sections 6 and 7 up to [float(nums[0])], for the record key [key]. *)
Definition first_price (record : dict) (key : str) : exc (option float) :=
  let price_text := safe_get_str record key in
  price_nums <- extract_number (VStr price_text) ;;
  match price_nums with
  | n0 :: _ => f <- float_of_str n0 ;; Ok (Some f)
  | [] => Ok None
  end.

(** The value stored for a numeric field: [conv] of the float, or the
    empty string. *)
Definition stored (conv : float -> exc Z) (o : option float) : exc value :=
  match o with
  | Some f => z <- conv f ;; Ok (VInt z)
  | None => Ok (VStr [])
  end.

(** [process_record(record)] *)
Definition process_record (record : dict) : exc dict :=
  let processed : dict := [] in
  (* 1, 2 *)
  let processed := dict_set processed u"楼盘名称" (VStr (safe_get_str record u"name")) in
  let processed := dict_set processed u"类型" (VStr (safe_get_str record u"type")) in
  (* 3 *)
  let locations := as_list (dict_get record u"location" (VList [])) in
  let processed :=
    fold_left
      (fun processed '(i, field) =>
         match nth_error locations i with
         | Some (VStr s) => dict_set processed field (VStr (strip s))
         | _ => dict_set processed field (VStr [])
         end)
      (enumerate location_fields) processed in
  (* 4 *)
  room <- avg_room record ;;
  v <- stored float_round room ;;
  let processed := dict_set processed u"房型" v in
  (* 5 *)
  area <- avg_area record ;;
  v <- stored float_round area ;;
  let processed := dict_set processed u"面积" v in
  (* 6 *)
  total <- first_price record u"total_price" ;;
  v <- stored float_int total ;;
  let processed := dict_set processed u"总价" v in
  (* 7 *)
  unit <- first_price record u"unit_price" ;;
  v <- stored float_int unit ;;
  let processed := dict_set processed u"均价" v in
  Ok processed.

(** ** Vocabulary for the statements *)

(** What section 3 stores for position [i] of [locations]. *)
Definition location_value (locations : list value) (i : nat) : value :=
  match nth_error locations i with
  | Some (VStr s) => VStr (strip s)
  | _ => VStr []
  end.

(** The computation gave a finite float, or no number at all. *)
Definition yields_finite (x : exc (option float)) : bool :=
  match x with
  | Ok (Some f) => is_finite f
  | Ok None => true
  | Raise _ => false
  end.

(** Every float that [process_record] hands to [round] or [int] is finite. *)
Definition conversions_finite (record : dict) : bool :=
  yields_finite (avg_room record) && yields_finite (avg_area record)
  && yields_finite (first_price record u"total_price")
  && yields_finite (first_price record u"unit_price").

Definition text_field (v : value) : Prop := exists s, v = VStr s.

(** An integer, or the empty string that marks a missing number. *)
Definition number_field (v : value) : Prop := v = VStr [] \/ exists z, v = VInt z.

Definition nonneg_field (v : value) : Prop :=
  v = VStr [] \/ exists z, v = VInt z /\ 0 <= z.

(** A row with the nine fields of the schema, in the order of the header. *)
Definition normalized_row (row : dict) : Prop :=
  exists name type district street detail room area total unit,
    row = [(u"楼盘名称", name); (u"类型", type); (u"行政区", district);
           (u"街道", street); (u"具体位置", detail); (u"房型", room);
           (u"面积", area); (u"总价", total); (u"均价", unit)] /\
    text_field name /\ text_field type /\ text_field district /\
    text_field street /\ text_field detail /\
    number_field room /\ number_field area /\
    number_field total /\ number_field unit.

(** The rule of sections 6 and 7 for the record key [key] and the column
    [field]: the first number, truncated, or the empty string. *)
Definition price_rule (record row : dict) (key field : str) : Prop :=
  match findall_number (safe_get_str record key) with
  | [] => dict_lookup row field = Some (VStr [])
  | t :: _ =>
      exists f, float_of_str t = Ok f /\ is_finite f = true /\
                dict_lookup row field = Some (VInt (Qtrunc (float_value f)))
  end.

(** The rule of section 5: the midpoint of the first two numbers, or the
    only number, rounded to the nearest integer, a tie going to the even
    one; or the empty string. *)
Definition area_rule (record row : dict) : Prop :=
  match findall_number (safe_get_str record u"area") with
  | t0 :: t1 :: _ =>
      exists lower upper mid z,
        float_of_str t0 = Ok lower /\ float_of_str t1 = Ok upper /\
        float_truediv (float_add lower upper) (float_of_Z 2) = Ok mid /\
        float_round mid = Ok z /\
        (Qabs (float_value mid - inject_Z z) <= 1 # 2)%Q /\
        z = round_half_even (float_value mid) /\
        dict_lookup row u"面积" = Some (VInt z)
  | [t] =>
      exists f z,
        float_of_str t = Ok f /\ float_round f = Ok z /\
        (Qabs (float_value f - inject_Z z) <= 1 # 2)%Q /\
        z = round_half_even (float_value f) /\
        dict_lookup row u"面积" = Some (VInt z)
  | [] => dict_lookup row u"面积" = Some (VStr [])
  end.

(** The area column of the row made from a record with this area text. *)
Definition area_of (area_text : str) : exc (option value) :=
  row <- process_record [(u"area", VStr area_text)] ;;
  Ok (dict_lookup row u"面积").

(** ** The numbers as they are written *)

Definition digit_number (c : N) : Z :=
  match to_decimal c with Some d => Z.of_N d | None => 0 end.

(** The whole number written by a run of digits. *)
Definition whole_value (ds : str) : Z :=
  fold_left (fun a c => 10 * a + digit_number c) ds 0.

(** The text before the first point and the text after it. *)
Fixpoint split_at_dot (t : str) : str * str :=
  match t with
  | [] => ([], [])
  | c :: r =>
      if N.eqb c dot then ([], r)
      else let (a, b) := split_at_dot r in (c :: a, b)
  end.

(** The number a match of the pattern writes, as an exact fraction: the
    whole part plus the digits after the point over the power of ten. *)
Definition token_value (t : str) : Q :=
  let (ip, fp) := split_at_dot t in
  (inject_Z (whole_value ip)
   + Qmake (whole_value fp) (Z.to_pos (10 ^ Z.of_nat (List.length fp))))%Q.

(** A match without a point. *)
Definition whole_token (t : str) : bool :=
  match t with [] => false | _ => forallb is_digit t end.

(** The ASCII digits, and the runs of exactly [k] of them. *)
Definition ascii_digits : list N := [48; 49; 50; 51; 52; 53; 54; 55; 56; 57]%N.

Fixpoint digit_runs (k : nat) : list str :=
  match k with
  | O => [[]]
  | S k' => flat_map (fun c => map (cons c) (digit_runs k')) ascii_digits
  end.

(** The runs of one to [k] ASCII digits. *)
Fixpoint whole_tokens (k : nat) : list str :=
  match k with
  | O => []
  | S k' => whole_tokens k' ++ digit_runs k
  end.

(** The runs of no to [k] ASCII digits. *)
Definition decimals (k : nat) : list str := [] :: whole_tokens k.

(** [p] holds of every match made of one to [i] ASCII digits, a point
    and at most [d] ASCII digits. *)
Definition every_decimal (i d : nat) (p : str -> bool) : bool :=
  forallb (fun ip => forallb (fun fp => p (ip ++ dot :: fp)) (decimals d))
          (whole_tokens i).

(** [round(float(t))] is the written number rounded half to even, and
    [int(float(t))] is the written number without its decimals. *)
Definition read_as_written (t : str) : bool :=
  match float_of_str t with
  | Ok f =>
      match float_round f, float_int f with
      | Ok r, Ok z =>
          Z.eqb r (round_half_even (token_value t))
          && Z.eqb z (Qtrunc (token_value t))
      | _, _ => false
      end
  | Raise _ => false
  end.

(** [round((float(t0) + float(t1)) / 2)] is the written midpoint rounded
    half to even. *)
Definition midpoint_as_written (t0 t1 : str) : bool :=
  match float_of_str t0, float_of_str t1 with
  | Ok lower, Ok upper =>
      match float_truediv (float_add lower upper) (float_of_Z 2) with
      | Ok mid =>
          match float_round mid with
          | Ok z => Z.eqb z (round_half_even
                               ((token_value t0 + token_value t1) / 2)%Q)
          | Raise _ => false
          end
      | Raise _ => false
      end
  | _, _ => false
  end.

(** The record keys of the two prices and the columns they fill. *)
Definition price_columns : list (str * str) :=
  [(u"total_price", u"总价"); (u"unit_price", u"均价")].

(** The column [field] of the row made from a record with this text under
    [key]. *)
Definition price_of (key field price_text : str) : exc (option value) :=
  row <- process_record [(key, VStr price_text)] ;;
  Ok (dict_lookup row field).

End Preprocessing.
(* ================================================================== *)
(** * pandas                                                            *)
(* ================================================================== *)

Module Pandas.
Import Py.
Local Open Scope py_scope.

(** A column read from a CSV file is either numeric or an object column of
    strings; a missing value ([NaN]) is [None] in both.  Numbers are taken
    exactly, as rationals: the rounding of the binary64 arithmetic of
    pandas is not part of this model. *)
Inductive series : Type :=
  | Numeric (l : list (option Q))
  | Object (l : list (option str)).

(** Columns by name, in column order. *)
Definition frame := list (str * series).

Inductive scalar : Type :=
  | SNum (q : Q)
  | SStr (s : str).

(** A label of an index: a scalar, or [NaN]. *)
Definition label := option scalar.

Definition cells (s : series) : list label :=
  match s with
  | Numeric l => map (option_map SNum) l
  | Object l => map (option_map SStr) l
  end.

Definition size (s : series) : nat := List.length (cells s).

Definition column_names (df : frame) : list str := map fst df.

(** [col in df.columns] *)
Definition has_column (df : frame) (col : str) : bool :=
  existsb (str_eqb col) (column_names df).

(** [df[col]] *)
Fixpoint getitem (df : frame) (col : str) : exc series :=
  match df with
  | [] => Raise KeyError
  | (c, s) :: df' => if str_eqb c col then Ok s else getitem df' col
  end.

(** [df[col] = s] *)
Fixpoint setitem (df : frame) (col : str) (s : series) : frame :=
  match df with
  | [] => [(col, s)]
  | (c, s') :: df' =>
      if str_eqb c col then (c, s) :: df' else (c, s') :: setitem df' col s
  end.

Definition nrows (df : frame) : nat :=
  match df with
  | [] => O
  | (_, s) :: _ => size s
  end.

(** Boolean indexing. *)
Fixpoint select {A} (mask : list bool) (l : list A) : list A :=
  match mask, l with
  | b :: mask', x :: l' => if b then x :: select mask' l' else select mask' l'
  | _, _ => []
  end.

Definition select_series (mask : list bool) (s : series) : series :=
  match s with
  | Numeric l => Numeric (select mask l)
  | Object l => Object (select mask l)
  end.

Definition present {A} (l : list (option A)) : list A :=
  flat_map (fun o => match o with Some a => [a] | None => [] end) l.

Definition is_some {A} (o : option A) : bool :=
  match o with Some _ => true | None => false end.

Section Coercion.

(** The number a string of a CSV cell stands for, when it stands for one,
    and the text of a number. *)
Variable parse_number : str -> option Q.
Variable number_repr : Q -> str.

(** [pd.to_numeric(s, errors="coerce")] *)
Definition to_numeric (s : series) : series :=
  match s with
  | Numeric l => Numeric l
  | Object l =>
      Numeric (map (fun o => match o with
                             | Some t => parse_number t
                             | None => None
                             end) l)
  end.

(** [s.astype(str)]: [str] is applied to every cell, the missing ones
    included. *)
Definition astype_str (s : series) : series :=
  match s with
  | Numeric l =>
      Object (map (fun o => match o with
                            | Some q => Some (number_repr q)
                            | None => Some u"nan"
                            end) l)
  | Object l =>
      Object (map (fun o => match o with
                            | Some t => Some t
                            | None => Some u"nan"
                            end) l)
  end.

End Coercion.

(** [df.dropna(subset=subset)]: the rows with a value in every column of
    [subset]. *)
Definition notna_mask (cols : list series) (n : nat) : list bool :=
  map (fun i => forallb (fun s => is_some (nth i (cells s) None)) cols) (seq 0 n).

Definition dropna (df : frame) (subset : list str) : exc frame :=
  cols <- mapM (getitem df) subset ;;
  let mask := notna_mask cols (nrows df) in
  Ok (map (fun '(c, s) => (c, select_series mask s)) df).

(** ** Grouping *)

Definition scalar_eqb (a b : scalar) : bool :=
  match a, b with
  | SNum x, SNum y => Qeq_bool x y
  | SStr x, SStr y => str_eqb x y
  | _, _ => false
  end.

Fixpoint str_leb (a b : str) : bool :=
  match a, b with
  | [], _ => true
  | _ :: _, [] => false
  | x :: a', y :: b' => (x <? y)%N || (N.eqb x y && str_leb a' b')
  end.

(** Numbers before strings (pandas does not order a mixed column; the
    scripts group by columns that hold strings only). *)
Definition scalar_leb (a b : scalar) : bool :=
  match a, b with
  | SNum x, SNum y => Qle_bool x y
  | SNum _, SStr _ => true
  | SStr _, SNum _ => false
  | SStr x, SStr y => str_leb x y
  end.

Definition key := list scalar.

Fixpoint key_eqb (a b : key) : bool :=
  match a, b with
  | [], [] => true
  | x :: a', y :: b' => scalar_eqb x y && key_eqb a' b'
  | _, _ => false
  end.

Fixpoint key_leb (a b : key) : bool :=
  match a, b with
  | [], _ => true
  | _ :: _, [] => false
  | x :: a', y :: b' =>
      if scalar_eqb x y then key_leb a' b' else scalar_leb x y
  end.

Section Sorting.
Context {A : Type} (leb : A -> A -> bool).

Fixpoint insert_sorted (x : A) (l : list A) : list A :=
  match l with
  | [] => [x]
  | y :: l' => if leb x y then x :: l else y :: insert_sorted x l'
  end.

(** A stable sort. *)
Definition sort (l : list A) : list A :=
  fold_right insert_sorted [] l.
End Sorting.

(** The first occurrence of every element. *)
Fixpoint distinct {A} (eqb : A -> A -> bool) (l : list A) : list A :=
  match l with
  | [] => []
  | x :: l' => x :: filter (fun y => negb (eqb x y)) (distinct eqb l')
  end.

(** The key of row [i]: [None] when one of the key cells is missing. *)
Fixpoint row_key (by_cols : list series) (i : nat) : option key :=
  match by_cols with
  | [] => Some []
  | s :: rest =>
      match nth i (cells s) None, row_key rest i with
      | Some x, Some k => Some (x :: k)
      | _, _ => None
      end
  end.

Definition row_keys (by_cols : list series) (n : nat) : list (option key) :=
  map (row_key by_cols) (seq 0 n).

(** The groups of [groupby]: the distinct keys, sorted; rows with a missing
    key cell belong to no group. *)
Definition group_keys (by_cols : list series) (n : nat) : list key :=
  sort key_leb (distinct key_eqb (present (row_keys by_cols n))).

(** The rows of the group [k]. *)
Definition members (by_cols : list series) (n : nat) (k : key) : list bool :=
  map (fun o => match o with Some k' => key_eqb k' k | None => false end)
      (row_keys by_cols n).

Definition Qsum (l : list Q) : Q := fold_left Qplus l 0%Q.

(** The mean of the values that are not missing, in lowest terms. *)
Definition mean (l : list (option Q)) : option Q :=
  match present l with
  | [] => None
  | xs => Some (Qred (Qsum xs / inject_Z (Z.of_nat (List.length xs))))
  end.

Inductive how : Type := Mean | Count.

(** One named aggregation [name=(col, how)] on the rows of [mask]. *)
Definition aggregate (df : frame) (col : str) (h : how) (mask : list bool)
  : exc (option Q) :=
  s <- getitem df col ;;
  match h, s with
  | Mean, Numeric l => Ok (mean (select mask l))
  | Mean, Object _ => Raise TypeError
  | Count, _ =>
      Ok (Some (inject_Z (Z.of_nat (List.length (present (select mask (cells s)))))))
  end.

(** The label at position [j] of a key, read with the type of the column
    the key came from. *)
Definition numeric_label (k : key) (j : nat) : option Q :=
  match nth_error k j with
  | Some (SNum q) => Some q
  | _ => None
  end.

Definition object_label (k : key) (j : nat) : option str :=
  match nth_error k j with
  | Some (SStr t) => Some t
  | _ => None
  end.

(** The column of the labels at position [j] of the keys. *)
Definition key_column (s : series) (ks : list key) (j : nat) : series :=
  match s with
  | Numeric _ => Numeric (map (fun k => numeric_label k j) ks)
  | Object _ => Object (map (fun k => object_label k j) ks)
  end.

Definition key_label (s : series) (k : key) (j : nat) : label :=
  match s with
  | Numeric _ => option_map SNum (numeric_label k j)
  | Object _ => option_map SStr (object_label k j)
  end.

(** The column that an aggregation names: it must be a column of the
    table other than the grouping columns, or [agg] raises [KeyError]. *)
Definition aggregated_column (df : frame) (by_names : list str) (col : str)
  : exc series :=
  if existsb (str_eqb col) by_names then Raise KeyError else getitem df col.

(** [df.groupby(by).agg(name=(col, how), ...).reset_index()]: the grouping
    columns are looked up first, then the columns to aggregate, and only
    then the groups are formed and aggregated. *)
Definition groupby_agg (df : frame) (by_names : list str)
    (aggs : list (str * (str * how))) : exc frame :=
  by_cols <- mapM (getitem df) by_names ;;
  _ <- mapM (fun agg => aggregated_column df by_names (fst (snd agg))) aggs ;;
  let n := nrows df in
  let ks := group_keys by_cols n in
  agg_cols <-
    mapM (fun '(name, (col, h)) =>
            vals <- mapM (fun k => aggregate df col h (members by_cols n k)) ks ;;
            Ok (name, Numeric vals)) aggs ;;
  Ok (map (fun '(j, (name, s)) => (name, key_column s ks j))
          (enumerate (combine by_names by_cols))
      ++ agg_cols).

(** Rows of [df] in the order [rows]. *)
Definition take_series (rows : list nat) (s : series) : series :=
  match s with
  | Numeric l => Numeric (map (fun i => nth i l None) rows)
  | Object l => Object (map (fun i => nth i l None) rows)
  end.

Definition take (df : frame) (rows : list nat) : frame :=
  map (fun '(c, s) => (c, take_series rows s)) df.

(** Larger values first, missing values last. *)
Definition desc_leb (a b : option Q * nat) : bool :=
  match fst a, fst b with
  | Some x, Some y => Qle_bool y x
  | Some _, None => true
  | None, Some _ => false
  | None, None => true
  end.

(** [df.sort_values(by=col, ascending=False)] for a numeric column: the
    rows are taken in the order that the sorting routine gives for the
    column.  pandas leaves the sorting to numpy, whose default routine
    does not say where rows with equal values go: [argsort] stands for
    that routine. *)
Definition sort_values_desc_by (argsort : list (option Q) -> list nat)
    (df : frame) (col : str) : exc frame :=
  s <- getitem df col ;;
  match s with
  | Numeric l => Ok (take df (argsort l))
  | Object _ => Raise TypeError
  end.

(** The routine that keeps rows with equal values in their order; on a
    column without equal values every routine gives this order. *)
Definition stable_argsort (l : list (option Q)) : list nat :=
  map snd (sort desc_leb (combine l (seq 0 (List.length l)))).

Definition sort_values_desc (df : frame) (col : str) : exc frame :=
  sort_values_desc_by stable_argsort df col.

(** ** Pivot *)

Definition label_eqb (a b : label) : bool :=
  match a, b with
  | Some x, Some y => scalar_eqb x y
  | None, None => true
  | _, _ => false
  end.

Definition label_leb (a b : label) : bool :=
  match a, b with
  | Some x, Some y => scalar_leb x y
  | Some _, None => true
  | None, Some _ => false
  | None, None => true
  end.

Record pivot_table : Type := {
  index : list label;
  columns : list label;
  values : list (list (option Q))
}.

(** The value of the first row labelled [(a, b)]. *)
Fixpoint lookup_pair (rows : list (label * label * option Q)) (a b : label)
  : option Q :=
  match rows with
  | [] => None
  | (a', b', v) :: rows' =>
      if label_eqb a' a && label_eqb b' b then v else lookup_pair rows' a b
  end.

(** The row [r] is labelled [(a, b)]. *)
Definition matches (a b : label) (r : label * label * option Q) : bool :=
  label_eqb (fst (fst r)) a && label_eqb (snd (fst r)) b.

Definition pair_eqb (p q : label * label) : bool :=
  label_eqb (fst p) (fst q) && label_eqb (snd p) (snd q).

(** No element occurs twice. *)
Fixpoint unique {A} (eqb : A -> A -> bool) (l : list A) : bool :=
  match l with
  | [] => true
  | x :: l' => forallb (fun y => negb (eqb x y)) l' && unique eqb l'
  end.

(** [df.pivot(index=i, columns=c, values=v)]: a pair of labels that occurs
    twice is a [ValueError]; a pair that does not occur is a missing cell. *)
Definition pivot (df : frame) (i c v : str) : exc pivot_table :=
  si <- getitem df i ;;
  sc <- getitem df c ;;
  sv <- getitem df v ;;
  match sv with
  | Object _ => Raise TypeError
  | Numeric vals =>
      let pairs := combine (cells si) (cells sc) in
      if negb (unique pair_eqb pairs) then Raise ValueError
      else
        let rows := combine pairs vals in
        let idx := sort label_leb (distinct label_eqb (cells si)) in
        let cols := sort label_leb (distinct label_eqb (cells sc)) in
        Ok {| index := idx;
              columns := cols;
              values := map (fun a => map (fun b => lookup_pair rows a b) cols) idx |}
  end.

(** The cell of [p] at row label [a] and column label [b]. *)
Definition pivot_cell (p : pivot_table) (a b : label) : option Q :=
  lookup_pair
    (flat_map (fun '(a', row) => map (fun '(b', v) => (a', b', v))
                                     (combine (columns p) row))
              (combine (index p) (values p)))
    a b.

(** [s.min()] and [s.max()], missing values skipped; [None] is [NaN]. *)
Definition extremum (better : Q -> Q -> bool) (l : list (option Q)) : option Q :=
  match present l with
  | [] => None
  | x :: xs => Some (fold_left (fun m y => if better y m then y else m) xs x)
  end.

Definition Qmin (l : list (option Q)) : option Q :=
  extremum (fun y m => negb (Qle_bool m y)) l.

Definition Qmax (l : list (option Q)) : option Q :=
  extremum (fun y m => negb (Qle_bool y m)) l.

End Pandas.
(* ================================================================== *)
(** * The chart scripts                                                 *)
(* ================================================================== *)

(** What [pd.read_csv] did with the file. *)
Inductive read_result : Type :=
  | FileNotFoundError
  | EmptyDataError
  | ParserError (e : Py.str)
  | Loaded (data : Pandas.frame).

(** The body that every [load_data] of the scripts shares; the scripts
    differ in the lists of column names only. *)
Module Loader.
Import Py Pandas.
Local Open Scope py_scope.

Section Load.

Variable parse_number : str -> option Q.
Variable number_repr : Q -> str.

(** The loop over [required_columns]: the column it reports, if any. *)
Fixpoint missing_column (required_columns : list str) (data : frame)
  : option str :=
  match required_columns with
  | [] => None
  | col :: rest =>
      if has_column data col then missing_column rest data else Some col
  end.

(** [data[col] = f(data[col])] for every [col] of [cols], in order. *)
Fixpoint convert (f : series -> series) (cols : list str) (data : frame)
  : exc frame :=
  match cols with
  | [] => Ok data
  | col :: rest =>
      s <- getitem data col ;;
      convert f rest (setitem data col (f s))
  end.

(** The result is what the function returns ([None] or the table) and
    the lines it prints. *)
Definition load_table (required_columns numeric categorical subset : list str)
    (csv_file : str) (r : read_result) : exc (option frame * list str) :=
  match r with
  | FileNotFoundError =>
      Ok (None, [u"文件 " ++ csv_file ++ u" 未找到。请确保文件路径正确。"])
  | EmptyDataError =>
      Ok (None, [u"文件 " ++ csv_file ++ u" 是空的。"])
  | ParserError e =>
      Ok (None, [u"解析 CSV 文件时出错: " ++ e])
  | Loaded data =>
      match missing_column required_columns data with
      | Some col => Ok (None, [u"缺少必要的列: " ++ col])
      | None =>
          data <- convert (to_numeric parse_number) numeric data ;;
          data <- convert (astype_str number_repr) categorical data ;;
          data <- dropna data subset ;;
          Ok (Some data, [])
      end
  end.

End Load.
End Loader.

(** ** average_price_per_district.py *)

Module AveragePricePerDistrict.
Import Py Pandas.
Local Open Scope py_scope.

Definition required_columns : list str := [u"均价"; u"总价"; u"行政区"].

Definition load_data (parse_number : str -> option Q) (number_repr : Q -> str)
  : str -> read_result -> exc (option frame * list str) :=
  Loader.load_table parse_number number_repr
    required_columns [u"均价"; u"总价"] [u"行政区"] [u"均价"; u"总价"; u"行政区"].

(** [prepare_plot_data], with the sorting routine of [sort_values]. *)
Definition prepare_plot_data_by (argsort : list (option Q) -> list nat)
    (data : frame) : exc frame :=
  grouped <- groupby_agg data [u"行政区"]
               [(u"平均单价", (u"均价", Mean));
                (u"平均总价", (u"总价", Mean));
                (u"楼盘数量", (u"楼盘名称", Count))] ;;
  sort_values_desc_by argsort grouped u"平均单价".

Definition prepare_plot_data (data : frame) : exc frame :=
  prepare_plot_data_by stable_argsort data.

End AveragePricePerDistrict.

(** ** radar_chart.py *)

Module RadarChart.
Import Py Pandas.
Local Open Scope py_scope.

Definition required_columns : list str :=
  [u"楼盘名称"; u"类型"; u"行政区"; u"房型"; u"面积"; u"均价"; u"总价"].

Definition load_data (parse_number : str -> option Q) (number_repr : Q -> str)
  : str -> read_result -> exc (option frame * list str) :=
  Loader.load_table parse_number number_repr
    required_columns [u"房型"; u"均价"; u"总价"] [u"类型"; u"行政区"]
    [u"楼盘名称"; u"类型"; u"行政区"; u"房型"; u"面积"; u"均价"; u"总价"].

Definition prepare_radar_data (data : frame) (group_by : str) : exc frame :=
  groupby_agg data [group_by]
    [(u"平均面积", (u"面积", Mean));
     (u"平均房型", (u"房型", Mean));
     (u"平均单价", (u"均价", Mean));
     (u"平均总价", (u"总价", Mean));
     (u"楼盘数量", (u"楼盘名称", Count))].

(** The new column of one metric.  With no value at all [min] and [max]
    are [NaN], the test [max_val - min_val == 0] fails and the arithmetic
    leaves [NaN] everywhere; strings cannot be subtracted. *)
Definition normalize_column (s : series) : exc series :=
  match s with
  | Numeric l =>
      match Qmin l, Qmax l with
      | Some min_val, Some max_val =>
          if Qeq_bool (max_val - min_val) 0
          then Ok (Numeric (map (fun _ => Some 0%Q) l))
          else Ok (Numeric (map (option_map (fun v =>
                       Qred ((v - min_val) / (max_val - min_val)))) l))
      | _, _ => Ok (Numeric (map (fun _ => None) l))
      end
  | Object l =>
      match present l with
      | [] => Ok (Object (map (fun _ => None) l))
      | _ => Raise TypeError
      end
  end.

(** The loop of [normalize_data]: every metric is read from [df] and
    written to [df_norm]. *)
Fixpoint normalize_loop (df : frame) (metrics : list str) (df_norm : frame)
  : exc frame :=
  match metrics with
  | [] => Ok df_norm
  | metric :: rest =>
      s <- getitem df metric ;;
      s' <- normalize_column s ;;
      normalize_loop df rest (setitem df_norm metric s')
  end.

Definition normalize_data (df : frame) (metrics : list str) : exc frame :=
  let df_norm := df in
  normalize_loop df metrics df_norm.

End RadarChart.

(** ** heatmap_average_price_per_district_type.py *)

Module Heatmap.
Import Py Pandas.
Local Open Scope py_scope.

Definition required_columns : list str := [u"均价"; u"总价"; u"行政区"; u"类型"].

Definition load_data (parse_number : str -> option Q) (number_repr : Q -> str)
  : str -> read_result -> exc (option frame * list str) :=
  Loader.load_table parse_number number_repr
    required_columns [u"均价"; u"总价"] [u"行政区"; u"类型"]
    [u"均价"; u"总价"; u"行政区"; u"类型"].

Definition compute_average_prices (data : frame)
  : exc (pivot_table * pivot_table) :=
  grouped <- groupby_agg data [u"行政区"; u"类型"]
               [(u"平均单价", (u"均价", Mean)); (u"平均总价", (u"总价", Mean))] ;;
  pivot_unit_price <- pivot grouped u"行政区" u"类型" u"平均单价" ;;
  pivot_total_price <- pivot grouped u"行政区" u"类型" u"平均总价" ;;
  Ok (pivot_unit_price, pivot_total_price).

End Heatmap.
(** ** Sample tables *)

Module Samples.
Import Py Pandas.
Local Open Scope py_scope.

(** Two listings: the first has no district, the second no unit price. *)
Definition district_missing : frame :=
  [(u"均价", Numeric [Some 100%Q; None]);
   (u"总价", Numeric [Some 200%Q; Some 300%Q]);
   (u"行政区", Object [None; Some u"朝阳"]);
   (u"类型", Object [Some u"住宅"; Some u"住宅"])].

(** Three listings of two districts, every name present. *)
Definition three_listings : frame :=
  [(u"楼盘名称", Object [Some u"甲"; Some u"乙"; Some u"丙"]);
   (u"行政区", Object [Some u"A"; Some u"A"; Some u"B"]);
   (u"均价", Numeric [Some 100%Q; Some 200%Q; Some 50%Q]);
   (u"总价", Numeric [Some 10%Q; Some 20%Q; Some 5%Q])].

(** The same listings, the first without a name. *)
Definition name_missing : frame :=
  [(u"楼盘名称", Object [None; Some u"乙"; Some u"丙"]);
   (u"行政区", Object [Some u"A"; Some u"A"; Some u"B"]);
   (u"均价", Numeric [Some 100%Q; Some 200%Q; Some 50%Q]);
   (u"总价", Numeric [Some 10%Q; Some 20%Q; Some 5%Q])].

(** District A is seen with type X only, district B with X and Y. *)
Definition sparse_types : frame :=
  [(u"行政区", Object [Some u"A"; Some u"B"; Some u"B"]);
   (u"类型", Object [Some u"X"; Some u"X"; Some u"Y"]);
   (u"均价", Numeric [Some 100%Q; Some 200%Q; Some 50%Q]);
   (u"总价", Numeric [Some 10%Q; Some 20%Q; Some 5%Q])].

End Samples.

(** ** preprocessing.py: the batch *)

(** What [json.load] did with the file. *)
Inductive json_result : Type :=
  | JSONDecodeError (e : Py.str)
  | Parsed (data : Py.value).

Module Batch.
Import Py Preprocessing.
Local Open Scope py_scope.

(** UTF-8 encodes every code point of a [str] but the surrogates, which
    [json.load] does produce (from an escape such as ["\ud800"]). *)
Definition is_surrogate (c : N) : bool := (55296 <=? c)%N && (c <=? 57343)%N.

Definition encodable (s : str) : bool := forallb (fun c => negb (is_surrogate c)) s.

(** The text of a cell: a string as it is; the text of any other value
    holds no surrogate. *)
Definition cell_encodable (v : value) : bool :=
  match v with
  | VStr s => encodable s
  | _ => true
  end.

(** [csv.DictWriter(f, fieldnames).writerow(rowdict)] on a file opened with
    [encoding="utf-8-sig"]: the cells of the row in the order of the
    header, the empty string for a column the dict lacks; a key that is no
    column is a [ValueError], and a cell that cannot be encoded is a
    [UnicodeEncodeError] that leaves the row unwritten. *)
Definition writerow (fieldnames : list str) (rowdict : dict) : exc (list value) :=
  if forallb (fun kv => existsb (str_eqb (fst kv)) fieldnames) rowdict
  then
    let cells := map (fun k => dict_get rowdict k (VStr [])) fieldnames in
    if forallb cell_encodable cells then Ok cells else Raise UnicodeEncodeError
  else Raise ValueError.

(** What a call leaves behind: the rows of the CSV file (the header first;
    [None] when the file was never opened), the lines printed, and the
    exception that ended the call, if one did. *)
Record run : Type := {
  written : option (list (list value));
  printed : list str;
  raised : option exn
}.

(** [data if isinstance(data, list) else [data]] *)
Definition entries (data : value) : list value :=
  match data with
  | VList l => l
  | _ => [data]
  end.

Definition header : list value := map VStr fieldnames.

Section Convert.

(** [str(record)], as the f-string of the diagnostic formats it. *)
Variable value_str : value -> str.

(** The line printed for an entry that is skipped. *)
Definition skip_line (record : value) : str :=
  u"跳过非字典类型的记录: " ++ value_str record.

(** The loop over [data], with the rows written and the lines printed so
    far.  Standard output is taken to be UTF-8: [print] raises
    [UnicodeEncodeError] on a line with a surrogate. *)
Fixpoint write_records (data : list value) (rows : list (list value))
    (lines : list str) : run :=
  match data with
  | [] => {| written := Some rows; printed := lines; raised := None |}
  | record :: rest =>
      match record with
      | VDict d =>
          match process_record d with
          | Ok processed =>
              match writerow fieldnames processed with
              | Ok row => write_records rest (rows ++ [row]) lines
              | Raise e =>
                  {| written := Some rows; printed := lines; raised := Some e |}
              end
          | Raise e =>
              {| written := Some rows; printed := lines; raised := Some e |}
          end
      | _ =>
          if encodable (skip_line record)
          then write_records rest rows (lines ++ [skip_line record])
          else {| written := Some rows; printed := lines;
                  raised := Some UnicodeEncodeError |}
      end
  end.

(** [json_to_csv(json_file, csv_file)] *)
Definition json_to_csv (r : json_result) : run :=
  match r with
  | JSONDecodeError e =>
      if encodable (u"JSON 解码错误: " ++ e)
      then {| written := None; printed := [u"JSON 解码错误: " ++ e];
              raised := None |}
      else {| written := None; printed := [];
              raised := Some UnicodeEncodeError |}
  | Parsed data => write_records (entries data) [header] []
  end.

End Convert.

(** The records among the entries, and the entries that are skipped. *)
Definition records (data : list value) : list dict :=
  flat_map (fun v => match v with VDict d => [d] | _ => [] end) data.

Definition skipped (data : list value) : list value :=
  filter (fun v => match v with VDict _ => false | _ => true end) data.

(** [cells] are the values of the row that [process_record] makes of [d]. *)
Definition row_of (d : dict) (cells : list value) : Prop :=
  exists row, process_record d = Ok row /\ normalized_row row /\
              cells = map snd row.

(** Every cell of the row made of [d] can be written to the file. *)
Definition writable (d : dict) : bool :=
  match process_record d with
  | Ok row => forallb cell_encodable (map snd row)
  | Raise _ => true
  end.

(** The input is not a list. *)
Definition not_a_list (data : value) : bool :=
  match data with VList _ => false | _ => true end.

(** The entry is a record. *)
Definition is_record (v : value) : bool :=
  match v with VDict _ => true | _ => false end.

End Batch.

(** ** preprocessing.py: the script *)

Module Script.
Import Py Preprocessing Batch.
Local Open Scope py_scope.

Definition input_json : str := u"./new_house_data.json".
Definition output_csv : str := u"./new_house_data.csv".

(** The block under [if __name__ == "__main__"]: the conversion, then one
    more line, unless an exception ended the conversion. *)
Definition main (value_str : value -> str) (r : json_result) : run :=
  let done := json_to_csv value_str r in
  match raised done with
  | Some _ => done
  | None =>
      {| written := written done;
         printed := printed done
                    ++ [u"数据已成功从 " ++ input_json ++ u" 转换为 " ++ output_csv];
         raised := None |}
  end.

End Script.

(** ** preprocessing.py: vocabulary for further statements *)

Module PreprocessingVocabulary.
Import Py Preprocessing.
Local Open Scope py_scope.

(** Neither a digit nor the point: a character no match can hold. *)
Definition separator (c : N) : bool := negb (is_digit c) && negb (N.eqb c dot).

(** The keys of a record that [process_record] reads. *)
Definition record_keys : list str :=
  [u"name"; u"type"; u"location"; u"room"; u"area"; u"total_price";
   u"unit_price"].

Definition is_str (v : value) : bool :=
  match v with VStr _ => true | _ => false end.

End PreprocessingVocabulary.

(** ** average_price_per_district.py: the widths of the bars *)

(** The computation of the widths in [plot_bar_chart], for the numeric
    column of counts that [prepare_plot_data] makes. *)
Module PlotBarChart.
Import Py Pandas.
Local Open Scope py_scope.

Definition min_width : Q := 3 # 10.
Definition max_width : Q := 1.

(** [a != b] on two results of [min] or [max]: [NaN] differs from
    everything, itself included. *)
Definition differ (a b : option Q) : bool :=
  match a, b with
  | Some x, Some y => negb (Qeq_bool x y)
  | _, _ => true
  end.

(** [normalized_counts] is a series, or the Python list [[0.5] * n]. *)
Inductive scale : Type :=
  | Scaled (s : list (option Q))
  | Halves (n : nat).

Definition normalized_counts (counts : list (option Q)) : scale :=
  if differ (Qmax counts) (Qmin counts)
  then
    match Qmin counts, Qmax counts with
    | Some mn, Some mx =>
        Scaled (map (option_map (fun c => ((c - mn) / (mx - mn))%Q)) counts)
    | _, _ => Scaled (map (fun _ => None) counts)
    end
  else Halves (List.length counts).

(** [min_width + normalized_counts * (max_width - min_width)]: a list
    cannot be multiplied by a float. *)
Definition widths (counts : list (option Q)) : exc (list (option Q)) :=
  match normalized_counts counts with
  | Scaled s =>
      Ok (map (option_map (fun x =>
                Qred (min_width + x * (max_width - min_width)))) s)
  | Halves _ => Raise TypeError
  end.

End PlotBarChart.

(** ** Vocabulary for statements about tables *)

Module TableVocabulary.
Import Py Pandas.
Local Open Scope py_scope.

(** Every column of the table has [n] cells. *)
Definition rectangular (df : frame) (n : nat) : Prop :=
  Forall (fun cs => size (snd cs) = n) df.

(** No cell of the column is missing. *)
Definition complete (s : series) : bool := forallb is_some (cells s).

Definition is_numeric (s : series) : bool :=
  match s with Numeric _ => true | Object _ => false end.

(** The file was read and has every column of [required]. *)
Definition accepted (required : list str) (r : read_result) : Prop :=
  exists data, r = Loaded data /\
               forall c, In c required -> has_column data c = true.

(** Every element is related to the next one. *)
Fixpoint chain {A} (R : A -> A -> bool) (l : list A) : bool :=
  match l with
  | x :: (y :: _) as l' => R x y && chain R l'
  | _ => true
  end.

(** [a] may stand before [b] when the larger values come first and the
    missing ones last. *)
Definition not_less (a b : option Q) : bool :=
  match a, b with
  | Some x, Some y => Qle_bool y x
  | Some _, None => true
  | None, Some _ => false
  | None, None => true
  end.

Definition descending (l : list (option Q)) : bool := chain not_less l.

(** What every sorting routine of [sort_values(ascending=False)] does: it
    gives every position once, and the values in that order descend. *)
Definition sorts_descending (argsort : list (option Q) -> list nat) : Prop :=
  forall l,
    Permutation (argsort l) (seq 0 (List.length l)) /\
    descending (map (fun i => nth i l None) (argsort l)) = true.

(** The text of the key of a group of one column of strings. *)
Definition key_text (k : key) : str :=
  match k with
  | [SStr t] => t
  | _ => []
  end.

(** Strictly before, in the order of the code points. *)
Definition str_ltb (a b : str) : bool := str_leb a b && negb (str_eqb a b).

Definition ascending (l : list str) : bool := chain str_ltb l.

(** The value of one aggregation on the rows of [mask], where it has
    one. *)
Definition aggregated (df : frame) (col : str) (h : how) (mask : list bool)
  : option Q :=
  match aggregate df col h mask with
  | Ok v => v
  | Raise _ => None
  end.

(** The rows below [n] where the columns [a] and [b] both have a value. *)
Definition both_present (a b : series) (n : nat) : list nat :=
  filter (fun i => is_some (nth i (cells a) None) &&
                   is_some (nth i (cells b) None)) (seq 0 n).

End TableVocabulary.

(* ================================================================== *)
(** * Facts about the runtime                                           *)
(* ================================================================== *)

Module PyFacts.
Import Py.

Lemma Ok_inj {A} (a b : A) : Ok a = Ok b -> a = b.
Proof. congruence. Qed.

Lemma str_eqb_refl (a : str) : str_eqb a a = true.
Proof.
  induction a as [|x a IH]; simpl; [reflexivity|].
  now rewrite N.eqb_refl, IH.
Qed.

Lemma str_eqb_eq (a b : str) : str_eqb a b = true <-> a = b.
Proof.
  split.
  - revert b; induction a as [|x a IH]; destruct b as [|y b]; simpl;
      try discriminate; [reflexivity|].
    intros H; apply andb_prop in H; destruct H as [Hx Hr].
    apply N.eqb_eq in Hx; subst; f_equal; auto.
  - intros ->; apply str_eqb_refl.
Qed.

(** ** The matcher *)

Lemma span_digits_spec (s ds r : str) :
  span_digits s = (ds, r) ->
  s = ds ++ r /\ forallb is_digit ds = true /\ span_digits r = ([], r).
Proof.
  revert ds r; induction s as [|c s IH]; simpl; intros ds r H.
  - inversion H; subst; auto.
  - destruct (is_digit c) eqn:Hc.
    + destruct (span_digits s) as [ds' r'] eqn:Hs.
      inversion H; subst; clear H.
      destruct (IH _ _ eq_refl) as (-> & Hall & Hr).
      simpl; rewrite Hc, Hall; auto.
    + inversion H; subst; clear H; simpl.
      rewrite Hc; auto.
Qed.

Lemma span_digits_nil_head (c : N) (s r : str) :
  span_digits (c :: s) = ([], r) -> is_digit c = false.
Proof.
  simpl; destruct (is_digit c); [|reflexivity].
  destruct (span_digits s); discriminate.
Qed.

Lemma match_number_spec (s tok r : str) :
  match_number s = Some (tok, r) ->
  number_token tok /\ s = tok ++ r /\ tok <> [].
Proof.
  unfold match_number.
  destruct (span_digits s) as [ds1 r1] eqn:H1.
  destruct ds1 as [|d ds1]; [discriminate|].
  destruct (span_digits_spec _ _ _ H1) as (Hs & Hd1 & Hr1).
  destruct r1 as [|c r1'].
  - simpl; intros H; inversion H; subst; clear H.
    repeat split; try discriminate.
    + exists (d :: ds1), [], []; repeat split; auto; discriminate.
    + now rewrite !app_nil_r.
  - destruct (N.eqb c dot) eqn:Hc.
    + apply N.eqb_eq in Hc; subst c.
      destruct (span_digits r1') as [ds2 r3] eqn:H2.
      intros H; inversion H; subst tok r3; clear H.
      destruct (span_digits_spec _ _ _ H2) as (-> & Hd2 & _).
      repeat split; try discriminate.
      * exists (d :: ds1), [dot], ds2; repeat split; auto; discriminate.
      * rewrite Hs; simpl; rewrite <- !app_assoc; reflexivity.
    + rewrite Hr1.
      intros H; inversion H; subst tok r; clear H.
      repeat split; try discriminate.
      * exists (d :: ds1), [], []; repeat split; auto; discriminate.
      * now rewrite Hs, !app_nil_r.
Qed.

Lemma findall_from_tokens (fuel : nat) (s tok : str) :
  In tok (findall_from fuel s) -> number_token tok.
Proof.
  revert s; induction fuel as [|fuel IH]; simpl; intros s H; [contradiction|].
  destruct s as [|c s']; [contradiction|].
  destruct (match_number (c :: s')) as [[t r]|] eqn:Hm.
  - destruct H as [<-|H]; [|eauto].
    now apply match_number_spec in Hm.
  - eauto.
Qed.

Lemma match_number_no_digit (c : N) (s : str) :
  is_digit c = false -> match_number (c :: s) = None.
Proof.
  intros Hc; unfold match_number; simpl; now rewrite Hc.
Qed.

Lemma findall_from_no_digit (fuel : nat) (s : str) :
  no_digit s = true -> findall_from fuel s = [].
Proof.
  revert s; induction fuel as [|fuel IH]; simpl; intros s H; [reflexivity|].
  destruct s as [|c s']; [reflexivity|].
  simpl in H; apply andb_prop in H; destruct H as [Hc Hs].
  apply negb_true_iff in Hc.
  rewrite match_number_no_digit by assumption.
  now apply IH.
Qed.

(** ** Digits and blanks *)

Lemma ascii_digit (c : N) :
  is_digit c = true -> (c < 128)%N -> (48 <= c <= 57)%N.
Proof.
  unfold is_digit, to_decimal; intros H Hc.
  destruct (find _ decimal_blocks) as [b|] eqn:Hf.
  - apply find_some in Hf; destruct Hf as [Hin Hb].
    apply andb_prop in Hb; destruct Hb as [H1 H2].
    apply N.leb_le in H1; apply N.ltb_lt in H2.
    simpl in Hin.
    repeat (destruct Hin as [<-|Hin]; [lia|]).
    contradiction.
  - destruct ((0x1D7CE <=? c) && (c <=? 0x1D7FF))%N eqn:Hm; [|discriminate].
    apply andb_prop in Hm; destruct Hm as [H1 _].
    apply N.leb_le in H1; lia.
Qed.

Lemma digit_not_space (c : N) : is_digit c = true -> is_space c = false.
Proof.
  intros H; destruct (is_space c) eqn:E; [|reflexivity].
  apply existsb_exists in E; destruct E as (x & Hin & Hx).
  apply N.eqb_eq in Hx; subst x; simpl in Hin.
  repeat (destruct Hin as [<-|Hin]; [vm_compute in H; discriminate|]).
  contradiction.
Qed.

Lemma digit_not_float_space (c : N) :
  is_digit c = true -> float_space c = false.
Proof.
  intros H; unfold float_space.
  destruct (c <? 127)%N eqn:Hc; [|now apply digit_not_space].
  apply N.ltb_lt in Hc.
  pose proof (ascii_digit c H ltac:(lia)) as Hr.
  destruct (existsb _ _) eqn:E; [|reflexivity].
  apply existsb_exists in E; destruct E as (x & Hin & Hx).
  apply N.eqb_eq in Hx; subst x; simpl in Hin.
  repeat (destruct Hin as [<-|Hin]; [lia|]).
  contradiction.
Qed.

Lemma lstrip_head (sp : N -> bool) (c : N) (s : str) :
  sp c = false -> lstrip sp (c :: s) = c :: s.
Proof. intros H; simpl; now rewrite H. Qed.

Lemma strip_with_id (sp : N -> bool) (c c' : N) (s s' : str) :
  sp c = false -> sp c' = false -> c :: s = s' ++ [c'] ->
  strip_with sp (c :: s) = c :: s.
Proof.
  intros Hc Hc' E; unfold strip_with.
  rewrite lstrip_head by assumption.
  rewrite E, rev_app_distr; simpl.
  rewrite Hc'; simpl. now rewrite rev_involutive.
Qed.

(** ** Rounding keeps the sign *)

Lemma shr_1_nonneg (r : shr_record) : 0 <= shr_m r -> 0 <= shr_m (shr_1 r).
Proof.
  destruct r as [m r s]; simpl.
  destruct m as [|[q|q|]|[q|q|]]; simpl; lia.
Qed.

Lemma iter_pos_invariant {A} (P : A -> Prop) (f : A -> A) :
  (forall x, P x -> P (f x)) ->
  forall n x, P x -> P (iter_pos f n x).
Proof.
  intros Hf; induction n as [n IH|n IH|]; simpl; intros x Hx; auto.
Qed.

Lemma shr_record_of_loc_m (m : Z) (l : location) :
  shr_m (shr_record_of_loc m l) = m.
Proof. destruct l as [|[]]; reflexivity. Qed.

Lemma shr_fexp_nonneg (p e m ex : Z) (l : location) :
  0 <= m -> 0 <= shr_m (fst (shr_fexp p e m ex l)).
Proof.
  intros Hm; unfold shr_fexp, shr.
  destruct (_ - ex) as [|n|n]; simpl; try now rewrite shr_record_of_loc_m.
  apply iter_pos_invariant with (P := fun r => 0 <= shr_m r).
  - apply shr_1_nonneg.
  - now rewrite shr_record_of_loc_m.
Qed.

Lemma round_nearest_even_nonneg (m : Z) (l : location) :
  0 <= m -> 0 <= round_nearest_even m l.
Proof.
  intros Hm; destruct l as [|[]]; simpl; try lia.
  destruct (Z.even m); lia.
Qed.

Lemma binary_round_aux_nonneg (p e m ex : Z) (l : location) :
  0 <= m -> nonneg (binary_round_aux p e false m ex l) = true.
Proof.
  intros Hm; unfold binary_round_aux.
  pose proof (shr_fexp_nonneg p e m ex l Hm) as H1.
  destruct (shr_fexp p e m ex l) as [mrs' e'] eqn:E1; simpl in H1.
  pose proof (shr_fexp_nonneg p e _ e' loc_Exact
                (round_nearest_even_nonneg _ (loc_of_shr_record mrs') H1)) as H2.
  destruct (shr_fexp p e (round_nearest_even _ _) e' loc_Exact) as [mrs'' e''].
  simpl in H2.
  destruct (shr_m mrs'') as [|q|q]; try reflexivity; [|lia].
  now destruct (e'' <=? e - p).
Qed.

Lemma binary_round_nonneg (p e : Z) (m : positive) (ex : Z) :
  nonneg (binary_round p e false m ex) = true.
Proof.
  unfold binary_round.
  destruct (shl_align m ex _) as [mz ez].
  apply binary_round_aux_nonneg; lia.
Qed.

Lemma binary_normalize_nonneg (p e z ex : Z) :
  0 <= z -> nonneg (binary_normalize p e z ex false) = true.
Proof.
  intros Hz; destruct z as [|q|q]; simpl; try reflexivity; [|lia].
  apply binary_round_nonneg.
Qed.

Lemma SFdiv_core_nonneg (p e : Z) (m1 : positive) (e1 : Z) (m2 : positive) (e2 : Z) :
  0 <= fst (fst (SFdiv_core_binary p e (Z.pos m1) e1 (Z.pos m2) e2)).
Proof.
  unfold SFdiv_core_binary.
  match goal with
  | |- context [Z.div_eucl ?a ?b] =>
      assert (Ha : 0 <= a);
      [| pose proof (Z.div_pos a b Ha ltac:(lia)) as Hq; unfold Z.div in Hq;
         destruct (Z.div_eucl a b) as [q r]; exact Hq]
  end.
  match goal with
  | |- 0 <= match ?s with _ => _ end => destruct s; try lia
  end.
  apply Z.shiftl_nonneg; lia.
Qed.

Lemma SFdiv_nonneg (p e : Z) (a b : float) :
  nonneg a = true -> nonneg b = true ->
  is_finite b = true -> is_zero b = false ->
  nonneg (SFdiv p e a b) = true.
Proof.
  destruct a as [sa|sa| |sa ma ea], b as [sb|sb| |sb mb eb];
    unfold nonneg, is_finite, is_zero; intros Ha Hb Hf Hz; try discriminate;
    apply negb_true_iff in Ha, Hb; subst sa sb; try reflexivity.
  unfold SFdiv.
  pose proof (SFdiv_core_nonneg p e ma ea mb eb) as Hq.
  destruct (SFdiv_core_binary p e (Z.pos ma) ea (Z.pos mb) eb) as [[q e'] l].
  now apply binary_round_aux_nonneg.
Qed.

Lemma float_add_nonneg (a b : float) :
  nonneg a = true -> nonneg b = true -> nonneg (float_add a b) = true.
Proof.
  unfold float_add.
  destruct a as [sa|sa| |sa ma ea], b as [sb|sb| |sb mb eb];
    simpl; try discriminate; intros Ha Hb;
    apply negb_true_iff in Ha, Hb; subst; try reflexivity.
  apply binary_normalize_nonneg; simpl; lia.
Qed.

Lemma float_sum_nonneg (fs : list float) :
  forallb nonneg fs = true -> nonneg (float_sum fs) = true.
Proof.
  unfold float_sum.
  assert (H : forall acc, nonneg acc = true -> forallb nonneg fs = true ->
                          nonneg (fold_left float_add fs acc) = true).
  { induction fs as [|f fs IH]; simpl; intros acc Hacc Hfs; [assumption|].
    apply andb_prop in Hfs; destruct Hfs as [Hf Hfs].
    apply IH; [now apply float_add_nonneg | assumption]. }
  now apply H.
Qed.

Lemma float_truediv_nonneg (a b q : float) :
  nonneg a = true -> nonneg b = true -> is_finite b = true ->
  float_truediv a b = Ok q -> nonneg q = true.
Proof.
  unfold float_truediv; intros Ha Hb Hf.
  destruct (is_zero b) eqn:Hz; [discriminate|].
  intros H; inversion H; subst. now apply SFdiv_nonneg.
Qed.

Lemma int_to_float_nonneg (z : Z) (f : float) :
  0 <= z -> int_to_float z = Ok f -> nonneg f = true /\ is_finite f = true.
Proof.
  unfold int_to_float, float_of_Z; intros Hz.
  destruct (is_finite _) eqn:Hf; [|discriminate].
  intros H; inversion H; subst. split; [|assumption].
  now apply binary_normalize_nonneg.
Qed.

Lemma decimal_to_float_nonneg (m : N) (e10 : Z) :
  nonneg (decimal_to_float false m e10) = true.
Proof.
  unfold decimal_to_float.
  destruct m as [|q]; [reflexivity|].
  destruct (0 <=? e10).
  - apply binary_round_nonneg.
  - apply SFdiv_nonneg; reflexivity.
Qed.

Lemma float_round_nonneg (f : float) (z : Z) :
  nonneg f = true -> float_round f = Ok z -> 0 <= z.
Proof.
  destruct f as [s|s| |s m e]; cbn [float_round nonneg]; try discriminate;
    intros Hs H; [injection H as <-; lia|].
  injection H as <-.
  apply negb_true_iff in Hs; subst s; unfold cond_opp.
  destruct (0 <=? e) eqn:He.
  - pose proof (Z.pow_nonneg 2 e ltac:(lia)); destruct (2 ^ e); lia.
  - assert (Hd : 0 < 2 ^ (- e)) by (apply Z.pow_pos_nonneg; lia).
    pose proof (Z.div_pos (Z.pos m) (2 ^ (- e)) ltac:(lia) Hd) as Hq.
    destruct (_ ?= _); [destruct (Z.even _)| |]; lia.
Qed.

Lemma float_int_nonneg (f : float) (z : Z) :
  nonneg f = true -> float_int f = Ok z -> 0 <= z.
Proof.
  destruct f as [s|s| |s m e]; cbn [float_int nonneg]; try discriminate;
    intros Hs H; [injection H as <-; lia|].
  injection H as <-.
  apply negb_true_iff in Hs; subst s; unfold cond_opp.
  destruct (0 <=? e) eqn:He.
  - pose proof (Z.pow_nonneg 2 e ltac:(lia)); destruct (2 ^ e); lia.
  - apply Z.div_pos; [lia|]. apply Z.pow_pos_nonneg; lia.
Qed.

(** ** [float] on the matches of the pattern *)

Lemma more_digits_run (ds r : str) :
  forallb is_digit ds = true -> stops r ->
  more_digits (ds ++ r) = (digit_values ds, r).
Proof.
  intros Hds Hr; induction ds as [|c ds IH].
  - destruct r as [|c r']; [reflexivity|].
    destruct Hr as [Hc Hu]; unfold is_digit in Hc.
    destruct (to_decimal c) eqn:Ht; [discriminate|].
    apply N.eqb_neq in Hu.
    cbn [app more_digits digit_values map]. now rewrite Ht, Hu.
  - simpl in Hds; apply andb_prop in Hds; destruct Hds as [Hc Hds].
    unfold is_digit in Hc.
    destruct (to_decimal c) eqn:Ht; [|discriminate].
    cbn [app more_digits digit_values map].
    rewrite Ht, (IH Hds). reflexivity.
Qed.

Lemma digit_part_run (ds r : str) :
  forallb is_digit ds = true -> stops r ->
  digit_part (ds ++ r) = (digit_values ds, r).
Proof.
  intros Hds Hr; destruct ds as [|c ds].
  - destruct r as [|c r']; [reflexivity|].
    destruct Hr as [Hc _]; unfold is_digit in Hc.
    destruct (to_decimal c) eqn:Ht; [discriminate|].
    cbn [app digit_part digit_values map]. now rewrite Ht.
  - simpl in Hds; apply andb_prop in Hds; destruct Hds as [Hc Hds].
    unfold is_digit in Hc.
    destruct (to_decimal c) eqn:Ht; [|discriminate].
    cbn [app digit_part digit_values map].
    rewrite Ht, (more_digits_run ds r Hds Hr). reflexivity.
Qed.

Lemma decimal_literal_token (ds1 pt ds2 : str) :
  ds1 <> [] -> forallb is_digit ds1 = true -> forallb is_digit ds2 = true ->
  pt = [dot] \/ pt = [] /\ ds2 = [] ->
  exists m e10, decimal_literal (ds1 ++ pt ++ ds2) = Some (m, e10).
Proof.
  intros Hne H1 H2 Hpt; unfold decimal_literal.
  assert (Hv : digit_values ds1 <> []).
  { destruct ds1; [contradiction|discriminate]. }
  destruct Hpt as [->|[-> ->]].
  - rewrite (digit_part_run ds1 ([dot] ++ ds2) H1)
      by (split; [reflexivity|discriminate]).
    cbn [app]. rewrite N.eqb_refl.
    pose proof (digit_part_run ds2 [] H2 I) as E.
    rewrite app_nil_r in E; rewrite E.
    destruct (digit_values ds1 ++ digit_values ds2) eqn:Hd.
    + apply app_eq_nil in Hd; destruct Hd; contradiction.
    + eauto.
  - cbn [app]. pose proof (digit_part_run ds1 [] H1 I) as E.
    rewrite app_nil_r in E |- *; rewrite E.
    destruct (digit_values ds1) eqn:Hd; [contradiction|].
    simpl; eauto.
Qed.

Lemma digit_char (c : N) :
  is_digit c = true ->
  float_space c = false /\ take_sign [c] = (false, [c]) /\
  (forall s, take_sign (c :: s) = (false, c :: s)) /\
  (forall s w, hd 0%N w = 105%N \/ hd 0%N w = 110%N ->
               str_eqb (lower (c :: s)) w = false).
Proof.
  intros H.
  assert (Hc : (128 <= c \/ 48 <= c <= 57)%N).
  { destruct (N.lt_ge_cases c 128) as [Hlt|Hge]; [right|left; assumption].
    now apply ascii_digit. }
  assert (Hs : forall s, take_sign (c :: s) = (false, c :: s)).
  { intros s; unfold take_sign.
    destruct (N.eqb_spec c 45); [lia|]. now destruct (N.eqb_spec c 43); [lia|]. }
  repeat split; auto using digit_not_float_space.
  intros s w Hw; simpl.
  destruct ((65 <=? c) && (c <=? 90))%N eqn:Hu.
  - apply andb_prop in Hu; destruct Hu as [Hu1 Hu2].
    apply N.leb_le in Hu1, Hu2; lia.
  - destruct w as [|x w]; [reflexivity|]; simpl in Hw |- *.
    destruct (N.eqb_spec c x); [lia|reflexivity].
Qed.

Lemma float_of_str_token (t : str) :
  number_token t ->
  exists f, float_of_str t = Ok f /\ nonneg f = true.
Proof.
  intros (ds1 & pt & ds2 & -> & Hne & H1 & H2 & Hpt).
  destruct (decimal_literal_token ds1 pt ds2 Hne H1 H2 Hpt) as (m & e10 & Hlit).
  assert (Hlast : exists s' c', ds1 ++ pt ++ ds2 = s' ++ [c'] /\ float_space c' = false).
  { destruct Hpt as [->|[-> ->]].
    - destruct ds2 as [|d ds2] using rev_ind.
      + exists ds1, dot; now rewrite app_nil_r.
      + exists (ds1 ++ [dot] ++ ds2), d; split; [now rewrite !app_assoc|].
        rewrite forallb_app in H2; apply andb_prop in H2; destruct H2 as [_ Hd].
        simpl in Hd; rewrite andb_true_r in Hd.
        now apply digit_not_float_space.
    - destruct ds1 as [|d ds1] using rev_ind; [contradiction|].
      exists ds1, d; split; [now rewrite app_nil_r|].
      rewrite forallb_app in H1; apply andb_prop in H1; destruct H1 as [_ Hd].
      simpl in Hd; rewrite andb_true_r in Hd.
      now apply digit_not_float_space. }
  destruct Hlast as (s' & c' & Hs' & Hc').
  destruct ds1 as [|c ds1]; [contradiction|].
  simpl in H1; apply andb_prop in H1; destruct H1 as [Hc _].
  destruct (digit_char c Hc) as (Hsp & _ & Hsign & Hword).
  exists (decimal_to_float false m e10); split;
    [|apply decimal_to_float_nonneg].
  unfold float_of_str.
  simpl app in *.
  rewrite (strip_with_id float_space c c' _ s' Hsp Hc' Hs').
  rewrite Hsign.
  rewrite !Hword by (vm_compute; auto).
  now rewrite Hlit.
Qed.

(** ** [int] and [round] against the value of the float *)

Lemma float_int_finite (f : float) (z : Z) :
  float_int f = Ok z -> is_finite f = true.
Proof. destruct f; simpl; intros H; try reflexivity; discriminate. Qed.


Lemma float_int_total (f : float) :
  is_finite f = true -> exists z, float_int f = Ok z.
Proof. destruct f; simpl; intros H; try discriminate; eauto. Qed.

Lemma float_round_total (f : float) :
  is_finite f = true -> exists z, float_round f = Ok z.
Proof. destruct f; simpl; intros H; try discriminate; eauto. Qed.

Lemma float_int_trunc (f : float) (z : Z) :
  float_int f = Ok z -> z = Qtrunc (float_value f).
Proof.
  destruct f as [s|s| |s m e]; cbn [float_int float_value]; try discriminate;
    intros H; apply Ok_inj in H; subst z; [reflexivity|].
  destruct (0 <=? e) eqn:He; unfold Qtrunc; cbn [Qnum Qden inject_Z].
  - now rewrite Z.quot_1_r.
  - assert (Hd : 0 < 2 ^ (- e)) by (apply Z.pow_pos_nonneg; lia).
    rewrite Z2Pos.id by assumption.
    destruct s; unfold cond_opp.
    + rewrite Z.quot_opp_l by lia.
      now rewrite Z.quot_div_nonneg by lia.
    + now rewrite Z.quot_div_nonneg by lia.
Qed.

Lemma float_round_nearest (f : float) (z : Z) :
  float_round f = Ok z -> (Qabs (float_value f - inject_Z z) <= 1 # 2)%Q.
Proof.
  destruct f as [s|s| |s m e]; cbn [float_round float_value]; try discriminate;
    intros H; apply Ok_inj in H; subst z; [discriminate|].
  apply Qabs_Qle_condition.
  destruct (0 <=? e) eqn:He.
  - generalize (cond_opp s (Z.pos m * 2 ^ e)); intros z.
    unfold Qle, Qminus, Qplus, Qopp, inject_Z; cbn [Qnum Qden]; lia.
  - assert (Hd : 0 < 2 ^ (- e)) by (apply Z.pow_pos_nonneg; lia).
    pose proof (Z.div_mod (Z.pos m) (2 ^ (- e)) ltac:(lia)) as Hdm.
    pose proof (Z.mod_pos_bound (Z.pos m) (2 ^ (- e)) Hd) as Hr.
    set (d := 2 ^ (- e)) in *.
    set (q := Z.pos m / d) in *.
    set (r := Z.pos m mod d) in *.
    assert (Hq : 0 <= q) by (apply Z.div_pos; lia).
    unfold Qle, Qminus, Qplus, Qopp, inject_Z; cbn [Qnum Qden].
    rewrite !Z2Pos.id by assumption.
    destruct (2 * r ?= d) eqn:Hc;
      [apply Z.compare_eq in Hc | rewrite Z.compare_lt_iff in Hc
       | rewrite Z.compare_gt_iff in Hc];
      destruct s; unfold cond_opp; try destruct (Z.even q); nia.
Qed.

(** ** What [float] reads from a match *)

Lemma decimal_literal_value (ds1 pt ds2 : str) :
  ds1 <> [] -> forallb is_digit ds1 = true -> forallb is_digit ds2 = true ->
  pt = [dot] \/ pt = [] /\ ds2 = [] ->
  decimal_literal (ds1 ++ pt ++ ds2)
  = Some (digits_value (digit_values (ds1 ++ ds2)),
          - Z.of_nat (List.length ds2)).
Proof.
  intros Hne H1 H2 Hpt; unfold decimal_literal.
  assert (Hv : digit_values ds1 <> []).
  { destruct ds1; [contradiction|discriminate]. }
  assert (Happ : digit_values (ds1 ++ ds2) = digit_values ds1 ++ digit_values ds2)
    by (unfold digit_values; apply map_app).
  rewrite Happ; clear Happ.
  destruct Hpt as [->|[-> ->]].
  - rewrite (digit_part_run ds1 ([dot] ++ ds2) H1)
      by (split; [reflexivity|discriminate]).
    cbn [app]. rewrite N.eqb_refl.
    pose proof (digit_part_run ds2 [] H2 I) as E.
    rewrite app_nil_r in E; rewrite E.
    destruct (digit_values ds1 ++ digit_values ds2) eqn:Hd.
    + apply app_eq_nil in Hd; destruct Hd; contradiction.
    + assert (L : List.length (digit_values ds2) = List.length ds2)
        by (unfold digit_values; apply length_map).
      now rewrite L.
  - cbn [app]. pose proof (digit_part_run ds1 [] H1 I) as E.
    rewrite app_nil_r in E |- *; rewrite E.
    cbn [digit_values map]. rewrite app_nil_r.
    destruct (digit_values ds1) eqn:Hd; [contradiction|].
    reflexivity.
Qed.

Lemma float_of_str_value (ds1 pt ds2 : str) :
  ds1 <> [] -> forallb is_digit ds1 = true -> forallb is_digit ds2 = true ->
  pt = [dot] \/ pt = [] /\ ds2 = [] ->
  float_of_str (ds1 ++ pt ++ ds2)
  = Ok (decimal_to_float false (digits_value (digit_values (ds1 ++ ds2)))
          (- Z.of_nat (List.length ds2))).
Proof.
  intros Hne H1 H2 Hpt.
  pose proof (decimal_literal_value ds1 pt ds2 Hne H1 H2 Hpt) as Hlit.
  assert (Hlast : exists s' c', ds1 ++ pt ++ ds2 = s' ++ [c'] /\ float_space c' = false).
  { destruct Hpt as [->|[-> ->]].
    - destruct ds2 as [|d ds2] using rev_ind.
      + exists ds1, dot; now rewrite app_nil_r.
      + exists (ds1 ++ [dot] ++ ds2), d; split; [now rewrite !app_assoc|].
        rewrite forallb_app in H2; apply andb_prop in H2; destruct H2 as [_ Hd].
        simpl in Hd; rewrite andb_true_r in Hd.
        now apply digit_not_float_space.
    - destruct ds1 as [|d ds1] using rev_ind; [contradiction|].
      exists ds1, d; split; [now rewrite app_nil_r|].
      rewrite forallb_app in H1; apply andb_prop in H1; destruct H1 as [_ Hd].
      simpl in Hd; rewrite andb_true_r in Hd.
      now apply digit_not_float_space. }
  destruct Hlast as (s' & c' & Hs' & Hc').
  destruct ds1 as [|c ds1]; [contradiction|].
  simpl in H1; apply andb_prop in H1; destruct H1 as [Hc _].
  destruct (digit_char c Hc) as (Hsp & _ & Hsign & Hword).
  unfold float_of_str.
  simpl app in *.
  rewrite (strip_with_id float_space c c' _ s' Hsp Hc' Hs').
  rewrite Hsign.
  rewrite !Hword by (vm_compute; auto).
  now rewrite Hlit.
Qed.

(** ** Whole numbers below [2 ^ 53] are floats *)

Lemma digits2_size (p : positive) : digits2_pos p = Pos.size p.
Proof. induction p; simpl; congruence. Qed.

Lemma digits2_bound (p : positive) :
  Z.pos p < 2 ^ 53 -> Z.pos (digits2_pos p) <= 53.
Proof.
  intros H. rewrite digits2_size.
  pose proof (Pos.size_le p) as L.
  apply Pos2Z.pos_le_pos in L. rewrite Pos2Z.inj_pow, (Pos2Z.inj_xO p) in L.
  destruct (Z_le_gt_dec (Z.pos (Pos.size p)) 53) as [|G]; [assumption|exfalso].
  assert (E : 2 ^ 54 <= 2 ^ Z.pos (Pos.size p)) by (apply Z.pow_le_mono_r; lia).
  change (2 ^ 54) with (2 * 2 ^ 53) in E.
  lia.
Qed.

Lemma iter_xO_value (p k : positive) :
  Z.pos (Pos.iter xO p k) = Z.pos p * 2 ^ Z.pos k.
Proof.
  induction k using Pos.peano_ind.
  - simpl. lia.
  - rewrite Pos.iter_succ, Pos2Z.inj_xO, IHk, Pos2Z.inj_succ, Z.pow_succ_r by lia.
    lia.
Qed.

Lemma iter_xO_digits (p k : positive) :
  digits2_pos (Pos.iter xO p k) = (digits2_pos p + k)%positive.
Proof.
  induction k using Pos.peano_ind.
  - simpl. lia.
  - rewrite Pos.iter_succ. cbn [digits2_pos]. rewrite IHk. lia.
Qed.

(** A mantissa and the same mantissa with [j] more zero bits. *)
Lemma shifted (s q : positive) (j : Z) :
  0 <= j -> Z.pos s = Z.pos q * 2 ^ j ->
  j = 0 /\ s = q \/ exists jp, j = Z.pos jp /\ s = Pos.iter xO q jp.
Proof.
  intros Hj H. destruct j as [|jp|jp]; [left|right|lia].
  - split; [reflexivity|]. simpl in H. lia.
  - exists jp; split; [reflexivity|].
    apply Pos2Z.inj. now rewrite iter_xO_value.
Qed.

Lemma shifted_digits (s q : positive) (j : Z) :
  0 <= j -> Z.pos s = Z.pos q * 2 ^ j ->
  Z.pos (digits2_pos s) = Z.pos (digits2_pos q) + j.
Proof.
  intros Hj H. destruct (shifted s q j Hj H) as [[-> ->]|(jp & -> & ->)]; [lia|].
  rewrite iter_xO_digits. lia.
Qed.

Lemma iter_pos_swap {A} (f : A -> A) (n : positive) (x : A) :
  iter_pos f n (f x) = f (iter_pos f n x).
Proof.
  revert x; induction n as [n IH|n IH|]; intros x; cbn [iter_pos];
    [now rewrite !IH|now rewrite !IH|reflexivity].
Qed.

Lemma iter_pos_iter {A} (f : A -> A) (n : positive) (x : A) :
  iter_pos f n x = Pos.iter f x n.
Proof.
  revert x; induction n as [n IH|n IH|]; intros x; cbn [iter_pos Pos.iter];
    [|now rewrite !IH|reflexivity].
  now rewrite iter_pos_swap, iter_pos_swap, !IH.
Qed.

(** Zero bits shifted out leave no trace in the record. *)
Lemma shr_zero_bits (q jp : positive) :
  iter_pos shr_1 jp {| shr_m := Z.pos (Pos.iter xO q jp); shr_r := false; shr_s := false |}
  = {| shr_m := Z.pos q; shr_r := false; shr_s := false |}.
Proof.
  rewrite iter_pos_iter.
  induction jp using Pos.peano_ind.
  - reflexivity.
  - rewrite Pos.iter_succ_r, Pos.iter_succ. cbn [shr_1 orb]. exact IHjp.
Qed.

(** A mantissa of 53 bits in the range of the exponents is left as it is. *)
Lemma binary_round_aux_exact (sx : bool) (m : positive) (e : Z) :
  Z.pos (digits2_pos m) = 53 -> -1074 <= e <= 971 ->
  binary_round_aux prec emax sx (Z.pos m) e loc_Exact = S754_finite sx m e.
Proof.
  intros Hd He. unfold binary_round_aux, shr_fexp.
  cbn [Zdigits2 shr_record_of_loc]. rewrite Hd.
  assert (F : fexp prec emax (53 + e) - e = 0).
  { unfold fexp, SpecFloat.emin, prec, emax. lia. }
  rewrite F. cbn [shr shr_m loc_of_shr_record round_nearest_even Zdigits2].
  rewrite Hd, F. cbn [shr shr_m].
  assert (L : (e <=? emax - prec) = true) by (apply Z.leb_le; unfold emax, prec; lia).
  now rewrite L.
Qed.

(** Zero bits below a mantissa of 53 bits are dropped. *)
Lemma binary_round_aux_zero_bits (sx : bool) (s q : positive) (e j : Z) :
  Z.pos (digits2_pos q) = 53 -> 0 <= j -> Z.pos s = Z.pos q * 2 ^ j ->
  -1074 <= e + j <= 971 ->
  binary_round_aux prec emax sx (Z.pos s) e loc_Exact = S754_finite sx q (e + j).
Proof.
  intros Hd Hj Hs He.
  destruct (shifted s q j Hj Hs) as [[-> ->]|(jp & -> & ->)].
  - rewrite Z.add_0_r in *. now apply binary_round_aux_exact.
  - unfold binary_round_aux, shr_fexp.
    cbn [Zdigits2 shr_record_of_loc]. rewrite iter_xO_digits, Pos2Z.inj_add, Hd.
    assert (F : fexp prec emax (53 + Z.pos jp + e) - e = Z.pos jp).
    { unfold fexp, SpecFloat.emin, prec, emax. lia. }
    rewrite F. cbn [shr]. rewrite shr_zero_bits.
    cbn [shr_m loc_of_shr_record round_nearest_even Zdigits2].
    rewrite Hd.
    assert (F' : fexp prec emax (53 + (e + Z.pos jp)) - (e + Z.pos jp) = 0).
    { unfold fexp, SpecFloat.emin, prec, emax. lia. }
    rewrite F'. cbn [shr shr_m].
    assert (L : (e + Z.pos jp <=? emax - prec) = true)
      by (apply Z.leb_le; unfold emax, prec; lia).
    now rewrite L.
Qed.

(** [binary_round] on a mantissa that is too long by zero bits only. *)
Lemma binary_round_shift_right (sx : bool) (s q : positive) (e j : Z) :
  Z.pos (digits2_pos q) = 53 -> 0 <= j -> Z.pos s = Z.pos q * 2 ^ j ->
  -1074 <= e + j <= 971 ->
  binary_round prec emax sx s e = S754_finite sx q (e + j).
Proof.
  intros Hd Hj Hs He.
  pose proof (shifted_digits s q j Hj Hs) as Ds.
  unfold binary_round, shl_align.
  assert (F : fexp prec emax (Z.pos (digits2_pos s) + e) - e = j).
  { unfold fexp, SpecFloat.emin, prec, emax. lia. }
  rewrite F.
  destruct j as [|jp|jp]; [| |lia];
    now apply binary_round_aux_zero_bits.
Qed.

(** [binary_round] on a mantissa that is too short. *)
Lemma binary_round_shift_left (sx : bool) (s q : positive) (e j : Z) :
  Z.pos (digits2_pos q) = 53 -> 0 <= j -> Z.pos q = Z.pos s * 2 ^ j ->
  -1074 <= e - j <= 971 ->
  binary_round prec emax sx s e = S754_finite sx q (e - j).
Proof.
  intros Hd Hj Hq He.
  pose proof (shifted_digits q s j Hj Hq) as Ds.
  unfold binary_round, shl_align.
  assert (F : fexp prec emax (Z.pos (digits2_pos s) + e) = e - j).
  { unfold fexp, SpecFloat.emin, prec, emax. lia. }
  rewrite F.
  destruct (shifted q s j Hj Hq) as [[-> ->]|(jp & -> & ->)].
  - replace (e - 0 - e) with 0 by lia. rewrite Z.sub_0_r in *.
    now apply binary_round_aux_exact.
  - replace (e - Z.pos jp - e) with (Z.neg jp) by lia.
    now apply binary_round_aux_exact.
Qed.

(** Every positive number below [2 ^ 53] has a mantissa of 53 bits. *)
Lemma normal_mantissa (p : positive) :
  Z.pos p < 2 ^ 53 ->
  exists q, Z.pos (digits2_pos q) = 53 /\
            Z.pos q = Z.pos p * 2 ^ (53 - Z.pos (digits2_pos p)).
Proof.
  intros H. pose proof (digits2_bound p H) as Hd.
  destruct (53 - Z.pos (digits2_pos p)) as [|k|k] eqn:E; [| |lia].
  - exists p; split; [lia|simpl; lia].
  - exists (Pos.iter xO p k); split.
    + rewrite iter_xO_digits. lia.
    + apply iter_xO_value.
Qed.

(** A whole number below [2 ^ 53] with zero bits after it is rounded to
    itself. *)
Lemma binary_round_whole (s : positive) (k n : Z) :
  0 <= k <= 52 -> 0 < n < 2 ^ 53 -> Z.pos s = n * 2 ^ k ->
  exact_float (binary_round prec emax false s (- k)) n.
Proof.
  intros Hk Hn Hs. right.
  destruct n as [|p|p]; try lia.
  destruct (normal_mantissa p (proj2 Hn)) as (q & Hd & Hq).
  pose proof (digits2_bound p (proj2 Hn)) as Hb.
  set (d := Z.pos (digits2_pos p)) in *.
  assert (Hd1 : 1 <= d) by (unfold d; lia).
  exists q, (d - 53). 
  assert (V : Z.pos q = Z.pos p * 2 ^ (- (d - 53))).
  { rewrite Hq. f_equal. f_equal. lia. }
  destruct (Z_le_gt_dec k (53 - d)) as [L|G].
  - rewrite (binary_round_shift_left false s q (- k) (53 - d - k)); try lia.
    + split; [f_equal; lia|]. split; [assumption|]. split; [lia|assumption].
    + rewrite Hq, Hs, <- Z.mul_assoc, <- Z.pow_add_r by lia.
      f_equal. f_equal. lia.
  - rewrite (binary_round_shift_right false s q (- k) (k - (53 - d))); try lia.
    + split; [f_equal; lia|]. split; [assumption|]. split; [lia|assumption].
    + rewrite Hq, Hs, <- Z.mul_assoc, <- Z.pow_add_r by lia.
      f_equal. f_equal. lia.
Qed.

Lemma decimal_to_float_whole (n : N) :
  (n < 2 ^ 53)%N -> exact_float (decimal_to_float false n 0) (Z.of_N n).
Proof.
  intros H. destruct n as [|p]; [left; split; reflexivity|].
  unfold decimal_to_float. cbn [Z.leb Z.compare Z.pow Z.to_pos].
  rewrite Pos.mul_1_r.
  apply (binary_round_whole p 0 (Z.pos p)); [lia| |simpl; lia].
  split; [lia|]. change (2 ^ 53) with (Z.of_N (2 ^ 53)). lia.
Qed.

(** ** Sums and halves of whole numbers *)

Lemma shl_align_value (m : positive) (e e' : Z) :
  e' <= e -> Z.pos (fst (shl_align m e e')) = Z.pos m * 2 ^ (e - e').
Proof.
  intros H. unfold shl_align.
  destruct (e' - e) as [|d|d] eqn:E; cbn [fst]; [| lia |].
  - replace (e - e') with 0 by lia. simpl; lia.
  - rewrite iter_xO_value. f_equal. f_equal. lia.
Qed.

Lemma exact_float_nonneg (f : float) (n : Z) : exact_float f n -> 0 <= n.
Proof.
  intros [[-> _]|(m & e & _ & _ & He & Hm)]; [lia|].
  assert (0 < 2 ^ (- e)) by (apply Z.pow_pos_nonneg; lia). nia.
Qed.

Lemma float_add_exact (x y : float) (a b : Z) :
  exact_float x a -> exact_float y b -> a + b < 2 ^ 53 ->
  exact_float (float_add x y) (a + b).
Proof.
  intros Hx Hy Hab.
  pose proof (exact_float_nonneg x a Hx) as Ha.
  pose proof (exact_float_nonneg y b Hy) as Hb.
  destruct Hx as [[-> ->]|(m1 & e1 & -> & D1 & E1 & M1)];
    destruct Hy as [[-> ->]|(m2 & e2 & -> & D2 & E2 & M2)].
  - left; split; reflexivity.
  - right; exists m2, e2. now rewrite Z.add_0_l.
  - right; exists m1, e1. now rewrite Z.add_0_r.
  - unfold float_add, SFadd. cbn [cond_Zopp].
    set (ez := Z.min e1 e2).
    rewrite <- Pos2Z.inj_add.
    cbn [binary_normalize].
    assert (P1 : 0 < 2 ^ (- e1)) by (apply Z.pow_pos_nonneg; lia).
    assert (P2 : 0 < 2 ^ (- e2)) by (apply Z.pow_pos_nonneg; lia).
    replace ez with (- (- ez)) at 3 by lia.
    apply binary_round_whole; [unfold ez; lia|nia|].
    rewrite Pos2Z.inj_add, !shl_align_value by (unfold ez; lia).
    rewrite M1, M2, <- !Z.mul_assoc, <- !Z.pow_add_r by (unfold ez; lia).
    replace (- e1 + (e1 - ez)) with (- ez) by lia.
    replace (- e2 + (e2 - ez)) with (- ez) by lia.
    lia.
Qed.

Lemma div_eucl_exact (a b : Z) : 0 < b -> Z.div_eucl (a * b) b = (a, 0).
Proof.
  intros H. pose proof (Z.div_eucl_eq (a * b) b ltac:(lia)) as E.
  pose proof (Z.mod_pos_bound (a * b) b H) as B.
  unfold Z.modulo, Z.div in *.
  pose proof (Z.div_mul a b ltac:(lia)) as Dv.
  pose proof (Z.mod_mul a b ltac:(lia)) as Md.
  unfold Z.modulo, Z.div in *.
  destruct (Z.div_eucl (a * b) b) as [q r]. now subst.
Qed.

(** Halving a float in normal form lowers its exponent by one. *)
Lemma halve_normal (m : positive) (e : Z) :
  Z.pos (digits2_pos m) = 53 -> -52 <= e <= 0 ->
  SFdiv prec emax (S754_finite false m e) (float_of_Z 2)
  = S754_finite false m (e - 1).
Proof.
  intros Hd He.
  change (float_of_Z 2) with (S754_finite false 4503599627370496 (-51)).
  unfold SFdiv, SFdiv_core_binary. cbn [Zdigits2 xorb]. rewrite Hd.
  change (Z.pos (digits2_pos 4503599627370496)) with 53.
  assert (F : Z.min (fexp prec emax (53 + e - (53 + -51))) (e - -51) = e - 2).
  { unfold fexp, SpecFloat.emin, prec, emax. lia. }
  rewrite F. replace (e - -51 - (e - 2)) with 53 by lia.
  rewrite Z.shiftl_mul_pow2 by lia.
  replace (Z.pos m * 2 ^ 53) with (Z.pos m~0 * 4503599627370496)
    by (change (2 ^ 53) with (2 * 4503599627370496); lia).
  rewrite div_eucl_exact by lia.
  change (new_location 4503599627370496 0) with loc_Exact.
  replace (e - 1) with (e - 2 + 1) by lia.
  apply binary_round_aux_zero_bits; [assumption|lia| |lia].
  change (2 ^ 1) with 2. lia.
Qed.

Lemma float_halve (x : float) (n : Z) :
  exact_float x n ->
  exists h, float_truediv x (float_of_Z 2) = Ok h /\ nonneg h = true /\
            (float_value h == n # 2)%Q.
Proof.
  intros [[-> ->]|(m & e & -> & D & E & M)].
  - exists (S754_zero false). repeat split.
  - exists (S754_finite false m (e - 1)). split; [|split; [reflexivity|]].
    + unfold float_truediv.
      change (is_zero (float_of_Z 2)) with false. cbn iota.
      now rewrite halve_normal.
    + cbn [float_value]. 
      assert (L : (0 <=? e - 1) = false) by (apply Z.leb_gt; lia).
      rewrite L. cbn [cond_opp].
      assert (P : 0 < 2 ^ (- e)) by (apply Z.pow_pos_nonneg; lia).
      unfold Qeq; cbn [Qnum Qden].
      rewrite Z2Pos.id by (apply Z.pow_pos_nonneg; lia).
      replace (- (e - 1)) with (Z.succ (- e)) by lia.
      rewrite Z.pow_succ_r by lia. lia.
Qed.

(** ** [round] and [int] against the written number *)

Lemma round_half_even_comp (q1 q2 : Q) :
  (q1 == q2)%Q -> round_half_even q1 = round_half_even q2.
Proof.
  intros H. unfold round_half_even.
  rewrite (Qfloor_comp q1 q2 H).
  assert (E : (q1 - inject_Z (Qfloor q2) == q2 - inject_Z (Qfloor q2))%Q)
    by now rewrite H.
  now rewrite (Qcompare_comp _ _ E (1 # 2)%Q (1 # 2)%Q (Qeq_refl _)).
Qed.

Lemma round_half_even_whole (z : Z) : round_half_even (inject_Z z) = z.
Proof.
  unfold round_half_even. rewrite Qfloor_Z.
  assert (E : (inject_Z z - inject_Z z ?= 1 # 2)%Q = Lt).
  { unfold Qcompare, Qminus, Qplus, Qopp, inject_Z; cbn [Qnum Qden].
    apply Z.compare_lt_iff. lia. }
  now rewrite E.
Qed.

(** [round] of a float that is not negative is its value rounded half to
    even. *)
Lemma float_round_half_even (f : float) (z : Z) :
  nonneg f = true -> float_round f = Ok z ->
  z = round_half_even (float_value f).
Proof.
  destruct f as [s|s| |s m e]; cbn [float_round float_value nonneg];
    try discriminate; intros Hs H; apply Ok_inj in H; subst z; [reflexivity|].
  apply negb_true_iff in Hs; subst s; cbn [cond_opp].
  destruct (0 <=? e) eqn:He.
  - now rewrite round_half_even_whole.
  - apply Z.leb_gt in He.
    assert (Hd : 0 < 2 ^ (- e)) by (apply Z.pow_pos_nonneg; lia).
    unfold round_half_even.
    set (d := 2 ^ (- e)) in *.
    assert (Fl : Qfloor (Z.pos m # Z.to_pos d) = Z.pos m / d).
    { unfold Qfloor. now rewrite Z2Pos.id by assumption. }
    rewrite Fl.
    assert (C : ((Z.pos m # Z.to_pos d) - inject_Z (Z.pos m / d) ?= 1 # 2)%Q
                = (2 * (Z.pos m mod d) ?= d)).
    { unfold Qcompare, Qminus, Qplus, Qopp, inject_Z; cbn [Qnum Qden].
      rewrite Pos.mul_1_r, Z2Pos.id by assumption.
      rewrite (Z.mod_eq (Z.pos m) d) by lia.
      f_equal; lia. }
    rewrite C. reflexivity.
Qed.

Lemma Qtrunc_floor (q : Q) : 0 <= Qnum q -> Qtrunc q = Qfloor q.
Proof.
  intros H. destruct q as [n d]; unfold Qtrunc, Qfloor; cbn [Qnum Qden] in *.
  apply Z.quot_div_nonneg; lia.
Qed.

Lemma Qtrunc_comp (q1 q2 : Q) :
  0 <= Qnum q1 -> (q1 == q2)%Q -> Qtrunc q1 = Qtrunc q2.
Proof.
  intros H E.
  assert (H2 : 0 <= Qnum q2).
  { unfold Qeq in E. destruct q1 as [n1 d1], q2 as [n2 d2]; cbn [Qnum Qden] in *. nia. }
  rewrite !Qtrunc_floor by assumption. now apply Qfloor_comp.
Qed.

(** A float that is a whole number is rounded and truncated to it. *)
Lemma exact_float_conversions (f : float) (n : Z) :
  exact_float f n ->
  float_round f = Ok n /\ float_int f = Ok n /\ nonneg f = true /\
  is_finite f = true /\ (float_value f == inject_Z n)%Q.
Proof.
  intros [[-> ->]|(m & e & -> & D & E & M)]; [repeat split|].
  assert (P : 0 < 2 ^ (- e)) by (apply Z.pow_pos_nonneg; lia).
  cbn [float_round float_int nonneg is_finite float_value cond_opp negb].
  destruct (0 <=? e) eqn:He.
  - apply Z.leb_le in He. assert (e = 0) by lia; subst e.
    change (2 ^ (- 0)) with 1 in M. change (2 ^ 0) with 1.
    rewrite Z.mul_1_r in *. rewrite M. repeat split.
  - rewrite M, Z.div_mul, Z.mod_mul by lia.
    assert (C : (2 * 0 ?= 2 ^ (- e)) = Lt) by (apply Z.compare_lt_iff; lia).
    rewrite C. repeat split.
    unfold Qeq, inject_Z; cbn [Qnum Qden]. rewrite Z2Pos.id by assumption. lia.
Qed.

End PyFacts.
(* ================================================================== *)
(** * Facts about preprocessing.py                                      *)
(* ================================================================== *)

Module PreprocessingFacts.
Import Py Preprocessing PyFacts.
Local Open Scope py_scope.

Lemma findall_number_tokens (s t : str) :
  In t (findall_number s) -> number_token t.
Proof. apply findall_from_tokens. Qed.

Lemma mapM_float_tokens (nums : list str) :
  (forall t, In t nums -> number_token t) ->
  exists fs, mapM float_of_str nums = Ok fs /\ forallb nonneg fs = true.
Proof.
  induction nums as [|t nums IH]; intros H; simpl.
  - exists []; auto.
  - destruct (float_of_str_token t (H t (or_introl eq_refl))) as (f & -> & Hf).
    destruct IH as (fs & -> & Hfs); [intros; apply H; now right|].
    exists (f :: fs); simpl; now rewrite Hf, Hfs.
Qed.

(** The price sections never raise before [int]. *)
Lemma first_price_spec (record : dict) (key : str) :
  match findall_number (safe_get_str record key) with
  | [] => first_price record key = Ok None
  | t :: _ =>
      exists f, float_of_str t = Ok f /\ nonneg f = true /\
                first_price record key = Ok (Some f)
  end.
Proof.
  unfold first_price, extract_number; cbn [bind].
  destruct (findall_number (safe_get_str record key)) as [|t ts] eqn:E;
    [reflexivity|].
  destruct (float_of_str_token t) as (f & Hf & Hn).
  { apply (findall_number_tokens (safe_get_str record key)); rewrite E; now left. }
  exists f; rewrite Hf; auto.
Qed.

Lemma two_is_finite : int_to_float 2 = Ok (S754_finite false 4503599627370496 (-51)).
Proof. reflexivity. Qed.

(** The area section never raises before [round]. *)
Lemma avg_area_spec (record : dict) :
  match findall_number (safe_get_str record u"area") with
  | [] => avg_area record = Ok None
  | [t] =>
      exists f, float_of_str t = Ok f /\ nonneg f = true /\
                avg_area record = Ok (Some f)
  | t0 :: t1 :: _ =>
      exists lower upper two mid,
        float_of_str t0 = Ok lower /\ float_of_str t1 = Ok upper /\
        int_to_float 2 = Ok two /\
        float_truediv (float_add lower upper) two = Ok mid /\
        nonneg mid = true /\ avg_area record = Ok (Some mid)
  end.
Proof.
  unfold avg_area, extract_number; cbn [bind].
  destruct (findall_number (safe_get_str record u"area")) as [|t0 [|t1 ts]] eqn:E;
    [reflexivity| |].
  - destruct (float_of_str_token t0) as (f & Hf & Hn).
    { apply (findall_number_tokens (safe_get_str record u"area")); rewrite E; now left. }
    exists f; rewrite Hf; auto.
  - destruct (float_of_str_token t0) as (lo & Hlo & Hnlo).
    { apply (findall_number_tokens (safe_get_str record u"area")); rewrite E; now left. }
    destruct (float_of_str_token t1) as (hi & Hhi & Hnhi).
    { apply (findall_number_tokens (safe_get_str record u"area")); rewrite E;
        right; now left. }
    rewrite Hlo, Hhi, two_is_finite; cbn [bind].
    eexists lo, hi, _, _; repeat split; try reflexivity.
    apply SFdiv_nonneg; try reflexivity.
    now apply float_add_nonneg.
Qed.

Lemma collect_room_numbers_nonneg (rooms : list value) :
  forall acc fs,
    forallb nonneg acc = true ->
    collect_room_numbers rooms acc = Ok fs -> forallb nonneg fs = true.
Proof.
  induction rooms as [|room rooms IH]; simpl; intros acc fs Hacc H.
  - now inversion H; subst.
  - destruct room as [| | | |s| |]; eauto.
    simpl in H.
    destruct (findall_number s) as [|t ts] eqn:E; [eauto|].
    destruct (mapM_float_tokens (t :: ts)) as (gs & Hgs & Hn).
    { intros x Hx; apply (findall_number_tokens s); now rewrite E. }
    rewrite Hgs in H; simpl in H.
    apply (IH _ _ (eq_trans (forallb_app _ _ _) (f_equal2 andb Hacc Hn)) H).
Qed.

Lemma avg_room_nonneg (record : dict) (f : float) :
  avg_room record = Ok (Some f) -> nonneg f = true.
Proof.
  unfold avg_room.
  destruct (collect_room_numbers _ []) as [fs|] eqn:E; [|discriminate].
  apply collect_room_numbers_nonneg in E; [|reflexivity].
  cbn [bind]. destruct fs as [|g fs]; [discriminate|].
  destruct (int_to_float _) as [n|] eqn:En; [|discriminate].
  apply int_to_float_nonneg in En; [|lia]. destruct En as [Hn Hfin].
  cbn [bind].
  destruct (float_truediv _ n) as [q|] eqn:Eq; [|discriminate].
  intros H; inversion H; subst.
  apply (float_truediv_nonneg (float_sum (g :: fs)) n); auto.
  now apply float_sum_nonneg.
Qed.

Lemma location_step (processed : dict) (field : str) (locations : list value) (i : nat) :
  match nth_error locations i with
  | Some (VStr s) => dict_set processed field (VStr (strip s))
  | _ => dict_set processed field (VStr [])
  end = dict_set processed field (location_value locations i).
Proof.
  unfold location_value.
  destruct (nth_error locations i) as [[]|]; reflexivity.
Qed.

(** [process_record] with the dict written out. *)
Lemma process_record_unfold (record : dict) :
  process_record record =
  (room <- avg_room record ;;
   v_room <- stored float_round room ;;
   area <- avg_area record ;;
   v_area <- stored float_round area ;;
   total <- first_price record u"total_price" ;;
   v_total <- stored float_int total ;;
   unit <- first_price record u"unit_price" ;;
   v_unit <- stored float_int unit ;;
   let locations := as_list (dict_get record u"location" (VList [])) in
   Ok [(u"楼盘名称", VStr (safe_get_str record u"name"));
       (u"类型", VStr (safe_get_str record u"type"));
       (u"行政区", location_value locations 0);
       (u"街道", location_value locations 1);
       (u"具体位置", location_value locations 2);
       (u"房型", v_room); (u"面积", v_area);
       (u"总价", v_total); (u"均价", v_unit)]).
Proof.
  unfold process_record.
  cbn [fold_left enumerate location_fields combine seq List.length].
  rewrite !location_step.
  destruct (avg_room record) as [room|]; [|reflexivity]; cbn [bind].
  destruct (stored float_round room) as [v1|]; [|reflexivity]; cbn [bind].
  destruct (avg_area record) as [area|]; [|reflexivity]; cbn [bind].
  destruct (stored float_round area) as [v2|]; [|reflexivity]; cbn [bind].
  destruct (first_price record _) as [total|]; [|reflexivity]; cbn [bind].
  destruct (stored float_int total) as [v3|]; [|reflexivity]; cbn [bind].
  destruct (first_price record _) as [unit|]; [|reflexivity]; cbn [bind].
  destruct (stored float_int unit) as [v4|]; reflexivity.
Qed.

Lemma bind_ok {A B} (m : exc A) (k : A -> exc B) (b : B) :
  bind m k = Ok b -> exists a, m = Ok a /\ k a = Ok b.
Proof. destruct m as [a|e]; simpl; [eauto|discriminate]. Qed.

Lemma stored_spec (conv : float -> exc Z) (o : option float) (v : value) :
  stored conv o = Ok v ->
  o = None /\ v = VStr [] \/
  exists f z, o = Some f /\ conv f = Ok z /\ v = VInt z.
Proof.
  destruct o as [f|]; simpl.
  - destruct (conv f) as [z|] eqn:E; simpl; [|discriminate].
    intros H; apply Ok_inj in H; subst; right; eauto.
  - intros H; apply Ok_inj in H; subst; now left.
Qed.

Lemma location_value_text (locations : list value) (i : nat) :
  text_field (location_value locations i).
Proof.
  unfold location_value, text_field.
  destruct (nth_error locations i) as [[]|]; eauto.
Qed.

(** The steps of a call that returns. *)
Lemma process_record_inv (record row : dict) :
  process_record record = Ok row ->
  exists room area total unit v_room v_area v_total v_unit,
    avg_room record = Ok room /\ stored float_round room = Ok v_room /\
    avg_area record = Ok area /\ stored float_round area = Ok v_area /\
    first_price record u"total_price" = Ok total /\
    stored float_int total = Ok v_total /\
    first_price record u"unit_price" = Ok unit /\
    stored float_int unit = Ok v_unit /\
    row = [(u"楼盘名称", VStr (safe_get_str record u"name"));
           (u"类型", VStr (safe_get_str record u"type"));
           (u"行政区", location_value (as_list (dict_get record u"location" (VList []))) 0);
           (u"街道", location_value (as_list (dict_get record u"location" (VList []))) 1);
           (u"具体位置", location_value (as_list (dict_get record u"location" (VList []))) 2);
           (u"房型", v_room); (u"面积", v_area);
           (u"总价", v_total); (u"均价", v_unit)].
Proof.
  rewrite process_record_unfold; intros H.
  apply bind_ok in H; destruct H as (room & H1 & H).
  apply bind_ok in H; destruct H as (v1 & H2 & H).
  apply bind_ok in H; destruct H as (area & H3 & H).
  apply bind_ok in H; destruct H as (v2 & H4 & H).
  apply bind_ok in H; destruct H as (total & H5 & H).
  apply bind_ok in H; destruct H as (v3 & H6 & H).
  apply bind_ok in H; destruct H as (unit & H7 & H).
  apply bind_ok in H; destruct H as (v4 & H8 & H).
  apply Ok_inj in H; subst row.
  exists room, area, total, unit, v1, v2, v3, v4; repeat split; assumption.
Qed.

Lemma yields_finite_stored (conv : float -> exc Z) (x : exc (option float)) :
  (forall f, is_finite f = true -> exists z, conv f = Ok z) ->
  yields_finite x = true ->
  exists o v, x = Ok o /\ stored conv o = Ok v /\ number_field v.
Proof.
  intros Hconv; destruct x as [[f|]|e]; simpl; intros H; try discriminate.
  - destruct (Hconv f H) as (z & Hz).
    exists (Some f), (VInt z); simpl; rewrite Hz; repeat split.
    right; eauto.
  - exists None, (VStr []); repeat split. now left.
Qed.


(** A call returns when the conversions are finite, and then the row is
    complete. *)
Lemma process_record_returns (record : dict) :
  conversions_finite record = true ->
  exists row, process_record record = Ok row /\ normalized_row row.
Proof.
  unfold conversions_finite; intros H.
  apply andb_prop in H; destruct H as [H H4].
  apply andb_prop in H; destruct H as [H H3].
  apply andb_prop in H; destruct H as [H1 H2].
  apply (yields_finite_stored float_round _ float_round_total) in H1, H2.
  apply (yields_finite_stored float_int _ float_int_total) in H3, H4.
  destruct H1 as (room & v1 & E1 & S1 & N1).
  destruct H2 as (area & v2 & E2 & S2 & N2).
  destruct H3 as (total & v3 & E3 & S3 & N3).
  destruct H4 as (unit & v4 & E4 & S4 & N4).
  rewrite process_record_unfold, E1, E2, E3, E4; cbn [bind].
  rewrite S1, S2, S3, S4; cbn [bind].
  eexists; split; [reflexivity|].
  unfold normalized_row; do 9 eexists; split; [reflexivity|].
  repeat split; auto using location_value_text; unfold text_field; eauto.
Qed.

Lemma row_lookups (name type district street detail room area total unit : value) :
  let row := [(u"楼盘名称", name); (u"类型", type); (u"行政区", district);
              (u"街道", street); (u"具体位置", detail); (u"房型", room);
              (u"面积", area); (u"总价", total); (u"均价", unit)] in
  dict_lookup row u"房型" = Some room /\ dict_lookup row u"面积" = Some area /\
  dict_lookup row u"总价" = Some total /\ dict_lookup row u"均价" = Some unit.
Proof. repeat split; reflexivity. Qed.

Lemma avg_area_nonneg (record : dict) (f : float) :
  avg_area record = Ok (Some f) -> nonneg f = true.
Proof.
  intros H; pose proof (avg_area_spec record) as S.
  destruct (findall_number _) as [|t0 [|t1 ts]].
  - congruence.
  - destruct S as (g & _ & Hg & E); congruence.
  - destruct S as (lo & hi & two & mid & _ & _ & _ & _ & Hm & E); congruence.
Qed.

Lemma first_price_nonneg (record : dict) (key : str) (f : float) :
  first_price record key = Ok (Some f) -> nonneg f = true.
Proof.
  intros H; pose proof (first_price_spec record key) as S.
  destruct (findall_number _) as [|t ts].
  - congruence.
  - destruct S as (g & _ & Hg & E); congruence.
Qed.

Lemma stored_nonneg (conv : float -> exc Z) (o : option float) (v : value) :
  (forall f z, nonneg f = true -> conv f = Ok z -> 0 <= z) ->
  (forall f, o = Some f -> nonneg f = true) ->
  stored conv o = Ok v -> nonneg_field v.
Proof.
  intros Hconv Ho H; apply stored_spec in H.
  destruct H as [[-> ->]|(f & z & -> & Hz & ->)]; [now left|].
  right; exists z; split; [reflexivity|]. eapply Hconv; eauto.
Qed.

Lemma area_rule_holds (record row : dict) :
  process_record record = Ok row -> area_rule record row.
Proof.
  intros H; apply process_record_inv in H.
  destruct H as (room & area & total & unit & v1 & v2 & v3 & v4 &
                 _ & _ & E & S & _ & _ & _ & _ & ->).
  destruct (row_lookups (VStr (safe_get_str record u"name"))
              (VStr (safe_get_str record u"type"))
              (location_value (as_list (dict_get record u"location" (VList []))) 0)
              (location_value (as_list (dict_get record u"location" (VList []))) 1)
              (location_value (as_list (dict_get record u"location" (VList []))) 2)
              v1 v2 v3 v4) as (_ & L & _).
  unfold area_rule; rewrite L; clear L.
  pose proof (avg_area_spec record) as A.
  apply stored_spec in S.
  destruct (findall_number _) as [|t0 [|t1 ts]].
  - rewrite A in E; apply Ok_inj in E; subst area.
    destruct S as [[_ ->]|(f & z & Hf & _)]; [reflexivity|discriminate].
  - destruct A as (f & Hf & Hn & A).
    rewrite A in E; apply Ok_inj in E; subst area.
    destruct S as [[Hf' _]|(g & z & Hg & Hz & ->)]; [discriminate|].
    injection Hg as <-.
    exists f, z; repeat split;
      auto using float_round_nearest, float_round_half_even.
  - destruct A as (lo & hi & two & mid & Hlo & Hhi & Htwo & Hmid & Hn & A).
    rewrite A in E; apply Ok_inj in E; subst area.
    destruct S as [[Hf' _]|(g & z & Hg & Hz & ->)]; [discriminate|].
    injection Hg as <-.
    rewrite two_is_finite in Htwo; apply Ok_inj in Htwo; subst two.
    exists lo, hi, mid, z; repeat split;
      auto using float_round_nearest, float_round_half_even.
Qed.

Lemma price_rule_holds (record row : dict) (key field : str) (total : option float)
    (v : value) :
  first_price record key = Ok total -> stored float_int total = Ok v ->
  dict_lookup row field = Some v -> price_rule record row key field.
Proof.
  intros E S L; unfold price_rule; rewrite L.
  pose proof (first_price_spec record key) as A.
  apply stored_spec in S.
  destruct (findall_number _) as [|t ts].
  - rewrite A in E; apply Ok_inj in E; subst total.
    destruct S as [[_ ->]|(f & z & Hf & _)]; [reflexivity|discriminate].
  - destruct A as (f & Hf & _ & A).
    rewrite A in E; apply Ok_inj in E; subst total.
    destruct S as [[Hf' _]|(g & z & Hg & Hz & ->)]; [discriminate|].
    injection Hg as <-.
    exists f; repeat split; [assumption|eapply float_int_finite; eauto|].
    now rewrite (float_int_trunc f z Hz).
Qed.

Lemma number_token_chars (t : str) :
  number_token t ->
  (exists c rest, t = c :: rest /\ is_digit c = true) /\
  (forall c, In c t -> is_digit c = true \/ c = dot).
Proof.
  intros (ds1 & pt & ds2 & -> & Hne & H1 & H2 & Hpt); split.
  - destruct ds1 as [|c ds1]; [contradiction|].
    simpl in H1; apply andb_prop in H1; destruct H1 as [Hc _].
    exists c, (ds1 ++ pt ++ ds2); auto.
  - intros c Hc. rewrite forallb_forall in H1, H2.
    apply in_app_or in Hc; destruct Hc as [Hc|Hc]; [left; auto|].
    apply in_app_or in Hc; destruct Hc as [Hc|Hc]; [|left; auto].
    destruct Hpt as [->|[-> _]]; [|contradiction].
    destruct Hc as [<-|[]]; now right.
Qed.

(** ** The value of a match *)

Lemma whole_value_from (t : str) (acc : N) :
  Z.of_N (fold_left (fun a d => 10 * a + d)%N (digit_values t) acc)
  = fold_left (fun a c => 10 * a + digit_number c) t (Z.of_N acc).
Proof.
  revert acc; induction t as [|c t IH]; intros acc; [reflexivity|].
  cbn [digit_values map fold_left]. fold (digit_values t). rewrite IH. f_equal.
  unfold digit_number. destruct (to_decimal c); lia.
Qed.

Lemma whole_value_digits (t : str) :
  Z.of_N (digits_value (digit_values t)) = whole_value t.
Proof. apply (whole_value_from t 0). Qed.

Lemma split_at_dot_whole (t : str) :
  forallb is_digit t = true -> split_at_dot t = (t, []).
Proof.
  induction t as [|c t IH]; [reflexivity|].
  cbn [forallb split_at_dot]; intros H; apply andb_prop in H; destruct H as [Hc Ht].
  destruct (N.eqb_spec c dot) as [->|_]; [vm_compute in Hc; discriminate|].
  now rewrite (IH Ht).
Qed.

Lemma whole_token_digits (t : str) :
  whole_token t = true -> t <> [] /\ forallb is_digit t = true.
Proof. destruct t; [discriminate|]. intros H; split; [discriminate|exact H]. Qed.

Lemma token_value_whole (t : str) :
  whole_token t = true -> (token_value t == inject_Z (whole_value t))%Q.
Proof.
  intros H; apply whole_token_digits in H; destruct H as [_ H].
  unfold token_value. rewrite (split_at_dot_whole t H).
  change (whole_value [] # Z.to_pos (10 ^ Z.of_nat (List.length (@nil N))))%Q
    with (0 # 1)%Q.
  generalize (whole_value t); intros w.
  unfold Qeq, Qplus, inject_Z; cbn [Qnum Qden]. lia.
Qed.

(** [float] reads a whole number below [2 ^ 53] exactly. *)
Lemma float_of_str_whole (t : str) :
  whole_token t = true -> whole_value t < 2 ^ 53 ->
  exists f, float_of_str t = Ok f /\ exact_float f (whole_value t).
Proof.
  intros H B; apply whole_token_digits in H; destruct H as [Hne Hd].
  pose proof (float_of_str_value t [] [] Hne Hd eq_refl
                (or_intror (conj eq_refl eq_refl))) as E.
  rewrite !app_nil_r in E. cbn [List.length Z.of_nat Z.opp] in E.
  eexists; split; [exact E|].
  rewrite <- whole_value_digits in *.
  apply decimal_to_float_whole.
  change (2 ^ 53) with (Z.of_N (2 ^ 53)) in B. lia.
Qed.

Lemma whole_value_nonneg (t : str) : 0 <= whole_value t.
Proof. rewrite <- whole_value_digits. lia. Qed.

Lemma Qtrunc_whole (z : Z) : Qtrunc (inject_Z z) = z.
Proof. unfold Qtrunc, inject_Z; cbn [Qnum Qden]. apply Z.quot_1_r. Qed.

Lemma every_decimal_spec (i d : nat) (check : str -> bool) :
  every_decimal i d check = true ->
  forall ip fp, In ip (whole_tokens i) -> In fp (decimals d) ->
                check (ip ++ dot :: fp) = true.
Proof.
  unfold every_decimal; intros H ip fp Hi Hf.
  rewrite forallb_forall in H. specialize (H ip Hi).
  rewrite forallb_forall in H. exact (H fp Hf).
Qed.

(** ** The area and the prices of a row against the written numbers *)

Lemma area_of_whole_token (record row : dict) (t : str) :
  process_record record = Ok row ->
  findall_number (safe_get_str record u"area") = [t] ->
  whole_token t = true -> whole_value t < 2 ^ 53 ->
  dict_lookup row u"面积" = Some (VInt (round_half_even (token_value t))).
Proof.
  intros H Ht W B. pose proof (area_rule_holds record row H) as R.
  unfold area_rule in R. rewrite Ht in R.
  destruct R as (f & z & Ef & Er & _ & _ & L).
  destruct (float_of_str_whole t W B) as (f' & Ef' & X).
  rewrite Ef in Ef'; apply Ok_inj in Ef'; subst f'.
  destruct (exact_float_conversions f _ X) as (R1 & _).
  rewrite Er in R1; apply Ok_inj in R1; subst z.
  rewrite L, (round_half_even_comp _ _ (token_value_whole t W)).
  now rewrite round_half_even_whole.
Qed.

Lemma area_of_whole_tokens (record row : dict) (t0 t1 : str) (rest : list str) :
  process_record record = Ok row ->
  findall_number (safe_get_str record u"area") = t0 :: t1 :: rest ->
  whole_token t0 = true -> whole_token t1 = true ->
  whole_value t0 + whole_value t1 < 2 ^ 53 ->
  dict_lookup row u"面积"
  = Some (VInt (round_half_even ((token_value t0 + token_value t1) / 2)%Q)).
Proof.
  intros H Ht W0 W1 B. pose proof (area_rule_holds record row H) as R.
  unfold area_rule in R. rewrite Ht in R.
  destruct R as (lower & upper & mid & z & E0 & E1 & Em & Er & _ & _ & L).
  pose proof (whole_value_nonneg t0) as N0.
  pose proof (whole_value_nonneg t1) as N1.
  destruct (float_of_str_whole t0 W0 ltac:(lia)) as (f0 & E0' & X0).
  destruct (float_of_str_whole t1 W1 ltac:(lia)) as (f1 & E1' & X1).
  rewrite E0 in E0'; apply Ok_inj in E0'; subst f0.
  rewrite E1 in E1'; apply Ok_inj in E1'; subst f1.
  pose proof (float_add_exact lower upper _ _ X0 X1 B) as Xs.
  destruct (float_halve _ _ Xs) as (h & Eh & Nh & Vh).
  rewrite Em in Eh; apply Ok_inj in Eh; subst h.
  rewrite L. do 2 f_equal.
  rewrite (float_round_half_even mid z Nh Er).
  apply round_half_even_comp.
  rewrite Vh, (token_value_whole t0 W0), (token_value_whole t1 W1).
  unfold Qeq, Qdiv, Qmult, Qplus, Qinv, inject_Z; cbn [Qnum Qden]. lia.
Qed.

Lemma price_of_whole_token (record row : dict) (key field t : str)
      (rest : list str) :
  price_rule record row key field ->
  findall_number (safe_get_str record key) = t :: rest ->
  whole_token t = true -> whole_value t < 2 ^ 53 ->
  dict_lookup row field = Some (VInt (Qtrunc (token_value t))).
Proof.
  intros R Ht W B. unfold price_rule in R. rewrite Ht in R.
  destruct R as (f & Ef & _ & L).
  destruct (float_of_str_whole t W B) as (f' & Ef' & X).
  rewrite Ef in Ef'; apply Ok_inj in Ef'; subst f'.
  destruct (exact_float_conversions f _ X) as (_ & I1 & _).
  rewrite L, <- (float_int_trunc f _ I1).
  rewrite <- (Qtrunc_comp (inject_Z (whole_value t)) (token_value t)).
  - now rewrite Qtrunc_whole.
  - apply whole_value_nonneg.
  - symmetry; now apply token_value_whole.
Qed.

(** ** Short decimals, one by one *)

Lemma short_decimals_read : every_decimal 3 1 read_as_written = true.
Proof. vm_compute. reflexivity. Qed.

Lemma short_midpoints_read :
  every_decimal 1 1 (fun t0 => every_decimal 1 1 (midpoint_as_written t0)) = true.
Proof. vm_compute. reflexivity. Qed.

Lemma read_as_written_spec (t : str) :
  read_as_written t = true ->
  exists f, float_of_str t = Ok f /\
            float_round f = Ok (round_half_even (token_value t)) /\
            float_int f = Ok (Qtrunc (token_value t)).
Proof.
  unfold read_as_written.
  destruct (float_of_str t) as [f|]; [|discriminate].
  intros H; exists f; split; [reflexivity|].
  destruct (float_round f) as [r|]; [|discriminate].
  destruct (float_int f) as [z|]; [|discriminate].
  apply andb_prop in H; destruct H as [Hr Hz].
  apply Z.eqb_eq in Hr, Hz; subst r z. split; reflexivity.
Qed.

Lemma area_of_short_decimal (record row : dict) (ip fp : str) :
  process_record record = Ok row ->
  findall_number (safe_get_str record u"area") = [ip ++ dot :: fp] ->
  In ip (whole_tokens 3) -> In fp (decimals 1) ->
  dict_lookup row u"面积"
  = Some (VInt (round_half_even (token_value (ip ++ dot :: fp)))).
Proof.
  intros H Ht Hi Hf. pose proof (area_rule_holds record row H) as R.
  unfold area_rule in R. rewrite Ht in R.
  destruct R as (f & z & Ef & Er & _ & _ & L).
  pose proof (every_decimal_spec 3 1 _ short_decimals_read ip fp Hi Hf) as C.
  apply read_as_written_spec in C. destruct C as (f' & Ef' & Er' & _).
  rewrite Ef in Ef'; apply Ok_inj in Ef'; subst f'.
  rewrite Er in Er'; apply Ok_inj in Er'; subst z.
  exact L.
Qed.

Lemma area_of_short_decimals (record row : dict) (ip0 fp0 ip1 fp1 : str)
      (rest : list str) :
  process_record record = Ok row ->
  findall_number (safe_get_str record u"area")
  = (ip0 ++ dot :: fp0) :: (ip1 ++ dot :: fp1) :: rest ->
  In ip0 (whole_tokens 1) -> In fp0 (decimals 1) ->
  In ip1 (whole_tokens 1) -> In fp1 (decimals 1) ->
  dict_lookup row u"面积"
  = Some (VInt (round_half_even
                  ((token_value (ip0 ++ dot :: fp0)
                    + token_value (ip1 ++ dot :: fp1)) / 2)%Q)).
Proof.
  intros H Ht Hi0 Hf0 Hi1 Hf1. pose proof (area_rule_holds record row H) as R.
  unfold area_rule in R. rewrite Ht in R.
  destruct R as (lower & upper & mid & z & E0 & E1 & Em & Er & _ & _ & L).
  pose proof (every_decimal_spec 1 1 _ short_midpoints_read ip0 fp0 Hi0 Hf0) as C.
  cbv beta in C.
  pose proof (every_decimal_spec 1 1 _ C ip1 fp1 Hi1 Hf1) as C'.
  unfold midpoint_as_written in C'.
  rewrite E0, E1, Em, Er in C'. apply Z.eqb_eq in C'. subst z. exact L.
Qed.

Lemma price_of_short_decimal (record row : dict) (key field ip fp : str)
      (rest : list str) :
  price_rule record row key field ->
  findall_number (safe_get_str record key) = (ip ++ dot :: fp) :: rest ->
  In ip (whole_tokens 3) -> In fp (decimals 1) ->
  dict_lookup row field
  = Some (VInt (Qtrunc (token_value (ip ++ dot :: fp)))).
Proof.
  intros R Ht Hi Hf. unfold price_rule in R. rewrite Ht in R.
  destruct R as (f & Ef & _ & L).
  pose proof (every_decimal_spec 3 1 _ short_decimals_read ip fp Hi Hf) as C.
  apply read_as_written_spec in C. destruct C as (f' & Ef' & _ & Ei).
  rewrite Ef in Ef'; apply Ok_inj in Ef'; subst f'.
  now rewrite L, <- (float_int_trunc f _ Ei).
Qed.

Lemma prices_of_row (record row : dict) :
  process_record record = Ok row ->
  forall key field, In (key, field) price_columns ->
                    price_rule record row key field.
Proof.
  intros H; apply process_record_inv in H.
  destruct H as (room & area & total & unit & v1 & v2 & v3 & v4 &
                 _ & _ & _ & _ & E3 & S3 & E4 & S4 & ->).
  intros key field [E|[E|[]]]; injection E as <- <-;
    eapply price_rule_holds; eauto; reflexivity.
Qed.

Lemma In_existsb (t : str) (l : list str) :
  existsb (str_eqb t) l = true -> In t l.
Proof.
  intros H; apply existsb_exists in H; destruct H as (x & Hx & E).
  apply str_eqb_eq in E. now subst x.
Qed.

Lemma Qtrunc_whole_token (t : str) :
  whole_token t = true -> Qtrunc (token_value t) = whole_value t.
Proof.
  intros W.
  rewrite <- (Qtrunc_comp (inject_Z (whole_value t)) (token_value t)).
  - apply Qtrunc_whole.
  - apply whole_value_nonneg.
  - symmetry; now apply token_value_whole.
Qed.

End PreprocessingFacts.
(* ================================================================== *)
(** * Properties of preprocessing.py                                    *)
(* ================================================================== *)

Module PreprocessingSpec.
Import Py Preprocessing PyFacts PreprocessingFacts.
Local Open Scope py_scope.

(** C1, as stated, fails: [extract_number(None)] does not yield an empty
    sequence, it raises [TypeError]. *)
Lemma extract_number_none_raises :
  extract_number VNone = Raise TypeError /\ extract_number VNone <> Ok [].
Proof. split; [reflexivity|discriminate]. Qed.

(** C1, amended: on a string without digits [extract_number] yields the
    empty sequence; on [None] and on every other non-string it raises
    [TypeError]; [process_record] never hands it a non-string, because a
    field that is absent, [None] or not a string is replaced by the empty
    text, on which the result is empty, and room entries that are not
    strings are skipped. *)
Theorem extract_number_guarded :
  (forall s, no_digit s = true -> extract_number (VStr s) = Ok []) /\
  (forall v, (forall s, v <> VStr s) -> extract_number v = Raise TypeError) /\
  (forall record key,
      dict_lookup record key = None ->
      safe_get_str record key = [] /\
      extract_number (VStr (safe_get_str record key)) = Ok []) /\
  (forall record key v,
      dict_lookup record key = Some v -> (forall s, v <> VStr s) ->
      safe_get_str record key = [] /\
      extract_number (VStr (safe_get_str record key)) = Ok []) /\
  (forall record key,
      exists s, safe_get_str record key = s /\
                extract_number (VStr s) = Ok (findall_number s)) /\
  (forall room rooms room_numbers,
      (forall s, room <> VStr s) ->
      collect_room_numbers (room :: rooms) room_numbers =
      collect_room_numbers rooms room_numbers).
Proof.
  split; [|split; [|split; [|split; [|split]]]].
  - intros s H; unfold extract_number, findall_number.
    now rewrite findall_from_no_digit.
  - intros v H; destruct v; try reflexivity. now destruct (H s).
  - intros record key H. unfold safe_get_str, dict_get. rewrite H.
    split; reflexivity.
  - intros record key v H Hv. unfold safe_get_str, dict_get. rewrite H.
    destruct v; try (split; reflexivity). now destruct (Hv s).
  - intros record key. eexists; split; reflexivity.
  - intros room rooms acc H; destruct room; try reflexivity. now destruct (H s).
Qed.

Lemma extract_number_guarded_witness :
  extract_number (VStr u"abc") = Ok [] /\
  extract_number (VInt 3) = Raise TypeError /\
  extract_number (VStr (safe_get_str [(u"name", VStr u"甲")] u"area")) = Ok [] /\
  extract_number (VStr (safe_get_str [(u"area", VNone)] u"area")) = Ok [] /\
  extract_number (VStr (safe_get_str [(u"area", VInt 75)] u"area")) = Ok [] /\
  collect_room_numbers [VNone] [] = Ok [].
Proof.
  destruct extract_number_guarded as (H1 & H2 & H3 & H4 & _ & H6).
  split; [|split; [|split; [|split; [|split]]]].
  - apply H1; reflexivity.
  - apply H2; discriminate.
  - apply (H3 [(u"name", VStr u"甲")] u"area"). vm_compute; reflexivity.
  - apply (H4 [(u"area", VNone)] u"area" VNone); [vm_compute; reflexivity|].
    discriminate.
  - apply (H4 [(u"area", VInt 75)] u"area" (VInt 75)); [vm_compute; reflexivity|].
    discriminate.
  - rewrite H6; [reflexivity|discriminate].
Defined.

(** C3, as stated, fails.  The area ["1.4999999999999999999㎡"] has one
    number, which rounds to 1, and the area column holds 2: the float
    nearest to the number is 1.5.  An area whose number has 310 digits
    gives no row at all: [process_record] raises [OverflowError]. *)
Lemma area_differs_from_written :
  findall_number u"1.4999999999999999999㎡" = [u"1.4999999999999999999"] /\
  round_half_even (token_value u"1.4999999999999999999") = 1 /\
  area_of u"1.4999999999999999999㎡" = Ok (Some (VInt 2)) /\
  area_of (49%N :: repeat 48%N 309 ++ u"㎡") = Raise OverflowError.
Proof. repeat split; vm_compute; reflexivity. Qed.

(** C3, amended: [process_record] returns whenever the numbers it converts
    fit a float, and in the row it returns the area column holds
    [round((float(t0) + float(t1)) / 2)] for the first two numbers of the
    area text, whatever follows them, or [round(float(t0))] for the only
    number, or the empty string when the text has no number; [round] gives
    the integer nearest to the float, the even one of two that are equally
    near.  This is the number as it is written, rounded half to even, when
    the number is whole and below [2 ^ 53], and the written midpoint
    rounded half to even when the two numbers are whole and their sum is
    below [2 ^ 53]; it is also so for every number of one to three ASCII
    digits, a point and at most one ASCII digit, and for the midpoint of
    two numbers of one ASCII digit, a point and at most one ASCII digit.
    ["80-100㎡"] gives 90, ["75㎡"] gives 75, the empty text gives the
    empty string, ["75.6㎡"] gives 76 and ["85-100㎡"], whose midpoint is
    92.5, gives 92. *)
Theorem area_rounded_midpoint :
  (forall record row, process_record record = Ok row -> area_rule record row) /\
  (forall record, conversions_finite record = true ->
      exists row, process_record record = Ok row /\ area_rule record row) /\
  (forall record row t,
      process_record record = Ok row ->
      findall_number (safe_get_str record u"area") = [t] ->
      whole_token t = true -> whole_value t < 2 ^ 53 ->
      dict_lookup row u"面积"
      = Some (VInt (round_half_even (token_value t)))) /\
  (forall record row t0 t1 rest,
      process_record record = Ok row ->
      findall_number (safe_get_str record u"area") = t0 :: t1 :: rest ->
      whole_token t0 = true -> whole_token t1 = true ->
      whole_value t0 + whole_value t1 < 2 ^ 53 ->
      dict_lookup row u"面积"
      = Some (VInt (round_half_even
                      ((token_value t0 + token_value t1) / 2)%Q))) /\
  (forall record row ip fp,
      process_record record = Ok row ->
      findall_number (safe_get_str record u"area") = [ip ++ dot :: fp] ->
      In ip (whole_tokens 3) -> In fp (decimals 1) ->
      dict_lookup row u"面积"
      = Some (VInt (round_half_even (token_value (ip ++ dot :: fp))))) /\
  (forall record row ip0 fp0 ip1 fp1 rest,
      process_record record = Ok row ->
      findall_number (safe_get_str record u"area")
      = (ip0 ++ dot :: fp0) :: (ip1 ++ dot :: fp1) :: rest ->
      In ip0 (whole_tokens 1) -> In fp0 (decimals 1) ->
      In ip1 (whole_tokens 1) -> In fp1 (decimals 1) ->
      dict_lookup row u"面积"
      = Some (VInt (round_half_even
                      ((token_value (ip0 ++ dot :: fp0)
                        + token_value (ip1 ++ dot :: fp1)) / 2)%Q))) /\
  area_of u"80-100㎡" = Ok (Some (VInt 90)) /\
  area_of u"75㎡" = Ok (Some (VInt 75)) /\
  area_of u"" = Ok (Some (VStr [])) /\
  area_of u"75.6㎡" = Ok (Some (VInt 76)) /\
  area_of u"85-100㎡" = Ok (Some (VInt 92)).
Proof.
  split; [exact area_rule_holds|]. split.
  { intros record H. apply process_record_returns in H.
    destruct H as (row & H & _); eauto using area_rule_holds. }
  split; [exact area_of_whole_token|].
  split; [exact area_of_whole_tokens|].
  split; [exact area_of_short_decimal|].
  split; [exact area_of_short_decimals|].
  repeat split; vm_compute; reflexivity.
Qed.

Lemma area_rounded_midpoint_witness :
  (exists row,
      process_record [(u"area", VStr u"80-100㎡ 120")] = Ok row /\
      area_rule [(u"area", VStr u"80-100㎡ 120")] row) /\
  (exists row,
      process_record [(u"area", VStr u"约128㎡")] = Ok row /\
      dict_lookup row u"面积"
      = Some (VInt (round_half_even (token_value u"128")))) /\
  (exists row,
      process_record [(u"area", VStr u"85-100㎡")] = Ok row /\
      dict_lookup row u"面积"
      = Some (VInt (round_half_even
                      ((token_value u"85" + token_value u"100") / 2)%Q))) /\
  (exists row,
      process_record [(u"area", VStr u"75.6㎡")] = Ok row /\
      dict_lookup row u"面积"
      = Some (VInt (round_half_even (token_value (u"75" ++ dot :: u"6"))))) /\
  (exists row,
      process_record [(u"area", VStr u"7.5-9.㎡")] = Ok row /\
      dict_lookup row u"面积"
      = Some (VInt (round_half_even
                      ((token_value (u"7" ++ dot :: u"5")
                        + token_value (u"9" ++ dot :: u"")) / 2)%Q))).
Proof.
  destruct area_rounded_midpoint as (_ & H2 & H3 & H4 & H5 & H6 & _).
  split; [|split; [|split; [|split]]].
  - apply H2. vm_compute. reflexivity.
  - eexists; split; [vm_compute; reflexivity|].
    apply (H3 [(u"area", VStr u"约128㎡")] _ u"128");
      vm_compute; reflexivity.
  - eexists; split; [vm_compute; reflexivity|].
    apply (H4 [(u"area", VStr u"85-100㎡")] _ u"85" u"100" []);
      vm_compute; reflexivity.
  - eexists; split; [vm_compute; reflexivity|].
    apply (H5 [(u"area", VStr u"75.6㎡")] _ u"75" u"6");
      try apply In_existsb; vm_compute; reflexivity.
  - eexists; split; [vm_compute; reflexivity|].
    apply (H6 [(u"area", VStr u"7.5-9.㎡")] _ u"7" u"5" u"9" u"" []);
      try apply In_existsb; vm_compute; reflexivity.
Defined.




(** C5, as stated, fails.  The total price ["0.99999999999999999999万"]
    has the number 0.99999999999999999999, which truncates to 0, and the
    total price column holds 1: the float nearest to the number is 1.  The
    whole number 9007199254740993 is stored as 9007199254740992.  A unit
    price whose number has 310 digits gives no row at all. *)
Lemma price_differs_from_written :
  findall_number u"0.99999999999999999999万" = [u"0.99999999999999999999"] /\
  Qtrunc (token_value u"0.99999999999999999999") = 0 /\
  price_of u"total_price" u"总价" u"0.99999999999999999999万"
  = Ok (Some (VInt 1)) /\
  Qtrunc (token_value u"9007199254740993") = 9007199254740993 /\
  price_of u"total_price" u"总价" u"9007199254740993"
  = Ok (Some (VInt 9007199254740992)) /\
  price_of u"unit_price" u"均价" (49%N :: repeat 48%N 309)
  = Raise OverflowError.
Proof. repeat split; vm_compute; reflexivity. Qed.

(** C5, amended: [process_record] returns whenever the numbers it converts
    fit a float, and in the row it returns the total price column holds
    [int(float(t))] for the first number [t] of the total price text, that
    is the value of the float nearest to the number with its decimals cut
    off, or the empty string when the text has no number; the unit price
    column obeys the same rule on its own text.  This is the number as it
    is written without its decimals when the number is whole and below
    [2 ^ 53], and for every number of one to three ASCII digits, a point
    and at most one ASCII digit.  ["约450.9万/套"] gives 450,
    ["89999.99元/㎡"] gives 89999 and the empty text gives the empty
    string. *)
Theorem prices_truncated :
  (forall record row, process_record record = Ok row ->
      price_rule record row u"total_price" u"总价" /\
      price_rule record row u"unit_price" u"均价") /\
  (forall record, conversions_finite record = true ->
      exists row, process_record record = Ok row /\
        price_rule record row u"total_price" u"总价" /\
        price_rule record row u"unit_price" u"均价") /\
  (forall record row key field t rest,
      process_record record = Ok row -> In (key, field) price_columns ->
      findall_number (safe_get_str record key) = t :: rest ->
      whole_token t = true -> whole_value t < 2 ^ 53 ->
      dict_lookup row field = Some (VInt (Qtrunc (token_value t))) /\
      Qtrunc (token_value t) = whole_value t) /\
  (forall record row key field ip fp rest,
      process_record record = Ok row -> In (key, field) price_columns ->
      findall_number (safe_get_str record key) = (ip ++ dot :: fp) :: rest ->
      In ip (whole_tokens 3) -> In fp (decimals 1) ->
      dict_lookup row field
      = Some (VInt (Qtrunc (token_value (ip ++ dot :: fp))))) /\
  price_of u"total_price" u"总价" u"约450.9万/套" = Ok (Some (VInt 450)) /\
  price_of u"unit_price" u"均价" u"89999.99元/㎡" = Ok (Some (VInt 89999)) /\
  price_of u"total_price" u"总价" u"" = Ok (Some (VStr [])) /\
  price_of u"unit_price" u"均价" u"" = Ok (Some (VStr [])).
Proof.
  assert (H : forall record row, process_record record = Ok row ->
      price_rule record row u"total_price" u"总价" /\
      price_rule record row u"unit_price" u"均价").
  { intros record row H.
    split; apply (prices_of_row record row H); [left|right; left]; reflexivity. }
  split; [exact H|]. split.
  { intros record Hf. apply process_record_returns in Hf.
    destruct Hf as (row & Hr & _); eauto. }
  split.
  { intros record row key field t rest Hr Hk Ht W B. split.
    - eapply price_of_whole_token; eauto using prices_of_row.
    - now apply Qtrunc_whole_token. }
  split.
  { intros record row key field ip fp rest Hr Hk Ht Hi Hf.
    eapply price_of_short_decimal; eauto using prices_of_row. }
  repeat split; vm_compute; reflexivity.
Qed.

Lemma prices_truncated_witness :
  (exists row,
      process_record [(u"total_price", VStr u"约450.9万/套");
                      (u"unit_price", VStr u"89999.99元/㎡")] = Ok row /\
      dict_lookup row u"总价" = Some (VInt 450) /\
      dict_lookup row u"均价" = Some (VInt 89999)) /\
  (exists row,
      process_record [(u"unit_price", VStr u"89999元/㎡ 起")] = Ok row /\
      dict_lookup row u"均价" = Some (VInt (Qtrunc (token_value u"89999"))) /\
      Qtrunc (token_value u"89999") = whole_value u"89999") /\
  (exists row,
      process_record [(u"total_price", VStr u"约450.9万/套")] = Ok row /\
      dict_lookup row u"总价"
      = Some (VInt (Qtrunc (token_value (u"450" ++ dot :: u"9"))))).
Proof.
  destruct prices_truncated as (_ & H2 & H3 & H4 & _).
  split; [|split].
  - destruct (H2 [(u"total_price", VStr u"约450.9万/套");
                  (u"unit_price", VStr u"89999.99元/㎡")]) as (row & H & _).
    + vm_compute; reflexivity.
    + exists row; split; [exact H|].
      vm_compute in H. apply Ok_inj in H. subst row. split; reflexivity.
  - eexists; split; [vm_compute; reflexivity|].
    apply (H3 [(u"unit_price", VStr u"89999元/㎡ 起")] _ u"unit_price" u"均价"
              u"89999" []);
      try (right; left; reflexivity); vm_compute; reflexivity.
  - eexists; split; [vm_compute; reflexivity|].
    apply (H4 [(u"total_price", VStr u"约450.9万/套")] _ u"total_price" u"总价"
              u"450" u"9" []);
      try (left; reflexivity); try apply In_existsb; vm_compute; reflexivity.
Defined.

(** C10: every match returned by [extract_number] starts with a digit, is
    made of digits with at most one point after the first run, holds no
    minus sign, and [float] turns it into a non-negative float without
    raising; so the room, area, total price and unit price columns of a
    returned row are each the empty string or a non-negative integer. *)
Theorem tokens_and_fields_nonneg :
  (forall s toks t,
      extract_number (VStr s) = Ok toks -> In t toks ->
      number_token t /\
      (exists c rest, t = c :: rest /\ is_digit c = true) /\
      ~ In 45%N t /\
      exists f, float_of_str t = Ok f /\ nonneg f = true) /\
  (forall record row,
      process_record record = Ok row ->
      exists room area total unit,
        dict_lookup row u"房型" = Some room /\ nonneg_field room /\
        dict_lookup row u"面积" = Some area /\ nonneg_field area /\
        dict_lookup row u"总价" = Some total /\ nonneg_field total /\
        dict_lookup row u"均价" = Some unit /\ nonneg_field unit).
Proof.
  split.
  - intros s toks t E Hin; apply Ok_inj in E; subst toks.
    apply findall_number_tokens in Hin.
    destruct (number_token_chars t Hin) as (Hhd & Hch).
    repeat split; auto using float_of_str_token.
    intros H45; destruct (Hch _ H45) as [H|H]; [|discriminate].
    vm_compute in H; discriminate.
  - intros record row H; apply process_record_inv in H.
    destruct H as (room & area & total & unit & v1 & v2 & v3 & v4 &
                   E1 & S1 & E2 & S2 & E3 & S3 & E4 & S4 & ->).
    exists v1, v2, v3, v4.
    assert (N1 : nonneg_field v1).
    { apply (stored_nonneg float_round room v1 float_round_nonneg); [|exact S1].
      intros f Hf; subst room; eauto using avg_room_nonneg. }
    assert (N2 : nonneg_field v2).
    { apply (stored_nonneg float_round area v2 float_round_nonneg); [|exact S2].
      intros f Hf; subst area; eauto using avg_area_nonneg. }
    assert (N3 : nonneg_field v3).
    { apply (stored_nonneg float_int total v3 float_int_nonneg); [|exact S3].
      intros f Hf; subst total; eauto using first_price_nonneg. }
    assert (N4 : nonneg_field v4).
    { apply (stored_nonneg float_int unit v4 float_int_nonneg); [|exact S4].
      intros f Hf; subst unit; eauto using first_price_nonneg. }
    repeat (split; [reflexivity || assumption|]). assumption.
Qed.

Lemma tokens_and_fields_nonneg_witness :
  (exists f, float_of_str u"100" = Ok f /\ nonneg f = true) /\
  exists total,
    dict_lookup [(u"楼盘名称", VStr []); (u"类型", VStr []); (u"行政区", VStr []);
                 (u"街道", VStr []); (u"具体位置", VStr []); (u"房型", VStr []);
                 (u"面积", VStr []); (u"总价", VInt 5); (u"均价", VStr [])]
                u"总价" = Some total /\ nonneg_field total.
Proof.
  split.
  - apply (proj1 tokens_and_fields_nonneg u"-80~100" [u"80"; u"100"] u"100").
    + vm_compute; reflexivity.
    + right; left; vm_compute; reflexivity.
  - destruct (proj2 tokens_and_fields_nonneg [(u"total_price", VStr u"-5")] _ eq_refl)
      as (room & area & total & unit & _ & _ & _ & _ & Ht & Hn & _).
    exists total; split; assumption.
Defined.

End PreprocessingSpec.
(* ================================================================== *)
(** * Facts about tables                                                *)
(* ================================================================== *)

Module PandasFacts.
Import Py Pandas PyFacts.
Local Open Scope py_scope.

Lemma str_eqb_neq (a b : str) : str_eqb a b = false <-> a <> b.
Proof.
  split.
  - intros H E; apply str_eqb_eq in E; congruence.
  - intros H; destruct (str_eqb a b) eqn:E; [|reflexivity].
    apply str_eqb_eq in E; contradiction.
Qed.

Lemma str_eq_dec (a b : str) : {a = b} + {a <> b}.
Proof. apply list_eq_dec, N.eq_dec. Qed.

Lemma getitem_setitem_same (df : frame) (col : str) (s : series) :
  getitem (setitem df col s) col = Ok s.
Proof.
  induction df as [|[c s0] df IH]; simpl.
  - now rewrite str_eqb_refl.
  - destruct (str_eqb c col) eqn:E; simpl; rewrite E; auto.
Qed.

Lemma getitem_setitem_other (df : frame) (col col' : str) (s : series) :
  col <> col' -> getitem (setitem df col s) col' = getitem df col'.
Proof.
  intros Hne; induction df as [|[c s0] df IH]; simpl.
  - apply str_eqb_neq in Hne; now rewrite Hne.
  - destruct (str_eqb c col) eqn:E; simpl.
    + apply str_eqb_eq in E; subst c.
      apply str_eqb_neq in Hne; now rewrite Hne.
    + now rewrite IH.
Qed.

Lemma has_column_getitem (df : frame) (col : str) :
  has_column df col = true <-> exists s, getitem df col = Ok s.
Proof.
  unfold has_column, column_names.
  induction df as [|[c s0] df IH]; simpl.
  - split; [discriminate|intros (s & H); discriminate].
  - destruct (str_eqb col c) eqn:E.
    + apply str_eqb_eq in E; subst c; rewrite str_eqb_refl; simpl.
      split; eauto.
    + assert (E' : str_eqb c col = false).
      { apply str_eqb_neq; apply str_eqb_neq in E; congruence. }
      now rewrite E'.
Qed.

(** ** Sorting and dropping repeats *)

Section Lists.
Context {A : Type} (eqb leb : A -> A -> bool).
Hypothesis eqb_refl : forall x, eqb x x = true.
Hypothesis eqb_sym : forall x y, eqb x y = eqb y x.
Hypothesis eqb_trans :
  forall x y z, eqb x y = true -> eqb y z = true -> eqb x z = true.

Lemma In_insert_sorted (x y : A) (l : list A) :
  In x (insert_sorted leb y l) <-> x = y \/ In x l.
Proof.
  induction l as [|z l IH]; simpl.
  - intuition congruence.
  - destruct (leb y z); simpl; rewrite ?IH; intuition congruence.
Qed.

Lemma In_sort (x : A) (l : list A) : In x (sort leb l) <-> In x l.
Proof.
  induction l as [|z l IH]; simpl; [tauto|].
  rewrite In_insert_sorted, IH. intuition congruence.
Qed.

Lemma In_distinct (x : A) (l : list A) : In x (distinct eqb l) -> In x l.
Proof.
  induction l as [|z l IH]; simpl; [tauto|].
  intros [H|H]; [now left|].
  apply filter_In in H; destruct H as [H _]; auto.
Qed.

(** Every element has a representative among the distinct ones. *)
Lemma distinct_covers (x : A) (l : list A) :
  In x l -> exists y, In y (distinct eqb l) /\ eqb y x = true.
Proof.
  induction l as [|z l IH]; simpl; [contradiction|].
  intros [->|H].
  - exists x; auto.
  - destruct (IH H) as (y & Hy & Hyx).
    destruct (eqb z y) eqn:E.
    + exists z; split; [now left|]. eauto.
    + exists y; split; [|assumption].
      right; apply filter_In; split; [assumption|]. now rewrite E.
Qed.

Lemma forallb_filter (p q : A -> bool) (l : list A) :
  forallb q l = true -> forallb q (filter p l) = true.
Proof.
  rewrite !forallb_forall; intros H x Hx.
  apply filter_In in Hx; destruct Hx; auto.
Qed.

Lemma unique_filter (p : A -> bool) (l : list A) :
  unique eqb l = true -> unique eqb (filter p l) = true.
Proof.
  induction l as [|z l IH]; simpl; [reflexivity|].
  intros H; apply andb_prop in H; destruct H as [H1 H2].
  destruct (p z); simpl; [|auto].
  rewrite forallb_filter by assumption. auto.
Qed.

Lemma unique_distinct (l : list A) : unique eqb (distinct eqb l) = true.
Proof.
  induction l as [|z l IH]; simpl; [reflexivity|].
  rewrite unique_filter by assumption. rewrite andb_true_r.
  apply forallb_forall; intros x Hx.
  apply filter_In in Hx; now destruct Hx.
Qed.

Lemma unique_insert_sorted (x : A) (l : list A) :
  forallb (fun y => negb (eqb x y)) l = true -> unique eqb l = true ->
  unique eqb (insert_sorted leb x l) = true.
Proof.
  induction l as [|z l IH]; simpl; [reflexivity|].
  intros Hx Hu.
  apply andb_prop in Hx; destruct Hx as [Hxz Hx].
  apply andb_prop in Hu; destruct Hu as [Hz Hu].
  destruct (leb x z); simpl.
  - now rewrite Hxz, Hx, Hz, Hu.
  - rewrite IH by assumption. rewrite andb_true_r.
    apply forallb_forall; intros y Hy.
    apply In_insert_sorted in Hy; destruct Hy as [->|Hy].
    + now rewrite eqb_sym.
    + rewrite forallb_forall in Hz; auto.
Qed.

Lemma unique_sort (l : list A) :
  unique eqb l = true -> unique eqb (sort leb l) = true.
Proof.
  induction l as [|z l IH]; simpl; [reflexivity|].
  intros H; apply andb_prop in H; destruct H as [Hz Hu].
  apply unique_insert_sorted; [|exact (IH Hu)].
  apply forallb_forall; intros y Hy. apply (proj1 (In_sort _ _)) in Hy.
  rewrite forallb_forall in Hz; auto.
Qed.

End Lists.

Lemma forallb_map_ext {A B} (p : B -> bool) (q : A -> bool) (g : A -> B)
    (l : list A) :
  (forall x, In x l -> p (g x) = q x) -> forallb p (map g l) = forallb q l.
Proof.
  induction l as [|z l IH]; simpl; intros H; [reflexivity|].
  rewrite H by now left. rewrite IH; [reflexivity|].
  intros; apply H; now right.
Qed.

Lemma unique_map {A B} (eqa : A -> A -> bool) (eqb : B -> B -> bool)
    (g : A -> B) (l : list A) :
  (forall x y, In x l -> In y l -> eqb (g x) (g y) = eqa x y) ->
  unique eqb (map g l) = unique eqa l.
Proof.
  induction l as [|z l IH]; simpl; intros H; [reflexivity|].
  rewrite IH by (intros; apply H; now right). f_equal.
  apply forallb_map_ext. intros x Hx. f_equal. apply H; auto.
Qed.

Lemma combine_map {A B C} (f : A -> B) (g : A -> C) (l : list A) :
  combine (map f l) (map g l) = map (fun x => (f x, g x)) l.
Proof. induction l; simpl; congruence. Qed.

Lemma mapM_ok {A B} (f : A -> exc B) (g : A -> B) (l : list A) :
  (forall x, In x l -> f x = Ok (g x)) -> mapM f l = Ok (map g l).
Proof.
  induction l as [|z l IH]; simpl; intros H; [reflexivity|].
  rewrite H by now left. simpl. rewrite IH; [reflexivity|].
  intros; apply H; now right.
Qed.

(** ** Labels are compared up to the value of the number *)

Lemma scalar_eqb_refl (x : scalar) : scalar_eqb x x = true.
Proof.
  destruct x; simpl; [apply Qeq_bool_iff; reflexivity|apply str_eqb_refl].
Qed.

Lemma str_eqb_sym (a b : str) : str_eqb a b = str_eqb b a.
Proof.
  destruct (str_eqb b a) eqn:E.
  - apply str_eqb_eq in E; subst; apply str_eqb_refl.
  - apply str_eqb_neq; apply str_eqb_neq in E; congruence.
Qed.

Lemma Qeq_bool_sym (x y : Q) : Qeq_bool x y = Qeq_bool y x.
Proof.
  destruct (Qeq_bool y x) eqn:E.
  - apply Qeq_bool_iff in E; apply Qeq_bool_iff; now symmetry.
  - destruct (Qeq_bool x y) eqn:E'; [|reflexivity].
    apply Qeq_bool_iff in E'.
    assert (H : Qeq_bool y x = true) by (apply Qeq_bool_iff; now symmetry).
    congruence.
Qed.

Lemma scalar_eqb_sym (x y : scalar) : scalar_eqb x y = scalar_eqb y x.
Proof.
  destruct x, y; simpl; auto using Qeq_bool_sym, str_eqb_sym.
Qed.

Lemma scalar_eqb_trans (x y z : scalar) :
  scalar_eqb x y = true -> scalar_eqb y z = true -> scalar_eqb x z = true.
Proof.
  destruct x, y, z; simpl; try discriminate.
  - rewrite !Qeq_bool_iff; intros H1 H2; now rewrite H1.
  - rewrite !str_eqb_eq; congruence.
Qed.

Lemma key_eqb_refl (k : key) : key_eqb k k = true.
Proof. induction k; simpl; [reflexivity|]. now rewrite scalar_eqb_refl. Qed.

Lemma key_eqb_sym (a b : key) : key_eqb a b = key_eqb b a.
Proof.
  revert b; induction a as [|x a IH]; destruct b as [|y b]; simpl; try reflexivity.
  now rewrite scalar_eqb_sym, IH.
Qed.

Lemma key_eqb_trans (a b c : key) :
  key_eqb a b = true -> key_eqb b c = true -> key_eqb a c = true.
Proof.
  revert b c; induction a as [|x a IH]; destruct b as [|y b], c as [|z c];
    simpl; try discriminate; auto.
  intros H1 H2.
  apply andb_prop in H1; destruct H1 as [H1 H1'].
  apply andb_prop in H2; destruct H2 as [H2 H2'].
  rewrite (scalar_eqb_trans x y z H1 H2). simpl. eauto.
Qed.

Lemma label_eqb_refl (a : label) : label_eqb a a = true.
Proof. destruct a; simpl; auto using scalar_eqb_refl. Qed.

Lemma label_eqb_sym (a b : label) : label_eqb a b = label_eqb b a.
Proof. destruct a, b; simpl; auto using scalar_eqb_sym. Qed.

Lemma label_eqb_trans (a b c : label) :
  label_eqb a b = true -> label_eqb b c = true -> label_eqb a c = true.
Proof.
  destruct a, b, c; simpl; try discriminate; eauto using scalar_eqb_trans.
Qed.

(** ** Looking a pair of labels up *)

Lemma lookup_pair_cases (rows : list (label * label * option Q)) (a b : label) :
  (forallb (fun r => negb (matches a b r)) rows = true /\
   lookup_pair rows a b = None) \/
  (exists r, In r rows /\ matches a b r = true /\ lookup_pair rows a b = snd r).
Proof.
  induction rows as [|[[a' b'] v] rows IH]; simpl; [now left|].
  unfold matches at 1 3; simpl.
  destruct (label_eqb a' a && label_eqb b' b) eqn:E; simpl.
  - right; exists (a', b', v); repeat split; auto.
  - destruct IH as [[H1 H2]|(r & H1 & H2 & H3)]; [now left|].
    right; exists r; auto.
Qed.

Lemma lookup_pair_equiv (rows : list (label * label * option Q)) (a b a' b' : label) :
  label_eqb a' a = true -> label_eqb b' b = true ->
  lookup_pair rows a' b' = lookup_pair rows a b.
Proof.
  intros Ha Hb; induction rows as [|[[x y] v] rows IH]; simpl; [reflexivity|].
  assert (E1 : label_eqb x a' = label_eqb x a).
  { destruct (label_eqb x a) eqn:E.
    - apply (label_eqb_trans x a a'); [assumption|now rewrite label_eqb_sym].
    - destruct (label_eqb x a') eqn:E'; [|reflexivity].
      rewrite (label_eqb_trans x a' a E' Ha) in E; discriminate. }
  assert (E2 : label_eqb y b' = label_eqb y b).
  { destruct (label_eqb y b) eqn:E.
    - apply (label_eqb_trans y b b'); [assumption|now rewrite label_eqb_sym].
    - destruct (label_eqb y b') eqn:E'; [|reflexivity].
      rewrite (label_eqb_trans y b' b E' Hb) in E; discriminate. }
  now rewrite E1, E2, IH.
Qed.

(** The cells of a pivot table, written as one list. *)
Lemma pivot_cell_grid (idx cols : list label) (h : label -> label -> option Q)
    (a b : label) :
  pivot_cell {| index := idx; columns := cols;
                values := map (fun a' => map (fun b' => h a' b') cols) idx |} a b
  = lookup_pair
      (flat_map (fun a' => map (fun b' => (a', b', h a' b')) cols) idx) a b.
Proof.
  assert (R : forall (a' : label) (g : label -> option Q) (l : list label),
             map (fun '(b', v) => (a', b', v)) (combine l (map g l))
             = map (fun b' => (a', b', g b')) l).
  { intros a' g l; induction l as [|b' l IHl]; simpl; [reflexivity|].
    now rewrite IHl. }
  unfold pivot_cell; simpl. f_equal.
  induction idx as [|a' idx IH]; simpl; [reflexivity|].
  now rewrite IH, R.
Qed.

(** A pivot table built from rows answers as the rows do. *)
Lemma pivot_cell_rows {K} (ks : list K) (f g : K -> label) (v : K -> option Q)
    (a b : label) :
  let rows := map (fun k => (f k, g k, v k)) ks in
  let idx := sort label_leb (distinct label_eqb (map f ks)) in
  let cols := sort label_leb (distinct label_eqb (map g ks)) in
  pivot_cell {| index := idx; columns := cols;
                values := map (fun a' => map (fun b' => lookup_pair rows a' b') cols) idx |}
             a b
  = lookup_pair rows a b.
Proof.
  intros rows idx cols. rewrite pivot_cell_grid.
  destruct (lookup_pair_cases
              (flat_map (fun a' => map (fun b' => (a', b', lookup_pair rows a' b')) cols) idx)
              a b) as [[Hnone ->]|(r & Hr & Hm & ->)].
  - destruct (lookup_pair_cases rows a b) as [[_ ->]|(r & Hr & Hm & _)];
      [reflexivity|exfalso].
    apply in_map_iff in Hr; destruct Hr as (k & <- & Hk).
    unfold matches in Hm; simpl in Hm.
    apply andb_prop in Hm; destruct Hm as [Hfa Hgb].
    destruct (distinct_covers label_eqb label_eqb_refl label_eqb_trans (f k) (map f ks))
      as (a' & Ha' & Ea'); [now apply in_map|].
    destruct (distinct_covers label_eqb label_eqb_refl label_eqb_trans (g k) (map g ks))
      as (b' & Hb' & Eb'); [now apply in_map|].
    apply (proj2 (In_sort label_leb a' _)) in Ha'.
    apply (proj2 (In_sort label_leb b' _)) in Hb'.
    rewrite forallb_forall in Hnone.
    specialize (Hnone (a', b', lookup_pair rows a' b')).
    unfold matches in Hnone; simpl in Hnone.
    rewrite (label_eqb_trans _ _ _ Ea' Hfa), (label_eqb_trans _ _ _ Eb' Hgb) in Hnone.
    assert (Hin : In (a', b', lookup_pair rows a' b')
                     (flat_map (fun a' => map (fun b' => (a', b', lookup_pair rows a' b')) cols) idx)).
    { apply in_flat_map; exists a'; split; [exact Ha'|].
      apply in_map_iff; exists b'; auto. }
    specialize (Hnone Hin); discriminate.
  - apply in_flat_map in Hr; destruct Hr as (a' & Ha' & Hr).
    apply in_map_iff in Hr; destruct Hr as (b' & <- & Hb').
    unfold matches in Hm; simpl in Hm |- *.
    apply andb_prop in Hm; destruct Hm as [Ha Hb].
    now apply lookup_pair_equiv.
Qed.

(** ** Groups *)

Lemma In_present {A} (x : A) (l : list (option A)) :
  In x (present l) <-> In (Some x) l.
Proof.
  unfold present; rewrite in_flat_map; split.
  - intros ([y|] & Hy & Hx); simpl in Hx; [|contradiction].
    destruct Hx as [->|[]]; assumption.
  - intros H; exists (Some x); split; [assumption|now left].
Qed.

Lemma row_key_two (sd st : series) (i : nat) (k : key) :
  row_key [sd; st] i = Some k <->
  exists x y, k = [x; y] /\ nth i (cells sd) None = Some x /\
              nth i (cells st) None = Some y.
Proof.
  cbn [row_key].
  destruct (nth i (cells sd) None) as [x|], (nth i (cells st) None) as [y|];
    split; try discriminate;
    try (intros (x' & y' & _ & Hx & Hy); discriminate).
  - intros H; apply (f_equal (fun o => match o with Some k => k | None => [] end)) in H.
    subst k; eauto.
  - intros (x' & y' & -> & Hx & Hy).
    injection Hx as ->; injection Hy as ->; reflexivity.
Qed.

Lemma cells_key_column (s : series) (ks : list key) (j : nat) :
  cells (key_column s ks j) = map (fun k => key_label s k j) ks.
Proof. destruct s; simpl; now rewrite map_map. Qed.

Lemma key_label_cell (s : series) (i j : nat) (x : scalar) (k : key) :
  nth i (cells s) None = Some x -> nth_error k j = Some x ->
  key_label s k j = Some x.
Proof.
  intros Hc Hk; unfold key_label, numeric_label, object_label; rewrite Hk.
  destruct s as [l|l]; simpl in Hc.
  - change (@None scalar) with (option_map SNum None) in Hc.
    rewrite map_nth in Hc.
    destruct (nth i l None); simpl in Hc; [|discriminate].
    now injection Hc as <-.
  - change (@None scalar) with (option_map SStr None) in Hc.
    rewrite map_nth in Hc.
    destruct (nth i l None); simpl in Hc; [|discriminate].
    now injection Hc as <-.
Qed.

Lemma group_keys_from_rows (by_cols : list series) (n : nat) (k : key) :
  In k (group_keys by_cols n) ->
  exists i, (i < n)%nat /\ row_key by_cols i = Some k.
Proof.
  unfold group_keys, row_keys; intros H.
  apply (proj1 (In_sort key_leb k _)) in H.
  apply (In_distinct key_eqb key_leb) in H. apply (proj1 (In_present _ _)) in H.
  apply in_map_iff in H; destruct H as (i & Hi & Hin).
  apply in_seq in Hin; exists i; split; [lia|assumption].
Qed.

Lemma group_keys_cover (by_cols : list series) (n i : nat) (k : key) :
  (i < n)%nat -> row_key by_cols i = Some k ->
  exists k', In k' (group_keys by_cols n) /\ key_eqb k' k = true.
Proof.
  intros Hi Hk.
  destruct (distinct_covers key_eqb key_eqb_refl key_eqb_trans k
              (present (row_keys by_cols n))) as (k' & Hk' & E).
  - apply In_present; unfold row_keys; rewrite <- Hk.
    apply in_map, in_seq; lia.
  - exists k'; split; [|assumption].
    unfold group_keys; now apply In_sort.
Qed.

Lemma group_keys_unique (by_cols : list series) (n : nat) :
  unique key_eqb (group_keys by_cols n) = true.
Proof.
  unfold group_keys.
  apply unique_sort; auto using key_eqb_sym, unique_distinct.
Qed.

Lemma group_key_shape (sd st : series) (n : nat) (k : key) :
  In k (group_keys [sd; st] n) ->
  exists x y i, k = [x; y] /\ (i < n)%nat /\
    nth i (cells sd) None = Some x /\ nth i (cells st) None = Some y /\
    key_label sd k 0 = Some x /\ key_label st k 1 = Some y.
Proof.
  intros H; apply group_keys_from_rows in H; destruct H as (i & Hi & Hk).
  apply row_key_two in Hk; destruct Hk as (x & y & -> & Hx & Hy).
  exists x, y, i; repeat split; auto.
  - now apply (key_label_cell sd i 0 x).
  - now apply (key_label_cell st i 1 y).
Qed.

Lemma members_equiv (by_cols : list series) (n : nat) (k k' : key) :
  key_eqb k k' = true -> members by_cols n k = members by_cols n k'.
Proof.
  intros E; unfold members. apply map_ext; intros [k0|]; [|reflexivity].
  destruct (key_eqb k0 k') eqn:E'.
  - apply (key_eqb_trans k0 k' k E'). now rewrite key_eqb_sym.
  - destruct (key_eqb k0 k) eqn:E''; [|reflexivity].
    rewrite (key_eqb_trans k0 k k' E'' E) in E'; discriminate.
Qed.

Lemma select_none {A} (mask : list bool) (l : list A) :
  forallb negb mask = true -> select mask l = [].
Proof.
  revert l; induction mask as [|b mask IH]; intros [|x l]; simpl; auto.
  destruct b; simpl; [discriminate|auto].
Qed.

Lemma key_eqb_two (x y ka kb : scalar) :
  key_eqb [x; y] [ka; kb]
  = label_eqb (Some x) (Some ka) && label_eqb (Some y) (Some kb).
Proof. simpl; now rewrite andb_true_r. Qed.

Lemma aggregated_column_ok (df : frame) (by_names : list str) (col : str)
    (s : series) :
  existsb (str_eqb col) by_names = false -> getitem df col = Ok s ->
  aggregated_column df by_names col = Ok s.
Proof. intros E H; unfold aggregated_column; now rewrite E. Qed.

(** The columns to aggregate are all found. *)
Lemma aggregated_columns_ok (df : frame) (by_names : list str)
    (aggs : list (str * (str * how))) :
  (forall agg, In agg aggs ->
     existsb (str_eqb (fst (snd agg))) by_names = false /\
     exists s, getitem df (fst (snd agg)) = Ok s) ->
  exists ss,
    mapM (fun agg => aggregated_column df by_names (fst (snd agg))) aggs = Ok ss.
Proof.
  induction aggs as [|agg aggs IH]; intros H; [now exists []|].
  destruct (H agg (or_introl eq_refl)) as (E & s & Hs).
  destruct IH as (ss & Hss); [intros; apply H; now right|].
  exists (s :: ss). cbn [mapM bind].
  rewrite (aggregated_column_ok df by_names _ s E Hs). cbn [bind].
  now rewrite Hss.
Qed.

End PandasFacts.

(* ================================================================== *)
(** * Properties of the chart scripts                                   *)
(* ================================================================== *)

Module LoaderSpec.
Import Py Pandas PyFacts PandasFacts Loader.
Local Open Scope py_scope.

Lemma missing_column_first (required pre post : list str) (col : str) (data : frame) :
  required = pre ++ col :: post ->
  (forall c, In c pre -> has_column data c = true) ->
  has_column data col = false ->
  missing_column required data = Some col.
Proof.
  intros -> Hpre Hcol; induction pre as [|c pre IH]; simpl.
  - now rewrite Hcol.
  - rewrite (Hpre c (or_introl eq_refl)). apply IH.
    intros x Hx; apply Hpre; now right.
Qed.

(** C6: for every loaded table and every list of required column names,
    if a required column is absent, [load_data] prints the diagnostic that
    names the first absent column in the order of the list and returns no
    table, whatever the other columns hold; so do the scripts for a file
    that lacks the district column and has the columns listed before it. *)
Theorem first_missing_column_reported :
  (forall parse_number number_repr required numeric categorical subset
          csv_file data pre col post,
      required = pre ++ col :: post ->
      (forall c, In c pre -> has_column data c = true) ->
      has_column data col = false ->
      load_table parse_number number_repr required numeric categorical subset
                 csv_file (Loaded data)
      = Ok (None, [u"缺少必要的列: " ++ col])) /\
  (forall parse_number number_repr csv_file data,
      has_column data u"均价" = true -> has_column data u"总价" = true ->
      has_column data u"行政区" = false ->
      AveragePricePerDistrict.load_data parse_number number_repr csv_file (Loaded data)
      = Ok (None, [u"缺少必要的列: " ++ u"行政区"])) /\
  (forall parse_number number_repr csv_file data,
      has_column data u"楼盘名称" = true -> has_column data u"类型" = true ->
      has_column data u"行政区" = false ->
      RadarChart.load_data parse_number number_repr csv_file (Loaded data)
      = Ok (None, [u"缺少必要的列: " ++ u"行政区"])).
Proof.
  assert (G : forall parse_number number_repr required numeric categorical subset
          csv_file data pre col post,
      required = pre ++ col :: post ->
      (forall c, In c pre -> has_column data c = true) ->
      has_column data col = false ->
      load_table parse_number number_repr required numeric categorical subset
                 csv_file (Loaded data)
      = Ok (None, [u"缺少必要的列: " ++ col])).
  { intros; unfold load_table.
    now rewrite (missing_column_first required pre post col data). }
  split; [exact G|]. split.
  - intros parse_number number_repr csv_file data H1 H2 H3.
    apply (G _ _ _ _ _ _ _ _ [u"均价"; u"总价"] u"行政区" []); auto.
    intros c [<-|[<-|[]]]; assumption.
  - intros parse_number number_repr csv_file data H1 H2 H3.
    apply (G _ _ _ _ _ _ _ _ [u"楼盘名称"; u"类型"] u"行政区"
             [u"房型"; u"面积"; u"均价"; u"总价"]); auto.
    intros c [<-|[<-|[]]]; assumption.
Qed.

Lemma first_missing_column_reported_witness :
  AveragePricePerDistrict.load_data (fun _ => None) (fun _ => []) u"data.csv"
    (Loaded [(u"均价", Numeric [Some 100%Q]); (u"总价", Numeric [Some 5%Q]);
             (u"类型", Object [Some u"住宅"])])
  = Ok (None, [u"缺少必要的列: " ++ u"行政区"]).
Proof.
  apply (proj1 (proj2 first_missing_column_reported)); reflexivity.
Defined.

End LoaderSpec.
Module RadarChartSpec.
Import Py Pandas PyFacts PandasFacts RadarChart.
Local Open Scope py_scope.

Lemma fold_pick_in (better : Q -> Q -> bool) (xs : list Q) (x : Q) :
  In (fold_left (fun m y => if better y m then y else m) xs x) (x :: xs).
Proof.
  revert x; induction xs as [|y xs IH]; intros x; simpl; [now left|].
  destruct (IH (if better y x then y else x)) as [H|H]; [|now right; right].
  rewrite <- H; destruct (better y x); auto.
Qed.

Lemma extremum_in (better : Q -> Q -> bool) (l : list (option Q)) (m : Q) :
  extremum better l = Some m -> In m (present l).
Proof.
  unfold extremum; destruct (present l) as [|x xs]; [discriminate|].
  intros H; injection H as <-. apply fold_pick_in.
Qed.

Lemma fold_min_le (xs : list Q) (x : Q) :
  let r := fold_left (fun m y => if negb (Qle_bool m y) then y else m) xs x in
  (r <= x)%Q /\ forall y, In y xs -> (r <= y)%Q.
Proof.
  revert x; induction xs as [|y xs IH]; intros x; simpl.
  - split; [apply Qle_refl|contradiction].
  - destruct (IH (if negb (Qle_bool x y) then y else x)) as [H1 H2].
    destruct (Qle_bool x y) eqn:E; simpl in *.
    + apply Qle_bool_iff in E. split; [assumption|].
      intros z [<-|Hz]; [eapply Qle_trans; eauto|auto].
    + assert (Hlt : (y < x)%Q).
      { apply Qnot_le_lt; intros H; apply Qle_bool_iff in H; congruence. }
      split; [eapply Qle_trans; [eassumption|now apply Qlt_le_weak]|].
      intros z [<-|Hz]; auto.
Qed.

Lemma fold_max_ge (xs : list Q) (x : Q) :
  let r := fold_left (fun m y => if negb (Qle_bool y m) then y else m) xs x in
  (x <= r)%Q /\ forall y, In y xs -> (y <= r)%Q.
Proof.
  revert x; induction xs as [|y xs IH]; intros x; simpl.
  - split; [apply Qle_refl|contradiction].
  - destruct (IH (if negb (Qle_bool y x) then y else x)) as [H1 H2].
    destruct (Qle_bool y x) eqn:E; simpl in *.
    + apply Qle_bool_iff in E. split; [assumption|].
      intros z [<-|Hz]; [eapply Qle_trans; eauto|auto].
    + assert (Hlt : (x < y)%Q).
      { apply Qnot_le_lt; intros H; apply Qle_bool_iff in H; congruence. }
      split; [apply (Qle_trans _ y); [now apply Qlt_le_weak|exact H1]|].
      intros z [<-|Hz]; auto.
Qed.

(** [Qmin] and [Qmax] are the least and the greatest value present. *)
Lemma Qmin_least (l : list (option Q)) (m : Q) :
  Qmin l = Some m -> In m (present l) /\ forall x, In x (present l) -> (m <= x)%Q.
Proof.
  intros H; split; [now apply extremum_in in H|].
  unfold Qmin, extremum in H; destruct (present l) as [|x xs]; [discriminate|].
  injection H as <-. destruct (fold_min_le xs x) as [H1 H2].
  intros y [<-|Hy]; auto.
Qed.

Lemma Qmax_greatest (l : list (option Q)) (m : Q) :
  Qmax l = Some m -> In m (present l) /\ forall x, In x (present l) -> (x <= m)%Q.
Proof.
  intros H; split; [now apply extremum_in in H|].
  unfold Qmax, extremum in H; destruct (present l) as [|x xs]; [discriminate|].
  injection H as <-. destruct (fold_max_ge xs x) as [H1 H2].
  intros y [<-|Hy]; auto.
Qed.

Lemma zero_range (mn mx : Q) : Qeq_bool (mx - mn) 0 = true <-> (mx == mn)%Q.
Proof.
  rewrite Qeq_bool_iff. split; intros H.
  - rewrite <- (Qplus_0_l mn), <- H. ring.
  - rewrite H; ring.
Qed.

Lemma normalize_loop_spec (df : frame) (metrics : list str) :
  forall df_norm df',
    normalize_loop df metrics df_norm = Ok df' ->
    (forall m, In m metrics ->
       exists s s', getitem df m = Ok s /\ normalize_column s = Ok s' /\
                    getitem df' m = Ok s') /\
    (forall c, ~ In c metrics -> getitem df' c = getitem df_norm c).
Proof.
  induction metrics as [|metric rest IH]; simpl; intros df_norm df' H.
  - apply Ok_inj in H; subst; split; [contradiction|reflexivity].
  - destruct (getitem df metric) as [s|] eqn:Es; [|discriminate].
    simpl in H.
    destruct (normalize_column s) as [s'|] eqn:En; [|discriminate].
    simpl in H. destruct (IH _ _ H) as [H1 H2]. split.
    + intros m [<-|Hm]; [|auto].
      destruct (in_dec str_eq_dec metric rest) as [Hin|Hout]; [auto|].
      exists s, s'; repeat split; auto.
      rewrite (H2 _ Hout). apply getitem_setitem_same.
    + intros c Hc. rewrite H2 by tauto.
      apply getitem_setitem_other. tauto.
Qed.

Lemma normalize_loop_total (df : frame) (metrics : list str) :
  (forall m, In m metrics -> exists l, getitem df m = Ok (Numeric l)) ->
  forall df_norm, exists df', normalize_loop df metrics df_norm = Ok df'.
Proof.
  induction metrics as [|metric rest IH]; simpl; intros H df_norm; [eauto|].
  destruct (H metric (or_introl eq_refl)) as (l & ->); simpl.
  destruct (Qmin l), (Qmax l); try destruct (Qeq_bool _ 0); simpl; apply IH; auto.
Qed.

(** C7: [normalize_data] replaces every listed column, and no other, by
    its own rescaling [(v - min) / (max - min)], where [min] and [max] are
    the least and the greatest value of that column; when [max] equals
    [min] (all values equal, a single row included) every value of the
    column becomes 0, with no error; four values 5 become four values 0. *)
Theorem normalize_data_scales :
  (forall df metrics df',
      normalize_data df metrics = Ok df' ->
      (forall m, In m metrics ->
         exists s s', getitem df m = Ok s /\ normalize_column s = Ok s' /\
                      getitem df' m = Ok s') /\
      (forall c, ~ In c metrics -> getitem df' c = getitem df c)) /\
  (forall df metrics,
      (forall m, In m metrics -> exists l, getitem df m = Ok (Numeric l)) ->
      exists df', normalize_data df metrics = Ok df') /\
  (forall l min_val max_val,
      Qmin l = Some min_val -> Qmax l = Some max_val ->
      (In min_val (present l) /\ forall x, In x (present l) -> (min_val <= x)%Q) /\
      (In max_val (present l) /\ forall x, In x (present l) -> (x <= max_val)%Q) /\
      ((max_val == min_val)%Q ->
         normalize_column (Numeric l) = Ok (Numeric (map (fun _ => Some 0%Q) l))) /\
      (~ (max_val == min_val)%Q ->
         normalize_column (Numeric l) =
         Ok (Numeric (map (option_map (fun v =>
               Qred ((v - min_val) / (max_val - min_val)))) l)))) /\
  (forall l v,
      present l <> [] -> (forall x, In x (present l) -> (x == v)%Q) ->
      normalize_column (Numeric l) = Ok (Numeric (map (fun _ => Some 0%Q) l))) /\
  normalize_data [(u"平均单价", Numeric [Some 5%Q; Some 5%Q; Some 5%Q; Some 5%Q])]
                 [u"平均单价"]
  = Ok [(u"平均单价", Numeric [Some 0%Q; Some 0%Q; Some 0%Q; Some 0%Q])].
Proof.
  assert (B : forall l min_val max_val,
      Qmin l = Some min_val -> Qmax l = Some max_val ->
      ((max_val == min_val)%Q ->
         normalize_column (Numeric l) = Ok (Numeric (map (fun _ => Some 0%Q) l))) /\
      (~ (max_val == min_val)%Q ->
         normalize_column (Numeric l) =
         Ok (Numeric (map (option_map (fun v =>
               Qred ((v - min_val) / (max_val - min_val)))) l)))).
  { intros l mn mx Hmn Hmx; unfold normalize_column; rewrite Hmn, Hmx.
    destruct (Qeq_bool (mx - mn) 0) eqn:E; split; intros H; try reflexivity.
    - apply zero_range in E; contradiction.
    - apply zero_range in H; congruence. }
  split; [|split; [|split; [|split]]].
  - intros df metrics df' H; apply (normalize_loop_spec df metrics df df' H).
  - intros df metrics H; apply normalize_loop_total; assumption.
  - intros l mn mx Hmn Hmx.
    split; [now apply Qmin_least|]. split; [now apply Qmax_greatest|].
    now apply B.
  - intros l v Hne Hall.
    destruct (Qmin l) as [mn|] eqn:Hmn.
    2:{ unfold Qmin, extremum in Hmn. destruct (present l); [contradiction|discriminate]. }
    destruct (Qmax l) as [mx|] eqn:Hmx.
    2:{ unfold Qmax, extremum in Hmx. destruct (present l); [contradiction|discriminate]. }
    apply (B l mn mx Hmn Hmx).
    apply extremum_in in Hmn, Hmx.
    rewrite (Hall _ Hmn), (Hall _ Hmx); reflexivity.
  - reflexivity.
Qed.

Lemma normalize_data_scales_witness :
  normalize_column (Numeric [Some 7%Q]) = Ok (Numeric [Some 0%Q]) /\
  exists df',
    normalize_data [(u"平均单价", Numeric [Some 1%Q; None; Some 3%Q])]
                   [u"平均单价"] = Ok df'.
Proof.
  destruct normalize_data_scales as (_ & T & _ & E & _). split.
  - apply (E [Some 7%Q] 7%Q); [discriminate|].
    intros x [<-|[]]; reflexivity.
  - apply T. intros m [<-|[]]. eexists; reflexivity.
Defined.

End RadarChartSpec.
Module CleaningSpec.
Import Py Pandas Samples.
Local Open Scope py_scope.

Lemma astype_str_no_missing (number_repr : Q -> str) (s : series) :
  forallb is_some (cells (astype_str number_repr s)) = true.
Proof.
  destruct s as [l|l]; simpl; induction l as [|[x|] l IH]; simpl; auto.
Qed.

(** C2, on the code: a listing whose district is missing is not dropped;
    [astype(str)] has turned the missing value into the string ["nan"]
    before [dropna] looks at the column, and after [astype(str)] no cell
    of a column is missing any more.  The listing whose unit price is
    missing is dropped. *)
Theorem missing_district_kept_as_nan (parse_number : str -> option Q)
    (number_repr : Q -> str) (csv_file : str) :
  Heatmap.load_data parse_number number_repr csv_file (Loaded district_missing)
  = Ok (Some [(u"均价", Numeric [Some 100%Q]);
              (u"总价", Numeric [Some 200%Q]);
              (u"行政区", Object [Some u"nan"]);
              (u"类型", Object [Some u"住宅"])], []) /\
  AveragePricePerDistrict.load_data parse_number number_repr csv_file
    (Loaded district_missing)
  = Ok (Some [(u"均价", Numeric [Some 100%Q]);
              (u"总价", Numeric [Some 200%Q]);
              (u"行政区", Object [Some u"nan"]);
              (u"类型", Object [Some u"住宅"])], []) /\
  (forall s, forallb is_some (cells (astype_str number_repr s)) = true).
Proof.
  split; [reflexivity|]. split; [reflexivity|].
  apply astype_str_no_missing.
Qed.

End CleaningSpec.

Module AggregatorSpec.
Import Py Pandas Samples AveragePricePerDistrict.
Local Open Scope py_scope.

(** The table of the example of C8, as [load_data] leaves it. *)
Lemma three_listings_clean (parse_number : str -> option Q)
    (number_repr : Q -> str) (csv_file : str) :
  load_data parse_number number_repr csv_file (Loaded three_listings)
  = Ok (Some three_listings, []).
Proof. reflexivity. Qed.

(** The example of C8: A has mean 150 and count 2, B mean 50 and count 1. *)
Lemma three_listings_grouped :
  prepare_plot_data three_listings
  = Ok [(u"行政区", Object [Some u"A"; Some u"B"]);
        (u"平均单价", Numeric [Some 150%Q; Some 50%Q]);
        (u"平均总价", Numeric [Some 15%Q; Some 5%Q]);
        (u"楼盘数量", Numeric [Some 2%Q; Some 1%Q])].
Proof. reflexivity. Qed.

(** C8, on the code: the count of a group is the number of its rows that
    have a listing name, not the number of its rows.  The table below
    passes [load_data] unchanged; district A has two rows in it and the
    count 1. *)
Theorem count_skips_missing_names (parse_number : str -> option Q)
    (number_repr : Q -> str) (csv_file : str) :
  load_data parse_number number_repr csv_file (Loaded name_missing)
  = Ok (Some name_missing, []) /\
  prepare_plot_data name_missing
  = Ok [(u"行政区", Object [Some u"A"; Some u"B"]);
        (u"平均单价", Numeric [Some 150%Q; Some 50%Q]);
        (u"平均总价", Numeric [Some 15%Q; Some 5%Q]);
        (u"楼盘数量", Numeric [Some 1%Q; Some 1%Q])].
Proof. split; reflexivity. Qed.

End AggregatorSpec.
Module HeatmapSpec.
Import Py Pandas PyFacts PandasFacts Samples Heatmap.
Local Open Scope py_scope.

Lemma aggregate_mean (data : frame) (col : str) (l : list (option Q))
    (mask : list bool) :
  getitem data col = Ok (Numeric l) ->
  aggregate data col Mean mask = Ok (mean (select mask l)).
Proof. intros H; unfold aggregate; now rewrite H. Qed.

(** The grouped table of [compute_average_prices]. *)
Lemma grouped_by_district_and_type (data : frame) (sd st : series)
    (up tp : list (option Q)) :
  getitem data u"行政区" = Ok sd -> getitem data u"类型" = Ok st ->
  getitem data u"均价" = Ok (Numeric up) -> getitem data u"总价" = Ok (Numeric tp) ->
  let ks := group_keys [sd; st] (nrows data) in
  groupby_agg data [u"行政区"; u"类型"]
    [(u"平均单价", (u"均价", Mean)); (u"平均总价", (u"总价", Mean))]
  = Ok [(u"行政区", key_column sd ks 0); (u"类型", key_column st ks 1);
        (u"平均单价",
         Numeric (map (fun k => mean (select (members [sd; st] (nrows data) k) up)) ks));
        (u"平均总价",
         Numeric (map (fun k => mean (select (members [sd; st] (nrows data) k) tp)) ks))].
Proof.
  intros Hd Ht Hu Hp ks; unfold groupby_agg.
  cbn [mapM bind]. rewrite Hd, Ht. cbn [mapM bind].
  destruct (aggregated_columns_ok data [u"行政区"; u"类型"]
              [(u"平均单价", (u"均价", Mean)); (u"平均总价", (u"总价", Mean))])
    as (ss & Hss).
  { intros agg [<-|[<-|[]]]; (split; [vm_compute; reflexivity|]);
      cbn [fst snd]; eauto. }
  cbn [mapM bind] in Hss. rewrite Hss. cbn [bind]. fold ks.
  rewrite (mapM_ok _ (fun k => mean (select (members [sd; st] (nrows data) k) up)))
    by (intros; now apply aggregate_mean).
  cbn [bind].
  rewrite (mapM_ok _ (fun k => mean (select (members [sd; st] (nrows data) k) tp)))
    by (intros; now apply aggregate_mean).
  reflexivity.
Qed.

(** The pivot of a grouped table answers as its rows do. *)
Lemma pivot_grouped (grouped : frame) (i c val : str) (sd st : series) (n : nat)
    (v : key -> option Q) :
  let ks := group_keys [sd; st] n in
  getitem grouped i = Ok (key_column sd ks 0) ->
  getitem grouped c = Ok (key_column st ks 1) ->
  getitem grouped val = Ok (Numeric (map v ks)) ->
  exists p,
    pivot grouped i c val = Ok p /\
    index p = sort label_leb (distinct label_eqb (map (fun k => key_label sd k 0) ks)) /\
    columns p = sort label_leb (distinct label_eqb (map (fun k => key_label st k 1) ks)) /\
    forall a b,
      pivot_cell p a b
      = lookup_pair (map (fun k => (key_label sd k 0, key_label st k 1, v k)) ks) a b.
Proof.
  intros ks G1 G2 G3.
  unfold pivot; rewrite G1, G2, G3; cbn [bind].
  rewrite !cells_key_column, combine_map.
  rewrite (unique_map key_eqb pair_eqb).
  2:{ intros x y Hx Hy.
      destruct (group_key_shape sd st n x Hx) as (x1 & x2 & _ & -> & _ & _ & _ & -> & ->).
      destruct (group_key_shape sd st n y Hy) as (y1 & y2 & _ & -> & _ & _ & _ & -> & ->).
      unfold pair_eqb; simpl. now rewrite andb_true_r. }
  unfold ks at 1. rewrite group_keys_unique. cbn [negb].
  rewrite (combine_map (fun k => (key_label sd k 0, key_label st k 1)) v).
  eexists; split; [reflexivity|]. cbn [index columns].
  split; [reflexivity|]. split; [reflexivity|].
  intros a b.
  apply (pivot_cell_rows ks (fun k => key_label sd k 0) (fun k => key_label st k 1) v).
Qed.

(** What a lookup among the grouped rows returns. *)
Lemma grouped_lookup (sd st : series) (n : nat) (l : list (option Q))
    (ka kb : scalar) :
  let ks := group_keys [sd; st] n in
  lookup_pair
    (map (fun k => (key_label sd k 0, key_label st k 1,
                    mean (select (members [sd; st] n k) l))) ks)
    (Some ka) (Some kb)
  = mean (select (members [sd; st] n [ka; kb]) l).
Proof.
  intros ks.
  destruct (lookup_pair_cases
              (map (fun k => (key_label sd k 0, key_label st k 1,
                              mean (select (members [sd; st] n k) l))) ks)
              (Some ka) (Some kb)) as [[Hnone ->]|(r & Hr & Hm & ->)].
  - rewrite select_none; [reflexivity|].
    unfold members.
    apply forallb_forall; intros b Hb.
    apply in_map_iff in Hb; destruct Hb as (o & <- & Ho).
    destruct o as [k'|]; [|reflexivity].
    apply negb_true_iff. destruct (key_eqb k' [ka; kb]) eqn:E; [exfalso|reflexivity].
    apply in_map_iff in Ho; destruct Ho as (i & Hi & Hin). apply in_seq in Hin.
    destruct (group_keys_cover [sd; st] n i k' ltac:(lia) Hi) as (k & Hk & Ek).
    rewrite forallb_forall in Hnone.
    specialize (Hnone _ (in_map _ _ _ Hk)).
    destruct (group_key_shape sd st n k Hk) as (x & y & _ & -> & _ & _ & _ & Hx & Hy).
    unfold matches in Hnone; cbn [fst snd] in Hnone; rewrite Hx, Hy in Hnone.
    rewrite <- key_eqb_two in Hnone.
    rewrite (key_eqb_trans _ _ _ Ek E) in Hnone; discriminate.
  - apply in_map_iff in Hr; destruct Hr as (k & <- & Hk). cbn [snd].
    destruct (group_key_shape sd st n k Hk) as (x & y & _ & -> & _ & _ & _ & Hx & Hy).
    unfold matches in Hm; cbn [fst snd] in Hm; rewrite Hx, Hy in Hm.
    rewrite <- key_eqb_two in Hm.
    now rewrite (members_equiv [sd; st] n _ _ Hm).
Qed.

Lemma index_labels (sd st : series) (n : nat) (j : nat) (a : label) :
  let ks := group_keys [sd; st] n in
  In a (sort label_leb (distinct label_eqb
          (map (fun k => key_label (nth j [sd; st] sd) k j) ks))) ->
  (j < 2)%nat ->
  exists i x y, (i < n)%nat /\
    nth i (cells sd) None = Some x /\ nth i (cells st) None = Some y /\
    a = Some (nth j [x; y] x).
Proof.
  intros ks H Hj.
  apply (proj1 (In_sort label_leb a _)) in H.
  apply (In_distinct label_eqb label_leb) in H.
  apply in_map_iff in H; destruct H as (k & <- & Hk).
  destruct (group_key_shape sd st n k Hk) as (x & y & i & -> & Hi & Hx & Hy & Lx & Ly).
  exists i, x, y; repeat split; auto.
  destruct j as [|[|j]]; [exact Lx|exact Ly|lia].
Qed.

Lemma observed_labels (sd st : series) (n i : nat) (x y : scalar) :
  let ks := group_keys [sd; st] n in
  (i < n)%nat ->
  nth i (cells sd) None = Some x -> nth i (cells st) None = Some y ->
  (exists a, In a (sort label_leb (distinct label_eqb
                     (map (fun k => key_label sd k 0) ks))) /\
             label_eqb a (Some x) = true) /\
  (exists b, In b (sort label_leb (distinct label_eqb
                     (map (fun k => key_label st k 1) ks))) /\
             label_eqb b (Some y) = true).
Proof.
  intros ks Hi Hx Hy.
  destruct (group_keys_cover [sd; st] n i [x; y] Hi) as (k & Hk & Ek).
  { apply row_key_two; eauto. }
  destruct (group_key_shape sd st n k Hk) as (x' & y' & _ & -> & _ & _ & _ & Lx & Ly).
  rewrite key_eqb_two in Ek. apply andb_prop in Ek; destruct Ek as [Ex Ey].
  split.
  - destruct (distinct_covers label_eqb label_eqb_refl label_eqb_trans (Some x')
                (map (fun k => key_label sd k 0) ks)) as (a & Ha & Ea).
    { rewrite <- Lx. now apply (in_map (fun k => key_label sd k 0)). }
    exists a; split; [now apply In_sort|]. eapply label_eqb_trans; eauto.
  - destruct (distinct_covers label_eqb label_eqb_refl label_eqb_trans (Some y')
                (map (fun k => key_label st k 1) ks)) as (b & Hb & Eb).
    { rewrite <- Ly. now apply (in_map (fun k => key_label st k 1)). }
    exists b; split; [now apply In_sort|]. eapply label_eqb_trans; eauto.
Qed.

Lemma members_none (sd st : series) (n : nat) (ka kb : scalar) :
  (forall i, (i < n)%nat ->
     label_eqb (nth i (cells sd) None) (Some ka)
     && label_eqb (nth i (cells st) None) (Some kb) = false) ->
  forallb negb (members [sd; st] n [ka; kb]) = true.
Proof.
  intros H; unfold members, row_keys.
  apply forallb_forall; intros b Hb.
  apply in_map_iff in Hb; destruct Hb as (o & <- & Ho).
  apply in_map_iff in Ho; destruct Ho as (i & <- & Hin). apply in_seq in Hin.
  destruct (row_key [sd; st] i) as [k|] eqn:E; [|reflexivity].
  apply row_key_two in E; destruct E as (x & y & -> & Hx & Hy).
  rewrite key_eqb_two, <- Hx, <- Hy, H by lia. reflexivity.
Qed.

(** C9: the pivot tables of [compute_average_prices] are built without
    error; their row labels are the districts and their column labels the
    types of the rows that have both; the cell of a district and a type is
    the mean unit price (total price) of the rows of that district and
    type, and it is missing, not zero, when no row has that district with
    that type.  With district A seen with type X only, the cell (A, Y) is
    missing. *)
Theorem pivot_cells_mean_or_missing :
  (forall data sd st up tp,
    getitem data u"行政区" = Ok sd -> getitem data u"类型" = Ok st ->
    getitem data u"均价" = Ok (Numeric up) -> getitem data u"总价" = Ok (Numeric tp) ->
    exists pu pt,
      compute_average_prices data = Ok (pu, pt) /\
      index pt = index pu /\ columns pt = columns pu /\
      (forall a, In a (index pu) ->
         exists i x y, (i < nrows data)%nat /\
           nth i (cells sd) None = Some x /\ nth i (cells st) None = Some y /\
           a = Some x) /\
      (forall b, In b (columns pu) ->
         exists i x y, (i < nrows data)%nat /\
           nth i (cells sd) None = Some x /\ nth i (cells st) None = Some y /\
           b = Some y) /\
      (forall i x y, (i < nrows data)%nat ->
         nth i (cells sd) None = Some x -> nth i (cells st) None = Some y ->
         (exists a, In a (index pu) /\ label_eqb a (Some x) = true) /\
         (exists b, In b (columns pu) /\ label_eqb b (Some y) = true)) /\
      (forall ka kb,
         pivot_cell pu (Some ka) (Some kb)
         = mean (select (members [sd; st] (nrows data) [ka; kb]) up) /\
         pivot_cell pt (Some ka) (Some kb)
         = mean (select (members [sd; st] (nrows data) [ka; kb]) tp)) /\
      (forall ka kb,
         (forall i, (i < nrows data)%nat ->
            label_eqb (nth i (cells sd) None) (Some ka)
            && label_eqb (nth i (cells st) None) (Some kb) = false) ->
         pivot_cell pu (Some ka) (Some kb) = None /\
         pivot_cell pt (Some ka) (Some kb) = None)) /\
  (exists pu pt,
     compute_average_prices sparse_types = Ok (pu, pt) /\
     pivot_cell pu (Some (SStr u"A")) (Some (SStr u"X")) = Some 100%Q /\
     pivot_cell pu (Some (SStr u"A")) (Some (SStr u"Y")) = None /\
     pivot_cell pu (Some (SStr u"B")) (Some (SStr u"Y")) = Some 50%Q).
Proof.
  split.
  - intros data sd st up tp Hd Ht Hu Hp.
    unfold compute_average_prices.
    rewrite (grouped_by_district_and_type data sd st up tp Hd Ht Hu Hp).
    cbn [bind].
    set (n := nrows data). set (ks := group_keys [sd; st] n).
    set (grouped := [(u"行政区", key_column sd ks 0); _; _; _]).
    destruct (pivot_grouped grouped u"行政区" u"类型" u"平均单价" sd st n
                (fun k => mean (select (members [sd; st] n k) up))
                eq_refl eq_refl eq_refl) as (pu & Epu & Iu & Cu & Lu).
    destruct (pivot_grouped grouped u"行政区" u"类型" u"平均总价" sd st n
                (fun k => mean (select (members [sd; st] n k) tp))
                eq_refl eq_refl eq_refl) as (pt & Ept & It & Ct & Lt).
    fold ks in Epu, Ept, Iu, Cu, It, Ct, Lu, Lt.
    rewrite Epu; cbn [bind]. rewrite Ept; cbn [bind].
    exists pu, pt. split; [reflexivity|].
    split; [congruence|]. split; [congruence|].
    split; [|split; [|split; [|split]]].
    + intros a Ha; rewrite Iu in Ha.
      destruct (index_labels sd st n 0 a Ha ltac:(lia)) as (i & x & y & H1 & H2 & H3 & H4).
      exists i, x, y; auto.
    + intros b Hb; rewrite Cu in Hb.
      destruct (index_labels sd st n 1 b Hb ltac:(lia)) as (i & x & y & H1 & H2 & H3 & H4).
      exists i, x, y; auto.
    + intros i x y Hi Hx Hy; rewrite Iu, Cu.
      now apply (observed_labels sd st n i x y).
    + intros ka kb; rewrite Lu, Lt. split; apply grouped_lookup.
    + intros ka kb H; rewrite Lu, Lt.
      rewrite !(grouped_lookup sd st n).
      rewrite !select_none by now apply members_none.
      split; reflexivity.
  - eexists; eexists. split; [vm_compute; reflexivity|].
    repeat split; vm_compute; reflexivity.
Qed.

Lemma pivot_cells_mean_or_missing_witness :
  exists pu pt,
    compute_average_prices sparse_types = Ok (pu, pt) /\
    pivot_cell pu (Some (SStr u"A")) (Some (SStr u"Y")) = None.
Proof.
  destruct (proj1 pivot_cells_mean_or_missing sparse_types
              (Object [Some u"A"; Some u"B"; Some u"B"])
              (Object [Some u"X"; Some u"X"; Some u"Y"])
              [Some 100%Q; Some 200%Q; Some 50%Q]
              [Some 10%Q; Some 20%Q; Some 5%Q]
              eq_refl eq_refl eq_refl eq_refl)
    as (pu & pt & E & _ & _ & _ & _ & _ & _ & N).
  exists pu, pt; split; [exact E|].
  apply (N (SStr u"A") (SStr u"Y")).
  intros i Hi. change (nrows sparse_types) with 3%nat in Hi.
  destruct i as [|[|[|i]]]; [reflexivity|reflexivity|reflexivity|lia].
Defined.

End HeatmapSpec.

(* ================================================================== *)
(** * Further properties of preprocessing.py                            *)
(* ================================================================== *)

Module MatcherFacts.
Import Py Preprocessing PyFacts PreprocessingVocabulary.
Local Open Scope py_scope.

Lemma match_number_shorter (s tok r : str) :
  match_number s = Some (tok, r) -> (List.length r < List.length s)%nat.
Proof.
  intros H; apply match_number_spec in H; destruct H as (_ & -> & Hne).
  rewrite length_app. destruct tok; [contradiction|simpl; lia].
Qed.

(** Enough fuel is enough. *)
Lemma findall_from_fuel (f1 : nat) :
  forall f2 s, (List.length s <= f1)%nat -> (List.length s <= f2)%nat ->
               findall_from f1 s = findall_from f2 s.
Proof.
  induction f1 as [|f1 IH]; intros f2 s H1 H2.
  - destruct s; [|simpl in H1; lia]. now destruct f2.
  - destruct s as [|c s']; [now destruct f2|].
    destruct f2 as [|f2]; [simpl in H2; lia|].
    cbn [findall_from].
    destruct (match_number (c :: s')) as [[tok r]|] eqn:E.
    + apply match_number_shorter in E. simpl in *.
      f_equal; apply IH; lia.
    + simpl in *; apply IH; lia.
Qed.

Lemma span_digits_sep (a b : str) (c : N) :
  is_digit c = false ->
  span_digits (a ++ c :: b)
  = (fst (span_digits a), snd (span_digits a) ++ c :: b).
Proof.
  intros Hc; induction a as [|x a IH]; simpl.
  - now rewrite Hc.
  - destruct (is_digit x); [|reflexivity].
    rewrite IH. now destruct (span_digits a).
Qed.

Lemma match_number_sep (a b : str) (c : N) :
  separator c = true ->
  match_number (a ++ c :: b)
  = match match_number a with
    | Some (tok, r) => Some (tok, r ++ c :: b)
    | None => None
    end.
Proof.
  unfold separator; intros H; apply andb_prop in H; destruct H as [Hd Hp].
  apply negb_true_iff in Hd, Hp.
  unfold match_number. rewrite span_digits_sep by assumption.
  destruct (span_digits a) as [ds1 r1] eqn:Ea; cbn [fst snd].
  destruct ds1 as [|d ds1]; [reflexivity|].
  destruct (span_digits_spec _ _ _ Ea) as (_ & _ & Hr1).
  destruct r1 as [|x r1]; cbn [app].
  - rewrite Hp. cbn [span_digits]. rewrite Hd. reflexivity.
  - destruct (N.eqb x dot).
    + rewrite span_digits_sep by assumption.
      now destruct (span_digits r1).
    + rewrite Hr1.
      change (x :: r1 ++ c :: b) with ((x :: r1) ++ c :: b).
      rewrite span_digits_sep by assumption. rewrite Hr1. reflexivity.
Qed.

Lemma findall_from_sep (c : N) (b : str) :
  separator c = true ->
  forall n a, (List.length a <= n)%nat ->
    findall_from (n + S (List.length b)) (a ++ c :: b)
    = findall_from n a ++ findall_from (List.length b) b.
Proof.
  intros Hc. pose proof Hc as Hc'. unfold separator in Hc'.
  apply andb_prop in Hc'; destruct Hc' as [Hd _]. apply negb_true_iff in Hd.
  induction n as [|n IH]; intros a Ha.
  - destruct a; [|simpl in Ha; lia].
    cbn [app Nat.add findall_from].
    now rewrite (match_number_no_digit c b Hd).
  - destruct a as [|x a].
    + cbn [app]. replace (S n + S (List.length b))%nat
        with (S (n + S (List.length b))) by lia.
      cbn [findall_from]. rewrite (match_number_no_digit c b Hd).
      apply findall_from_fuel; lia.
    + replace (S n + S (List.length b))%nat
        with (S (n + S (List.length b))) by lia.
      change ((x :: a) ++ c :: b) with (x :: (a ++ c :: b)).
      cbn [findall_from].
      change (x :: (a ++ c :: b)) with ((x :: a) ++ c :: b).
      rewrite (match_number_sep (x :: a) b c Hc).
      destruct (match_number (x :: a)) as [[tok r]|] eqn:E.
      * apply match_number_shorter in E. simpl in E, Ha.
        rewrite IH by lia. reflexivity.
      * simpl in Ha. apply IH; lia.
Qed.

Lemma space_separator (c : N) : is_space c = true -> separator c = true.
Proof.
  intros H; unfold separator.
  destruct (is_digit c) eqn:Hd.
  - rewrite (digit_not_space c Hd) in H; discriminate.
  - destruct (N.eqb_spec c dot) as [->|]; [|reflexivity].
    vm_compute in H; discriminate.
Qed.

Lemma findall_number_cons_sep (c : N) (s : str) :
  separator c = true -> findall_number (c :: s) = findall_number s.
Proof.
  unfold separator; intros H; apply andb_prop in H; destruct H as [Hd _].
  apply negb_true_iff in Hd.
  unfold findall_number; cbn [List.length findall_from].
  now rewrite (match_number_no_digit c s Hd).
Qed.

Lemma findall_number_sep (a b : str) (c : N) :
  separator c = true ->
  findall_number (a ++ c :: b) = findall_number a ++ findall_number b.
Proof.
  intros Hc; unfold findall_number.
  rewrite <- (findall_from_sep c b Hc (List.length a) a (le_n _)).
  apply findall_from_fuel; rewrite length_app; simpl; lia.
Qed.

Lemma findall_number_blanks (pre s suf : str) :
  forallb is_space pre = true -> forallb is_space suf = true ->
  findall_number (pre ++ s ++ suf) = findall_number s.
Proof.
  intros Hpre Hsuf.
  induction pre as [|c pre IH]; simpl.
  - clear Hpre. induction suf as [|c suf IH] using rev_ind;
      [now rewrite app_nil_r|].
    rewrite forallb_app in Hsuf; apply andb_prop in Hsuf.
    destruct Hsuf as [Hs Hc]; simpl in Hc; rewrite andb_true_r in Hc.
    rewrite app_assoc, (findall_number_sep (s ++ suf) [] c (space_separator c Hc)).
    rewrite app_nil_r. auto.
  - simpl in Hpre; apply andb_prop in Hpre; destruct Hpre as [Hc Hpre].
    rewrite findall_number_cons_sep by now apply space_separator.
    auto.
Qed.

Lemma lstrip_split (sp : N -> bool) (s : str) :
  exists pre, s = pre ++ lstrip sp s /\ forallb sp pre = true.
Proof.
  induction s as [|c s IH]; simpl; [exists []; auto|].
  destruct (sp c) eqn:E; [|exists []; auto].
  destruct IH as (pre & Hs & Hp).
  exists (c :: pre); simpl; rewrite E, Hp; split; [|reflexivity].
  f_equal; exact Hs.
Qed.

Lemma lstrip_clean (sp : N -> bool) (s : str) (c : N) (r : str) :
  lstrip sp s = c :: r -> sp c = false.
Proof.
  induction s as [|x s IH]; simpl; [discriminate|].
  destruct (sp x) eqn:E; [assumption|].
  intros H; injection H as <- _; assumption.
Qed.

Lemma strip_with_split (sp : N -> bool) (s : str) :
  exists pre suf,
    s = pre ++ strip_with sp s ++ suf /\
    forallb sp pre = true /\ forallb sp suf = true.
Proof.
  unfold strip_with.
  destruct (lstrip_split sp s) as (pre & Hs & Hpre).
  destruct (lstrip_split sp (rev (lstrip sp s))) as (suf & Hr & Hsuf).
  exists pre, (rev suf); repeat split; [|assumption|].
  - rewrite Hs at 1. f_equal.
    rewrite <- (rev_involutive (lstrip sp s)) at 1.
    rewrite Hr at 1. now rewrite rev_app_distr.
  - rewrite forallb_forall in Hsuf |- *.
    intros x Hx; apply Hsuf. now apply in_rev.
Qed.

(** What [strip] returns neither starts nor ends with a blank. *)
Lemma strip_with_ends (sp : N -> bool) (s : str) :
  (forall c r, strip_with sp s = c :: r -> sp c = false) /\
  (forall r c, strip_with sp s = r ++ [c] -> sp c = false).
Proof.
  unfold strip_with.
  set (t := lstrip sp s). set (w := lstrip sp (rev t)).
  assert (Hlast : forall r c, rev w = r ++ [c] -> sp c = false).
  { intros r c H. apply (f_equal (@rev N)) in H.
    rewrite rev_involutive, rev_app_distr in H; simpl in H.
    now apply (lstrip_clean sp (rev t) c (rev r)). }
  split; [|exact Hlast].
  intros c r H.
  destruct (lstrip_split sp (rev t)) as (pre & Hr & _). fold w in Hr.
  apply (f_equal (@rev N)) in Hr.
  rewrite rev_involutive, rev_app_distr, H in Hr. simpl in Hr.
  now apply (lstrip_clean sp s c ((r ++ rev pre))).
Qed.

Lemma strip_with_idempotent (sp : N -> bool) (s : str) :
  strip_with sp (strip_with sp s) = strip_with sp s.
Proof.
  destruct (strip_with_ends sp s) as [Hhd Hlast].
  destruct (strip_with sp s) as [|c r] eqn:E; [reflexivity|].
  destruct (exists_last (l := c :: r) ltac:(discriminate)) as (r' & c' & E').
  apply (strip_with_id sp c c' r r'); eauto.
Qed.

End MatcherFacts.

Module PreprocessingMore.
Import Py Preprocessing PyFacts PreprocessingFacts PreprocessingVocabulary MatcherFacts.
Local Open Scope py_scope.

(** X1: a character that is neither a digit nor the point separates the
    matches: the numbers of a text cut at such a character are those of
    the part before it followed by those of the part after it. *)
Theorem extract_number_separated (a b : str) (c : N) (na nb : list str) :
  separator c = true ->
  extract_number (VStr a) = Ok na -> extract_number (VStr b) = Ok nb ->
  extract_number (VStr (a ++ c :: b)) = Ok (na ++ nb).
Proof.
  intros Hc Ha Hb; apply Ok_inj in Ha, Hb; subst.
  unfold extract_number. now rewrite findall_number_sep.
Qed.

Lemma extract_number_separated_witness :
  extract_number (VStr (u"80" ++ 45%N :: u"100㎡")) = Ok ([u"80"] ++ [u"100"]).
Proof.
  apply (extract_number_separated u"80" u"100㎡" 45); reflexivity.
Defined.

(** X2: blanks around a text do not change the numbers found in it, so
    the stripping of [safe_get_str] never changes a number: the numbers
    of a stripped field are those of the field as it is in the record. *)
Theorem extract_number_strip (s : str) :
  extract_number (VStr (strip s)) = extract_number (VStr s) /\
  forall record key,
    dict_get record key (VStr []) = VStr s ->
    extract_number (VStr (safe_get_str record key)) = extract_number (VStr s).
Proof.
  assert (H : findall_number (strip s) = findall_number s).
  { destruct (strip_with_split is_space s) as (pre & suf & Hs & Hp & Hq).
    fold (strip s) in Hs. rewrite Hs at 2.
    symmetry; now apply findall_number_blanks. }
  split.
  - unfold extract_number; now rewrite H.
  - intros record key E; unfold safe_get_str; rewrite E.
    unfold extract_number; now rewrite H.
Qed.

Lemma extract_number_strip_witness :
  extract_number (VStr (safe_get_str [(u"area", VStr u"  75㎡ ")] u"area"))
  = extract_number (VStr u"  75㎡ ").
Proof.
  apply (proj2 (extract_number_strip u"  75㎡ ")). reflexivity.
Defined.

(** X3: the text [safe_get_str] returns neither starts nor ends with a
    blank, and stripping it again changes nothing. *)
Theorem safe_get_str_stripped (record : dict) (key : str) :
  let t := safe_get_str record key in
  strip t = t /\
  (forall c r, t = c :: r -> is_space c = false) /\
  (forall r c, t = r ++ [c] -> is_space c = false).
Proof.
  unfold safe_get_str.
  destruct (dict_get record key (VStr [])) as [| | | |s| |];
    try (split; [reflexivity|split; [discriminate|]];
         intros [|x r] c H; discriminate).
  split; [apply strip_with_idempotent|apply strip_with_ends].
Qed.

Lemma safe_get_str_stripped_witness :
  safe_get_str [(u"name", VStr u"  远洋 天著 ")] u"name" = u"远洋 天著" /\
  is_space 36828 = false /\ is_space 33879 = false.
Proof.
  destruct (safe_get_str_stripped [(u"name", VStr u"  远洋 天著 ")] u"name")
    as (_ & Hfirst & Hlast).
  split; [vm_compute; reflexivity|]. split.
  - apply (Hfirst 36828%N [27915; 32; 22825; 33879]%N). vm_compute; reflexivity.
  - apply (Hlast [36828; 27915; 32; 22825]%N 33879%N). vm_compute; reflexivity.
Defined.

Lemma dict_lookup_set_same (d : dict) (k : str) (v : value) :
  dict_lookup (dict_set d k v) k = Some v.
Proof.
  induction d as [|[k' v'] d IH]; simpl.
  - now rewrite str_eqb_refl.
  - destruct (str_eqb k' k) eqn:E; simpl; rewrite E; auto.
Qed.

Lemma dict_lookup_set_other (d : dict) (k k' : str) (v : value) :
  k <> k' -> dict_lookup (dict_set d k v) k' = dict_lookup d k'.
Proof.
  intros Hne.
  assert (Hkk : str_eqb k k' = false).
  { destruct (str_eqb k k') eqn:E; [|reflexivity].
    apply str_eqb_eq in E; contradiction. }
  induction d as [|[x v'] d IH]; simpl.
  - now rewrite Hkk.
  - destruct (str_eqb x k) eqn:E; simpl.
    + apply str_eqb_eq in E; subst x. now rewrite Hkk.
    + now rewrite IH.
Qed.

Lemma dict_get_ext (r1 r2 : dict) (k : str) (d : value) :
  dict_lookup r1 k = dict_lookup r2 k -> dict_get r1 k d = dict_get r2 k d.
Proof. unfold dict_get; now intros ->. Qed.

Lemma safe_get_str_ext (r1 r2 : dict) (k : str) :
  dict_lookup r1 k = dict_lookup r2 k -> safe_get_str r1 k = safe_get_str r2 k.
Proof. intros H; unfold safe_get_str; now rewrite (dict_get_ext r1 r2 k _ H). Qed.

Lemma avg_room_ext (r1 r2 : dict) :
  dict_lookup r1 u"room" = dict_lookup r2 u"room" -> avg_room r1 = avg_room r2.
Proof. intros H; unfold avg_room; now rewrite (dict_get_ext r1 r2 _ _ H). Qed.

Lemma avg_area_ext (r1 r2 : dict) :
  dict_lookup r1 u"area" = dict_lookup r2 u"area" -> avg_area r1 = avg_area r2.
Proof. intros H; unfold avg_area; now rewrite (safe_get_str_ext r1 r2 _ H). Qed.

Lemma first_price_ext (r1 r2 : dict) (k : str) :
  dict_lookup r1 k = dict_lookup r2 k -> first_price r1 k = first_price r2 k.
Proof. intros H; unfold first_price; now rewrite (safe_get_str_ext r1 r2 _ H). Qed.

(** X4: [process_record] reads seven keys of the record and nothing else:
    two records that agree on them give the same result, the same row or
    the same exception. *)
Theorem process_record_reads_seven_keys (r1 r2 : dict) :
  (forall k, In k record_keys -> dict_lookup r1 k = dict_lookup r2 k) ->
  process_record r1 = process_record r2.
Proof.
  intros H.
  assert (Hk : forall k, In k record_keys -> dict_lookup r1 k = dict_lookup r2 k)
    by exact H.
  unfold record_keys in Hk.
  rewrite !process_record_unfold.
  rewrite (avg_room_ext r1 r2), (avg_area_ext r1 r2),
    (first_price_ext r1 r2 u"total_price"), (first_price_ext r1 r2 u"unit_price"),
    (safe_get_str_ext r1 r2 u"name"), (safe_get_str_ext r1 r2 u"type"),
    (dict_get_ext r1 r2 u"location")
    by (apply Hk; simpl; tauto).
  reflexivity.
Qed.

Lemma process_record_reads_seven_keys_witness :
  process_record [(u"area", VStr u"75㎡"); (u"id", VInt 7)]
  = process_record [(u"area", VStr u"75㎡")].
Proof.
  apply process_record_reads_seven_keys.
  intros k Hk; simpl in Hk.
  repeat (destruct Hk as [<-|Hk]; [reflexivity|]). contradiction.
Defined.

Lemma collect_room_numbers_strings (rooms : list value) (acc : list float) :
  collect_room_numbers (filter is_str rooms) acc = collect_room_numbers rooms acc.
Proof.
  revert acc; induction rooms as [|room rooms IH]; intros acc; [reflexivity|].
  destruct room; cbn [filter is_str collect_room_numbers]; auto.
  destruct (extract_number (VStr s)) as [[|t ts]|]; cbn [bind]; auto.
  destruct (mapM float_of_str (t :: ts)); cbn [bind]; auto.
Qed.

Lemma location_value_firstn (l : list value) (i : nat) :
  (i < 3)%nat -> location_value (firstn 3 l) i = location_value l i.
Proof.
  intros Hi; unfold location_value.
  rewrite nth_error_firstn.
  apply Nat.ltb_lt in Hi; now rewrite Hi.
Qed.

(** X5: of the location list only the first three entries count, and of
    the room list only the entries that are strings: cutting the one and
    filtering the other in the record leaves the result unchanged. *)
Theorem process_record_ignores_the_rest :
  (forall record l,
      dict_lookup record u"location" = Some (VList l) ->
      process_record (dict_set record u"location" (VList (firstn 3 l)))
      = process_record record) /\
  (forall record rooms,
      dict_lookup record u"room" = Some (VList rooms) ->
      process_record (dict_set record u"room" (VList (filter is_str rooms)))
      = process_record record).
Proof.
  split.
  - intros record l H.
    rewrite !process_record_unfold.
    rewrite (avg_room_ext _ record), (avg_area_ext _ record),
      (first_price_ext _ record u"total_price"),
      (first_price_ext _ record u"unit_price"),
      (safe_get_str_ext _ record u"name"), (safe_get_str_ext _ record u"type")
      by (apply dict_lookup_set_other; discriminate).
    unfold dict_get. rewrite dict_lookup_set_same, H. cbn [as_list]. cbv zeta.
    now rewrite !location_value_firstn by lia.
  - intros record rooms H.
    rewrite !process_record_unfold.
    rewrite (avg_area_ext _ record),
      (first_price_ext _ record u"total_price"),
      (first_price_ext _ record u"unit_price"),
      (safe_get_str_ext _ record u"name"), (safe_get_str_ext _ record u"type"),
      (dict_get_ext _ record u"location")
      by (apply dict_lookup_set_other; discriminate).
    replace (avg_room (dict_set record u"room" (VList (filter is_str rooms))))
      with (avg_room record); [reflexivity|].
    unfold avg_room, dict_get. rewrite dict_lookup_set_same, H. cbn [as_list].
    now rewrite collect_room_numbers_strings.
Qed.

Lemma process_record_ignores_the_rest_witness :
  process_record
    (dict_set [(u"location", VList [VStr u"朝阳"; VStr u"望京"; VStr u"A"; VStr u"B"])]
              u"location"
              (VList (firstn 3 [VStr u"朝阳"; VStr u"望京"; VStr u"A"; VStr u"B"])))
  = process_record [(u"location", VList [VStr u"朝阳"; VStr u"望京"; VStr u"A"; VStr u"B"])].
Proof.
  apply (proj1 process_record_ignores_the_rest). reflexivity.
Defined.

End PreprocessingMore.

Module BatchSpec.
Import Py Preprocessing PyFacts PreprocessingFacts Batch.
Local Open Scope py_scope.

Lemma writerow_cells (row : dict) :
  normalized_row row ->
  writerow fieldnames row
  = (if forallb cell_encodable (map snd row) then Ok (map snd row)
     else Raise UnicodeEncodeError) /\
  List.length (map snd row) = 9%nat.
Proof.
  intros (v1 & v2 & v3 & v4 & v5 & v6 & v7 & v8 & v9 & -> & _).
  split; reflexivity.
Qed.

Lemma writerow_normalized (row : dict) :
  normalized_row row -> forallb cell_encodable (map snd row) = true ->
  writerow fieldnames row = Ok (map snd row) /\ List.length (map snd row) = 9%nat.
Proof.
  intros Hn He. destruct (writerow_cells row Hn) as [-> Hl].
  now rewrite He.
Qed.

Lemma snoc_app {A} (l : list A) (x : A) (m : list A) :
  (l ++ [x]) ++ m = l ++ x :: m.
Proof. now rewrite <- app_assoc. Qed.

Lemma In_records_cons (v : value) (pre : list value) (d : dict) :
  In d (records pre) -> In d (records (v :: pre)).
Proof. intros H; unfold records; simpl. apply in_or_app; now right. Qed.

Lemma In_skipped_cons (v w : value) (pre : list value) :
  In w (skipped pre) -> In w (skipped (v :: pre)).
Proof.
  unfold skipped; simpl. intros H.
  destruct v; simpl; auto.
Qed.

(** The loop over entries whose records all convert and can be written,
    and whose other entries can be printed. *)
Lemma write_records_prefix (value_str : value -> str) (pre : list value) :
  (forall d, In d (records pre) ->
     conversions_finite d = true /\ writable d = true) ->
  (forall v, In v (skipped pre) -> encodable (skip_line value_str v) = true) ->
  exists new_rows,
    Forall2 row_of (records pre) new_rows /\
    forall rest rows lines,
      write_records value_str (pre ++ rest) rows lines
      = write_records value_str rest (rows ++ new_rows)
          (lines ++ map (skip_line value_str) (skipped pre)).
Proof.
  induction pre as [|v pre IH]; intros H Hs.
  - exists []; split; [constructor|].
    intros; simpl; now rewrite !app_nil_r.
  - destruct IH as (new_rows & HF & Hw).
    { intros d Hd; apply H. now apply In_records_cons. }
    { intros w Hw; apply Hs. now apply In_skipped_cons. }
    destruct v as [| | | | | |d].
    7:{ destruct (H d) as [Hfin Hwr]; [unfold records; simpl; now left|].
        destruct (process_record_returns d Hfin) as (row & Hrow & Hn).
        unfold writable in Hwr; rewrite Hrow in Hwr.
        destruct (writerow_normalized row Hn Hwr) as [Hrw _].
        exists (map snd row :: new_rows); split.
        - unfold records; simpl. constructor; [|exact HF].
          exists row; auto.
        - intros rest rows lines; cbn [app write_records skipped filter].
          rewrite Hrow, Hrw, Hw. f_equal. apply snoc_app. }
    all: exists new_rows; split; [exact HF|].
    all: intros rest rows lines.
    all: cbn [app write_records skipped filter map].
    all: rewrite Hs by (unfold skipped; simpl; now left).
    all: rewrite Hw; f_equal; apply snoc_app.
Qed.

(** X6: when every record of the input converts and its row can be
    encoded, and the lines of the other entries can be printed,
    [json_to_csv] writes the header and then one row of nine cells for
    each entry that is a dict, in the order of the input; it prints one
    line for each other entry, in order, and raises nothing.  An input
    that is not a list is treated as the list of that one entry. *)
Theorem json_to_csv_rows_in_order (value_str : value -> str) (l : list value) :
  (forall d, In d (records l) ->
     conversions_finite d = true /\ writable d = true) ->
  (forall v, In v (skipped l) -> encodable (skip_line value_str v) = true) ->
  (exists rows,
     Forall2 row_of (records l) rows /\
     Forall (fun cells => List.length cells = 9%nat) rows /\
     json_to_csv value_str (Parsed (VList l))
     = {| written := Some (header :: rows);
          printed := map (skip_line value_str) (skipped l);
          raised := None |}) /\
  (forall data, not_a_list data = true ->
     json_to_csv value_str (Parsed data)
     = json_to_csv value_str (Parsed (VList [data]))).
Proof.
  intros H Hs. split.
  - destruct (write_records_prefix value_str l H Hs) as (rows & HF & Hw).
    exists rows; split; [exact HF|]. split.
    + clear Hw H Hs. induction HF as [|d cells ds rows Hrow _ IH].
      * constructor.
      * constructor; [|exact IH].
        destruct Hrow as (row & _ & Hn & ->).
        now destruct (writerow_cells row Hn).
    + unfold json_to_csv; cbn [entries].
      specialize (Hw [] [header] []). rewrite app_nil_r in Hw.
      rewrite Hw. reflexivity.
  - intros data Hd. destruct data; try discriminate; reflexivity.
Qed.

Lemma json_to_csv_rows_in_order_witness :
  exists rows,
    Forall2 row_of [[(u"area", VStr u"75㎡")]; [(u"name", VStr u"甲")]] rows /\
    json_to_csv (fun _ => u"?")
      (Parsed (VList [VDict [(u"area", VStr u"75㎡")]; VInt 3;
                      VDict [(u"name", VStr u"甲")]]))
    = {| written := Some (header :: rows);
         printed := [skip_line (fun _ => u"?") (VInt 3)];
         raised := None |}.
Proof.
  destruct (json_to_csv_rows_in_order (fun _ => u"?")
              [VDict [(u"area", VStr u"75㎡")]; VInt 3;
               VDict [(u"name", VStr u"甲")]])
    as ((rows & HF & _ & E) & _).
  - intros d [<-|[<-|[]]]; split; vm_compute; reflexivity.
  - intros v [<-|[]]; vm_compute; reflexivity.
  - exists rows; split; [exact HF|exact E].
Defined.

(** X7: an entry that raises ends the conversion there: the rows of the
    entries before it are already written, nothing is written or printed
    for it or for the entries after it, and the exception leaves
    [json_to_csv].  The entry is a record on which [process_record]
    raises, a record whose row cannot be encoded, or another entry whose
    line cannot be printed. *)
Theorem json_to_csv_stops_at_raise (value_str : value -> str)
    (pre post : list value) :
  (forall d, In d (records pre) ->
     conversions_finite d = true /\ writable d = true) ->
  (forall v, In v (skipped pre) -> encodable (skip_line value_str v) = true) ->
  exists rows,
    Forall2 row_of (records pre) rows /\
    (forall d e,
       process_record d = Raise e ->
       json_to_csv value_str (Parsed (VList (pre ++ VDict d :: post)))
       = {| written := Some (header :: rows);
            printed := map (skip_line value_str) (skipped pre);
            raised := Some e |}) /\
    (forall d,
       conversions_finite d = true -> writable d = false ->
       json_to_csv value_str (Parsed (VList (pre ++ VDict d :: post)))
       = {| written := Some (header :: rows);
            printed := map (skip_line value_str) (skipped pre);
            raised := Some UnicodeEncodeError |}) /\
    (forall v,
       is_record v = false -> encodable (skip_line value_str v) = false ->
       json_to_csv value_str (Parsed (VList (pre ++ v :: post)))
       = {| written := Some (header :: rows);
            printed := map (skip_line value_str) (skipped pre);
            raised := Some UnicodeEncodeError |}).
Proof.
  intros H Hs.
  destruct (write_records_prefix value_str pre H Hs) as (rows & HF & Hw).
  exists rows; split; [exact HF|]. split; [|split].
  - intros d e Hd. unfold json_to_csv; cbn [entries]. rewrite Hw.
    cbn [write_records]. now rewrite Hd.
  - intros d Hfin Hwr. unfold json_to_csv; cbn [entries]. rewrite Hw.
    destruct (process_record_returns d Hfin) as (row & Hrow & Hn).
    unfold writable in Hwr; rewrite Hrow in Hwr.
    cbn [write_records]. rewrite Hrow.
    destruct (writerow_cells row Hn) as [-> _]. now rewrite Hwr.
  - intros v Hv He. unfold json_to_csv; cbn [entries]. rewrite Hw.
    destruct v; cbn [write_records]; try (now rewrite He).
    discriminate.
Qed.

Lemma json_to_csv_stops_at_raise_witness :
  exists rows,
    Forall2 row_of [[(u"area", VStr u"75㎡")]] rows /\
    json_to_csv (fun _ => u"?")
      (Parsed (VList ([VDict [(u"area", VStr u"75㎡")]]
                      ++ VDict [(u"total_price", VStr (49%N :: repeat 48%N 309))]
                      :: [VDict [(u"name", VStr u"甲")]])))
    = {| written := Some (header :: rows); printed := [];
         raised := Some OverflowError |} /\
    json_to_csv (fun _ => u"?")
      (Parsed (VList ([VDict [(u"area", VStr u"75㎡")]]
                      ++ VDict [(u"name", VStr [55296%N])]
                      :: [VDict [(u"name", VStr u"甲")]])))
    = {| written := Some (header :: rows); printed := [];
         raised := Some UnicodeEncodeError |}.
Proof.
  destruct (json_to_csv_stops_at_raise (fun _ => u"?")
              [VDict [(u"area", VStr u"75㎡")]] [VDict [(u"name", VStr u"甲")]])
    as (rows & HF & H1 & H2 & _).
  - intros d [<-|[]]; split; vm_compute; reflexivity.
  - intros v [].
  - exists rows. split; [exact HF|]. split.
    + apply H1. vm_compute; reflexivity.
    + apply H2; vm_compute; reflexivity.
Defined.

End BatchSpec.

(* ================================================================== *)
(** * More about the loaders                                            *)
(* ================================================================== *)

Module LoaderMore.
Import Py Pandas PyFacts PandasFacts Loader TableVocabulary.
Local Open Scope py_scope.

Lemma column_names_setitem (df : frame) (col : str) (s : series) :
  has_column df col = true ->
  column_names (setitem df col s) = column_names df.
Proof.
  unfold has_column, column_names.
  induction df as [|[c s0] df IH]; simpl; [discriminate|].
  destruct (str_eqb col c) eqn:E; simpl.
  - apply str_eqb_eq in E; subst c. now rewrite str_eqb_refl.
  - intros H. destruct (str_eqb c col) eqn:E'; simpl; [reflexivity|].
    now rewrite IH.
Qed.

Lemma has_column_names (df df' : frame) (col : str) :
  column_names df' = column_names df -> has_column df' col = has_column df col.
Proof. unfold has_column; now intros ->. Qed.

Lemma in_existsb (c : str) (cols : list str) :
  existsb (str_eqb c) cols = true <-> In c cols.
Proof.
  rewrite existsb_exists; split.
  - intros (x & Hx & E); apply str_eqb_eq in E; now subst.
  - intros H; exists c; split; [assumption|apply str_eqb_refl].
Qed.

(** What the loop of conversions leaves in every column. *)
Lemma convert_spec (f : series -> series) (cols : list str) :
  (forall s, f (f s) = f s) ->
  forall data,
    (forall c, In c cols -> has_column data c = true) ->
    exists data',
      convert f cols data = Ok data' /\
      column_names data' = column_names data /\
      forall c s, getitem data c = Ok s ->
        getitem data' c = Ok (if existsb (str_eqb c) cols then f s else s).
Proof.
  intros Hf; induction cols as [|col rest IH]; intros data H.
  - exists data; simpl; auto.
  - cbn [convert].
    destruct (proj1 (has_column_getitem data col) (H col (or_introl eq_refl)))
      as (s0 & Hs0).
    rewrite Hs0; cbn [bind].
    assert (Hn : column_names (setitem data col (f s0)) = column_names data).
    { apply column_names_setitem, H; now left. }
    destruct (IH (setitem data col (f s0))) as (data' & Hc & Hnames & Hget).
    { intros c Hc; rewrite (has_column_names _ _ _ Hn); apply H; now right. }
    exists data'; split; [exact Hc|]. split; [congruence|].
    intros c s Hs. cbn [existsb].
    destruct (str_eqb c col) eqn:E; cbn [orb].
    + apply str_eqb_eq in E; subst c.
      assert (s = s0) by congruence; subst s0.
      rewrite (Hget col (f s) (getitem_setitem_same _ _ _)).
      destruct (existsb (str_eqb col) rest); [now rewrite Hf|reflexivity].
    + apply Hget. rewrite getitem_setitem_other; [assumption|].
      apply str_eqb_neq in E; congruence.
Qed.

Lemma to_numeric_idempotent (parse_number : str -> option Q) (s : series) :
  to_numeric parse_number (to_numeric parse_number s) = to_numeric parse_number s.
Proof. now destruct s. Qed.

Lemma astype_str_idempotent (number_repr : Q -> str) (s : series) :
  astype_str number_repr (astype_str number_repr s) = astype_str number_repr s.
Proof.
  destruct s as [l|l]; simpl; f_equal; rewrite map_map; apply map_ext;
    now intros [x|].
Qed.

Lemma mapM_getitem (df : frame) (cols : list str) :
  (forall c, In c cols -> has_column df c = true) ->
  exists ss, mapM (getitem df) cols = Ok ss /\
             forall c s, In c cols -> getitem df c = Ok s -> In s ss.
Proof.
  induction cols as [|col rest IH]; intros H.
  - exists []; split; [reflexivity|]. intros c s [].
  - destruct (proj1 (has_column_getitem df col) (H col (or_introl eq_refl)))
      as (s0 & Hs0).
    destruct IH as (ss & Hss & Hin); [intros; apply H; now right|].
    exists (s0 :: ss); cbn [mapM bind]; rewrite Hs0; cbn [bind]; rewrite Hss.
    split; [reflexivity|].
    intros c s [<-|Hc] Hs; [left; congruence|right; eauto].
Qed.

Lemma mapM_getitem_ok (df : frame) (cols : list str) (ss : list series) :
  mapM (getitem df) cols = Ok ss ->
  forall c, In c cols -> has_column df c = true.
Proof.
  revert ss; induction cols as [|col rest IH]; intros ss H c; [intros []|].
  cbn [mapM bind] in H.
  destruct (getitem df col) as [s0|] eqn:E; [|discriminate]. cbn [bind] in H.
  destruct (mapM (getitem df) rest) as [ss'|] eqn:E'; [|discriminate].
  intros [<-|Hc]; [apply has_column_getitem; eauto|eapply IH; eauto].
Qed.

Lemma getitem_map (g : series -> series) (df : frame) (c : str) (s : series) :
  getitem df c = Ok s ->
  getitem (map (fun '(c, s) => (c, g s)) df) c = Ok (g s).
Proof.
  induction df as [|[c0 s0] df IH]; simpl; [discriminate|].
  destruct (str_eqb c0 c); [congruence|assumption].
Qed.

Lemma column_names_map (g : series -> series) (df : frame) :
  column_names (map (fun '(c, s) => (c, g s)) df) = column_names df.
Proof.
  unfold column_names; rewrite map_map; apply map_ext; now intros [c s].
Qed.

Lemma select_map {A B} (g : A -> B) (mask : list bool) (l : list A) :
  select mask (map g l) = map g (select mask l).
Proof.
  revert l; induction mask as [|b mask IH]; intros [|x l]; simpl; auto.
  destruct b; simpl; now rewrite IH.
Qed.

Lemma cells_select_series (mask : list bool) (s : series) :
  cells (select_series mask s) = select mask (cells s).
Proof. destruct s; simpl; now rewrite select_map. Qed.

Lemma select_kept {A} (p : A -> bool) (d : A) (mask : list bool) (l : list A) :
  (forall i, nth i mask false = true -> p (nth i l d) = true) ->
  forallb p (select mask l) = true.
Proof.
  revert l; induction mask as [|b mask IH]; intros [|x l] H; simpl; auto.
  assert (H' : forall i, nth i mask false = true -> p (nth i l d) = true).
  { intros i; apply (H (S i)). }
  destruct b; simpl; [|auto].
  pose proof (H O eq_refl) as H0; simpl in H0.
  rewrite H0, (IH l H'); reflexivity.
Qed.

Lemma notna_mask_true (cols : list series) (n i : nat) (s : series) :
  nth i (notna_mask cols n) false = true -> In s cols ->
  is_some (nth i (cells s) None) = true.
Proof.
  unfold notna_mask; intros H Hs.
  destruct (Nat.lt_ge_cases i n) as [Hi|Hi].
  - rewrite (nth_indep _ false (forallb (fun s => is_some (nth 0 (cells s) None)) cols)) in H
      by (rewrite length_map, length_seq; exact Hi).
    rewrite (map_nth (fun i => forallb (fun s => is_some (nth i (cells s) None)) cols))
      in H.
    rewrite seq_nth in H by exact Hi. simpl in H.
    rewrite forallb_forall in H; auto.
  - rewrite nth_overflow in H; [discriminate|].
    rewrite length_map, length_seq; exact Hi.
Qed.

Lemma length_select {A B} (mask : list bool) (l : list A) (l' : list B) :
  List.length l = List.length l' ->
  List.length (select mask l) = List.length (select mask l').
Proof.
  revert l l'; induction mask as [|b mask IH]; intros [|x l] [|y l'] H;
    simpl in *; try discriminate; auto.
  destruct b; simpl; auto.
Qed.

Lemma length_select_le {A} (mask : list bool) (l : list A) :
  (List.length (select mask l) <= List.length l)%nat.
Proof.
  revert l; induction mask as [|b mask IH]; intros [|x l]; simpl; try lia.
  specialize (IH l). destruct b; simpl; lia.
Qed.

Lemma size_select_series (mask : list bool) (s s' : series) :
  size s = size s' -> size (select_series mask s) = size (select_series mask s').
Proof.
  unfold size; rewrite !cells_select_series. apply length_select.
Qed.

Lemma size_to_numeric (parse_number : str -> option Q) (s : series) :
  size (to_numeric parse_number s) = size s.
Proof. destruct s; unfold size; simpl; now rewrite !length_map. Qed.

Lemma size_astype_str (number_repr : Q -> str) (s : series) :
  size (astype_str number_repr s) = size s.
Proof. destruct s; unfold size; simpl; now rewrite !length_map. Qed.

(** The three steps of a successful load, column by column. *)
Lemma load_table_columns (parse_number : str -> option Q) (number_repr : Q -> str)
    (required numeric categorical subset : list str) (csv_file : str)
    (data cleaned : frame) (out : list str) :
  load_table parse_number number_repr required numeric categorical subset
             csv_file (Loaded data) = Ok (Some cleaned, out) ->
  out = [] /\
  missing_column required data = None /\
  column_names cleaned = column_names data /\
  exists mask,
    (forall c s, getitem data c = Ok s ->
       let s1 := if existsb (str_eqb c) numeric
                 then to_numeric parse_number s else s in
       let s2 := if existsb (str_eqb c) categorical
                 then astype_str number_repr s1 else s1 in
       getitem cleaned c = Ok (select_series mask s2) /\
       (In c subset -> complete (select_series mask s2) = true)) /\
    (forall c, In c subset -> has_column data c = true).
Proof.
  unfold load_table.
  destruct (missing_column required data) as [col|] eqn:Hm; [discriminate|].
  destruct (convert (to_numeric parse_number) numeric data) as [d1|] eqn:H1;
    [|discriminate]. cbn [bind].
  destruct (convert (astype_str number_repr) categorical d1) as [d2|] eqn:H2;
    [|discriminate]. cbn [bind].
  unfold dropna.
  destruct (mapM (getitem d2) subset) as [cols|] eqn:H3; [|discriminate].
  cbn [bind]. intros H; apply Ok_inj in H.
  assert (Hc : cleaned = map (fun '(c, s) =>
                 (c, select_series (notna_mask cols (nrows d2)) s)) d2)
    by congruence.
  assert (Ho : out = []) by congruence. clear H.
  assert (P1 : forall c, In c numeric -> has_column data c = true).
  { clear - H1. revert data d1 H1.
    induction numeric as [|col rest IH]; intros data d1 H c; [intros []|].
    cbn [convert] in H.
    destruct (getitem data col) as [s0|] eqn:E; [|discriminate]. cbn [bind] in H.
    assert (Hh : has_column data col = true) by (apply has_column_getitem; eauto).
    intros [<-|Hin]; [assumption|].
    rewrite <- (has_column_names data (setitem data col (to_numeric parse_number s0)))
      by now apply column_names_setitem.
    eapply IH; eauto. }
  destruct (convert_spec (to_numeric parse_number) numeric
              (to_numeric_idempotent parse_number) data P1) as (d1' & E1 & N1 & G1).
  assert (d1' = d1) by congruence; subst d1'.
  assert (P2 : forall c, In c categorical -> has_column d1 c = true).
  { clear - H2. revert d1 d2 H2.
    induction categorical as [|col rest IH]; intros data d1 H c; [intros []|].
    cbn [convert] in H.
    destruct (getitem data col) as [s0|] eqn:E; [|discriminate]. cbn [bind] in H.
    assert (Hh : has_column data col = true) by (apply has_column_getitem; eauto).
    intros [<-|Hin]; [assumption|].
    rewrite <- (has_column_names data (setitem data col (astype_str number_repr s0)))
      by now apply column_names_setitem.
    eapply IH; eauto. }
  destruct (convert_spec (astype_str number_repr) categorical
              (astype_str_idempotent number_repr) d1 P2) as (d2' & E2 & N2 & G2).
  assert (d2' = d2) by congruence; subst d2'.
  split; [exact Ho|]. split; [reflexivity|]. split.
  { subst cleaned; rewrite column_names_map; congruence. }
  exists (notna_mask cols (nrows d2)). split.
  - intros c s Hs.
    match goal with
    | |- getitem _ _ = Ok (select_series _ ?x) /\ _ => set (s2 := x)
    end.
    assert (Hs2 : getitem d2 c = Ok s2) by (apply G2, G1, Hs).
    split.
    + subst cleaned. now apply getitem_map.
    + intros Hin. unfold complete. rewrite cells_select_series.
      apply (select_kept is_some None). intros i Hi.
      apply (notna_mask_true cols (nrows d2) i s2 Hi).
      destruct (mapM_getitem d2 subset (mapM_getitem_ok d2 subset cols H3))
        as (ss & Hss & Hall).
      assert (ss = cols) by congruence; subst ss. eauto.
  - intros c Hin.
    rewrite <- (has_column_names data d1 c N1).
    rewrite <- (has_column_names d1 d2 c N2).
    eapply mapM_getitem_ok; eauto.
Qed.

Lemma missing_column_none (required : list str) (data : frame) :
  missing_column required data = None <->
  forall c, In c required -> has_column data c = true.
Proof.
  induction required as [|col rest IH]; simpl.
  - split; [intros _ c []|reflexivity].
  - destruct (has_column data col) eqn:E.
    + rewrite IH; split; [intros H c [<-|Hc]; auto|auto].
    + split; [discriminate|].
      intros H; rewrite (H col (or_introl eq_refl)) in E; discriminate.
Qed.

Lemma load_table_total (parse_number : str -> option Q) (number_repr : Q -> str)
    (required numeric categorical subset : list str) (csv_file : str)
    (r : read_result) :
  incl numeric required -> incl categorical required -> incl subset required ->
  exists res,
    load_table parse_number number_repr required numeric categorical subset
               csv_file r = Ok res /\
    (is_some (fst res) = true <-> accepted required r) /\
    List.length (snd res) = if is_some (fst res) then 0%nat else 1%nat.
Proof.
  intros Hn Hc Hs.
  destruct r as [| |e|data]; cbn [load_table];
    try (eexists; split; [reflexivity|]; split; [|reflexivity];
         split; [discriminate|intros (d & Hd & _); discriminate]).
  destruct (missing_column required data) as [col|] eqn:Hm.
  - eexists; split; [reflexivity|]; split; [|reflexivity].
    split; [discriminate|]. intros (d & Hd & Hall).
    injection Hd as <-. apply missing_column_none in Hall; congruence.
  - pose proof (proj1 (missing_column_none required data) Hm) as Hall.
    destruct (convert_spec (to_numeric parse_number) numeric
                (to_numeric_idempotent parse_number) data)
      as (d1 & E1 & N1 & _); [auto|].
    destruct (convert_spec (astype_str number_repr) categorical
                (astype_str_idempotent number_repr) d1)
      as (d2 & E2 & N2 & _).
    { intros c Hin; rewrite (has_column_names data d1 c N1); auto. }
    destruct (mapM_getitem d2 subset) as (cols & E3 & _).
    { intros c Hin. rewrite (has_column_names d1 d2 c N2).
      rewrite (has_column_names data d1 c N1); auto. }
    rewrite E1; cbn [bind]. rewrite E2; cbn [bind].
    unfold dropna; rewrite E3; cbn [bind].
    eexists; split; [reflexivity|]; split; [|reflexivity].
    split; [|reflexivity]. intros _; exists data; auto.
Qed.

(** X8: whatever [read_csv] did, one of the three errors that [load_data]
    catches or a table, [load_data] raises nothing.  It returns a table
    exactly when the file was read and has every required column, and
    then it prints nothing; in every other case it returns [None] after
    printing one line.  This holds for the loader of each of the three
    scripts. *)
Theorem load_data_table_iff_accepted (parse_number : str -> option Q)
    (number_repr : Q -> str)
    (load : str -> read_result -> exc (option frame * list str))
    (required : list str) :
  In (load, required)
     [(AveragePricePerDistrict.load_data parse_number number_repr,
       AveragePricePerDistrict.required_columns);
      (RadarChart.load_data parse_number number_repr, RadarChart.required_columns);
      (Heatmap.load_data parse_number number_repr, Heatmap.required_columns)] ->
  forall csv_file r,
    exists res,
      load csv_file r = Ok res /\
      (is_some (fst res) = true <-> accepted required r) /\
      List.length (snd res) = if is_some (fst res) then 0%nat else 1%nat.
Proof.
  intros [E|[E|[E|[]]]] csv_file r; injection E as <- <-;
    apply load_table_total; intros c Hc; simpl in Hc |- *; tauto.
Qed.

Lemma load_data_table_iff_accepted_witness :
  exists res,
    Heatmap.load_data (fun _ => None) (fun _ => []) u"data.csv"
      (Loaded [(u"均价", Numeric [Some 100%Q]); (u"总价", Numeric [Some 5%Q]);
               (u"行政区", Object [Some u"朝阳"])]) = Ok res /\
    (is_some (fst res) = true <->
     accepted Heatmap.required_columns
       (Loaded [(u"均价", Numeric [Some 100%Q]); (u"总价", Numeric [Some 5%Q]);
                (u"行政区", Object [Some u"朝阳"])])) /\
    List.length (snd res) = if is_some (fst res) then 0%nat else 1%nat.
Proof.
  apply (load_data_table_iff_accepted (fun _ => None) (fun _ => [])
           (Heatmap.load_data (fun _ => None) (fun _ => []))
           Heatmap.required_columns).
  right; right; left; reflexivity.
Defined.

Lemma complete_numeric (l : list (option Q)) :
  complete (Numeric l) = true -> exists xs, l = map Some xs.
Proof.
  unfold complete; simpl. induction l as [|[x|] l IH]; simpl; intros H.
  - now exists [].
  - destruct (IH H) as (xs & ->). now exists (x :: xs).
  - discriminate.
Qed.

Lemma is_numeric_select (mask : list bool) (s : series) :
  is_numeric (select_series mask s) = is_numeric s.
Proof. now destruct s. Qed.

(** X9: in a table that [load_data] returns, no cell is missing in the
    columns given to [dropna]; such a column is numeric when it was
    converted with [to_numeric] and not with [astype(str)], and it holds
    strings when it was converted with [astype(str)]. *)
Theorem load_data_no_missing_cell (parse_number : str -> option Q)
    (number_repr : Q -> str)
    (required numeric categorical subset : list str) (csv_file : str)
    (r : read_result) (cleaned : frame) (out : list str) :
  load_table parse_number number_repr required numeric categorical subset
             csv_file r = Ok (Some cleaned, out) ->
  forall c, In c subset ->
    exists s,
      getitem cleaned c = Ok s /\ complete s = true /\
      (In c categorical -> is_numeric s = false) /\
      (In c numeric -> ~ In c categorical ->
         exists xs, s = Numeric (map Some xs)).
Proof.
  intros H c Hc.
  destruct r as [| |e|data]; try discriminate.
  destruct (load_table_columns _ _ _ _ _ _ _ _ _ _ H)
    as (_ & _ & _ & mask & Hcol & Hsub).
  destruct (proj1 (has_column_getitem data c) (Hsub c Hc)) as (s & Hs).
  destruct (Hcol c s Hs) as (Hget & Hcomplete).
  eexists; split; [exact Hget|]. split; [auto|]. split.
  - intros Hcat. apply in_existsb in Hcat; rewrite Hcat.
    rewrite is_numeric_select.
    now destruct (if existsb (str_eqb c) numeric then _ else _).
  - intros Hnum Hcat.
    assert (E : existsb (str_eqb c) categorical = false).
    { destruct (existsb (str_eqb c) categorical) eqn:E; [|reflexivity].
      apply in_existsb in E; contradiction. }
    specialize (Hcomplete Hc). rewrite E in Hcomplete |- *.
    apply in_existsb in Hnum; rewrite Hnum in Hcomplete |- *.
    destruct s as [l|l]; simpl in Hcomplete |- *.
    + destruct (complete_numeric _ Hcomplete) as (xs & ->); eauto.
    + destruct (complete_numeric _ Hcomplete) as (xs & ->); eauto.
Qed.

Lemma load_data_no_missing_cell_witness :
  exists s,
    getitem [(u"均价", Numeric [Some 100%Q]); (u"总价", Numeric [Some 200%Q]);
             (u"行政区", Object [Some u"nan"]);
             (u"类型", Object [Some u"住宅"])] u"均价" = Ok s /\
    complete s = true.
Proof.
  destruct (load_data_no_missing_cell
              (fun _ => None) (fun _ => [])
              AveragePricePerDistrict.required_columns
              [u"均价"; u"总价"] [u"行政区"] [u"均价"; u"总价"; u"行政区"]
              u"data.csv" (Loaded Samples.district_missing)
              [(u"均价", Numeric [Some 100%Q]); (u"总价", Numeric [Some 200%Q]);
               (u"行政区", Object [Some u"nan"]);
               (u"类型", Object [Some u"住宅"])] []
              ltac:(vm_compute; reflexivity) u"均价" (or_introl eq_refl))
    as (s & Hs & Hc & _).
  exists s; split; assumption.
Defined.

Lemma rectangular_setitem (df : frame) (col : str) (s : series) (n : nat) :
  rectangular df n -> size s = n -> rectangular (setitem df col s) n.
Proof.
  unfold rectangular; intros H Hs.
  induction df as [|[c s0] df IH]; simpl.
  - now constructor.
  - inversion H; subst.
    destruct (str_eqb c col); constructor; auto.
Qed.

Lemma rectangular_getitem (df : frame) (col : str) (s : series) (n : nat) :
  rectangular df n -> getitem df col = Ok s -> size s = n.
Proof.
  unfold rectangular; induction df as [|[c s0] df IH]; simpl; [discriminate|].
  intros H; inversion H; subst.
  destruct (str_eqb c col); [intros E; apply Ok_inj in E; now subst|auto].
Qed.

Lemma rectangular_convert (f : series -> series) (cols : list str) (n : nat) :
  (forall s, size (f s) = size s) ->
  forall data data',
    rectangular data n -> convert f cols data = Ok data' ->
    rectangular data' n /\ column_names data' = column_names data.
Proof.
  intros Hf; induction cols as [|col rest IH]; intros data data' Hr H.
  - apply Ok_inj in H; subst; auto.
  - cbn [convert] in H.
    destruct (getitem data col) as [s0|] eqn:E; [|discriminate]. cbn [bind] in H.
    destruct (IH _ _ (rectangular_setitem data col (f s0) n Hr
                        (eq_trans (Hf s0) (rectangular_getitem _ _ _ _ Hr E))) H)
      as (Hr' & Hn).
    split; [assumption|]. rewrite Hn. apply column_names_setitem.
    apply has_column_getitem; eauto.
Qed.

(** X10: the table that [load_data] returns has the columns of the file,
    under the same names and in the same order; and when every column of
    the file has [n] cells, every column of the result has one and the
    same number of cells, at most [n]. *)
Theorem load_data_keeps_shape (parse_number : str -> option Q)
    (number_repr : Q -> str)
    (required numeric categorical subset : list str) (csv_file : str)
    (data cleaned : frame) (out : list str) :
  load_table parse_number number_repr required numeric categorical subset
             csv_file (Loaded data) = Ok (Some cleaned, out) ->
  column_names cleaned = column_names data /\
  forall n, rectangular data n ->
    exists m, (m <= n)%nat /\ rectangular cleaned m.
Proof.
  intros H. split.
  { now destruct (load_table_columns _ _ _ _ _ _ _ _ _ _ H) as (_ & _ & Hn & _). }
  intros n Hr. unfold load_table in H.
  destruct (missing_column required data); [discriminate|].
  destruct (convert (to_numeric parse_number) numeric data) as [d1|] eqn:H1;
    [|discriminate]. cbn [bind] in H.
  destruct (convert (astype_str number_repr) categorical d1) as [d2|] eqn:H2;
    [|discriminate]. cbn [bind] in H.
  unfold dropna in H.
  destruct (mapM (getitem d2) subset) as [cols|]; [|discriminate].
  cbn [bind] in H. apply Ok_inj in H.
  destruct (rectangular_convert _ numeric n (size_to_numeric parse_number)
              _ _ Hr H1) as (Hr1 & _).
  destruct (rectangular_convert _ categorical n (size_astype_str number_repr)
              _ _ Hr1 H2) as (Hr2 & _).
  set (mask := notna_mask cols (nrows d2)) in H.
  exists (List.length (select mask (repeat tt n))). split.
  - rewrite <- (repeat_length tt n) at 2. apply length_select_le.
  - assert (E : cleaned = map (fun '(c, s) => (c, select_series mask s)) d2)
      by congruence.
    subst cleaned. unfold rectangular in *.
    clearbody mask. clear - Hr2.
    induction Hr2 as [|[c s] df Hs _ IH]; simpl.
    + constructor.
    + constructor; [|exact IH].
      cbn [snd] in *. unfold size in *. rewrite cells_select_series.
      apply length_select. now rewrite repeat_length.
Qed.

Lemma load_data_keeps_shape_witness :
  column_names [(u"均价", Numeric [Some 100%Q]); (u"总价", Numeric [Some 200%Q]);
                (u"行政区", Object [Some u"nan"]);
                (u"类型", Object [Some u"住宅"])]
  = column_names Samples.district_missing.
Proof.
  apply (load_data_keeps_shape
           (fun _ => None) (fun _ => [])
           AveragePricePerDistrict.required_columns
           [u"均价"; u"总价"] [u"行政区"] [u"均价"; u"总价"; u"行政区"]
           u"data.csv" Samples.district_missing
           [(u"均价", Numeric [Some 100%Q]); (u"总价", Numeric [Some 200%Q]);
            (u"行政区", Object [Some u"nan"]);
            (u"类型", Object [Some u"住宅"])] []).
  vm_compute; reflexivity.
Defined.

End LoaderMore.

(* ================================================================== *)
(** * More about the grouped tables                                     *)
(* ================================================================== *)

Module AggregatorMore.
Import Py Pandas PyFacts PandasFacts Loader TableVocabulary LoaderMore.
Import AveragePricePerDistrict.
Local Open Scope py_scope.

(** ** Insertion sort puts every element before the next *)

Section Chains.
Context {A : Type} (leb : A -> A -> bool).
Hypothesis leb_total : forall x y, leb x y = true \/ leb y x = true.

Lemma chain_cons (x y : A) (l : list A) :
  chain leb (x :: y :: l) = leb x y && chain leb (y :: l).
Proof. reflexivity. Qed.

Lemma chain_insert_sorted (x : A) (l : list A) :
  chain leb l = true -> chain leb (insert_sorted leb x l) = true.
Proof.
  induction l as [|y l IH]; intros H; [reflexivity|].
  cbn [insert_sorted]. destruct (leb x y) eqn:E.
  - now rewrite chain_cons, E, H.
  - assert (Hyx : leb y x = true) by (destruct (leb_total x y); congruence).
    destruct l as [|z l].
    + cbn [insert_sorted]. now rewrite chain_cons, Hyx.
    + rewrite chain_cons in H. apply andb_prop in H; destruct H as [Hyz Hl].
      specialize (IH Hl). cbn [insert_sorted] in IH |- *.
      destruct (leb x z).
      * now rewrite chain_cons, Hyx, IH.
      * now rewrite chain_cons, Hyz, IH.
Qed.

Lemma chain_sort (l : list A) : chain leb (sort leb l) = true.
Proof.
  induction l as [|x l IH]; [reflexivity|].
  cbn [sort fold_right]. now apply chain_insert_sorted.
Qed.

End Chains.

Lemma chain_map {A B} (R : B -> B -> bool) (f : A -> B) (l : list A) :
  chain R (map f l) = chain (fun a b => R (f a) (f b)) l.
Proof.
  induction l as [|x [|y l] IH]; try reflexivity.
  change (chain R (f x :: map f (y :: l))
          = R (f x) (f y) && chain (fun a b => R (f a) (f b)) (y :: l)).
  rewrite <- IH. reflexivity.
Qed.

Lemma Qle_bool_total (x y : Q) : Qle_bool x y = true \/ Qle_bool y x = true.
Proof.
  destruct (Qlt_le_dec x y) as [H|H].
  - left; apply Qle_bool_iff, Qlt_le_weak, H.
  - right; apply Qle_bool_iff, H.
Qed.

Lemma desc_leb_total (a b : option Q * nat) :
  desc_leb a b = true \/ desc_leb b a = true.
Proof.
  unfold desc_leb; destruct (fst a) as [x|], (fst b) as [y|]; auto.
  destruct (Qle_bool_total x y); auto.
Qed.

Lemma length_insert_sorted {A} (leb : A -> A -> bool) (x : A) (l : list A) :
  List.length (insert_sorted leb x l) = S (List.length l).
Proof.
  induction l as [|y l IH]; [reflexivity|].
  cbn [insert_sorted]. destruct (leb x y); simpl; auto.
Qed.

Lemma length_sort {A} (leb : A -> A -> bool) (l : list A) :
  List.length (sort leb l) = List.length l.
Proof.
  induction l as [|x l IH]; [reflexivity|].
  change (sort leb (x :: l)) with (insert_sorted leb x (sort leb l)).
  rewrite length_insert_sorted, IH. reflexivity.
Qed.

Lemma In_combine_seq {A} (d : A) (l : list A) (s : nat) (x : A) (i : nat) :
  In (x, i) (combine l (seq s (List.length l))) ->
  (s <= i)%nat /\ nth (i - s) l d = x.
Proof.
  revert s; induction l as [|y l IH]; intros s; simpl; [intros []|].
  intros [E|H].
  - injection E as -> ->. now rewrite Nat.sub_diag.
  - destruct (IH _ H) as (Hle & Hn). split; [lia|].
    replace (i - s)%nat with (S (i - S s)) by lia. exact Hn.
Qed.

Lemma insert_sorted_permutation {A} (leb : A -> A -> bool) (x : A) (l : list A) :
  Permutation (insert_sorted leb x l) (x :: l).
Proof.
  induction l as [|y l IH]; [reflexivity|].
  cbn [insert_sorted]. destruct (leb x y); [reflexivity|].
  rewrite IH. apply perm_swap.
Qed.

Lemma sort_permutation {A} (leb : A -> A -> bool) (l : list A) :
  Permutation (sort leb l) l.
Proof.
  induction l as [|x l IH]; [reflexivity|].
  change (sort leb (x :: l)) with (insert_sorted leb x (sort leb l)).
  rewrite insert_sorted_permutation. now constructor.
Qed.

Lemma map_snd_combine_seq {A} (l : list A) (s : nat) :
  map snd (combine l (seq s (List.length l))) = seq s (List.length l).
Proof.
  revert s; induction l as [|x l IH]; intros s; [reflexivity|].
  cbn [List.length seq combine map snd]. now rewrite IH.
Qed.

(** The routine that keeps equal values in their order is a sorting
    routine. *)
Lemma stable_argsort_sorts : sorts_descending stable_argsort.
Proof.
  intros l. unfold stable_argsort. split.
  - rewrite <- (map_snd_combine_seq l 0) at 2.
    apply Permutation_map, sort_permutation.
  - rewrite map_map.
    rewrite (map_ext_in _ fst).
    + unfold descending. rewrite chain_map.
      apply (chain_sort desc_leb desc_leb_total).
    + intros [x i] H. apply (proj1 (In_sort _ _ _)) in H.
      apply (In_combine_seq None) in H. destruct H as (_ & H).
      now rewrite Nat.sub_0_r in H.
Qed.

Lemma getitem_take (df : frame) (rows : list nat) (col : str) (s : series) :
  getitem df col = Ok s -> getitem (take df rows) col = Ok (take_series rows s).
Proof. apply (getitem_map (take_series rows)). Qed.

Lemma size_take_series (rows : list nat) (s : series) :
  size (take_series rows s) = List.length rows.
Proof. destruct s; unfold size; simpl; now rewrite !length_map. Qed.

Lemma size_key_column (s : series) (ks : list key) (j : nat) :
  size (key_column s ks j) = List.length ks.
Proof. unfold size; now rewrite cells_key_column, length_map. Qed.

(** ** One grouping column *)

Lemma aggregate_aggregated (df : frame) (col : str) (h : how) (mask : list bool) :
  (exists s, getitem df col = Ok s /\ (h = Mean -> is_numeric s = true)) ->
  aggregate df col h mask = Ok (aggregated df col h mask).
Proof.
  intros (s & Hs & Hn); unfold aggregated, aggregate; rewrite Hs; cbn [bind].
  destruct h, s; try reflexivity. specialize (Hn eq_refl); discriminate.
Qed.

(** The table of [groupby(by).agg(...).reset_index()]: the column of the
    group labels, then one column for every aggregation. *)
Lemma groupby_one_column (data : frame) (by_name : str) (sd : series)
    (aggs : list (str * (str * how))) :
  getitem data by_name = Ok sd ->
  (forall name col h, In (name, (col, h)) aggs ->
     str_eqb col by_name = false /\
     exists s, getitem data col = Ok s /\ (h = Mean -> is_numeric s = true)) ->
  let n := nrows data in
  let ks := group_keys [sd] n in
  groupby_agg data [by_name] aggs
  = Ok ((by_name, key_column sd ks 0)
        :: map (fun '(name, (col, h)) =>
                  (name, Numeric (map (fun k => aggregated data col h
                                                  (members [sd] n k)) ks)))
               aggs).
Proof.
  intros Hsd Haggs n ks. unfold groupby_agg.
  cbn [mapM bind]. rewrite Hsd. cbn [mapM bind].
  destruct (aggregated_columns_ok data [by_name] aggs) as (ss & Hss).
  { intros [name [col h]] Hin. destruct (Haggs name col h Hin) as (E & s & Hs & _).
    cbn [fst snd existsb]. rewrite E. eauto. }
  rewrite Hss. cbn [bind]. fold n. fold ks.
  rewrite (mapM_ok _ (fun '(name, (col, h)) =>
             (name, Numeric (map (fun k => aggregated data col h
                                             (members [sd] n k)) ks)))).
  - reflexivity.
  - intros [name [col h]] Hin.
    rewrite (mapM_ok _ (fun k => aggregated data col h (members [sd] n k))).
    + reflexivity.
    + intros k _. apply aggregate_aggregated.
      destruct (Haggs name col h Hin) as (_ & Hs). exact Hs.
Qed.

Lemma getitem_cons_same (c : str) (s : series) (df : frame) :
  getitem ((c, s) :: df) c = Ok s.
Proof. cbn [getitem]. now rewrite str_eqb_refl. Qed.

Lemma getitem_cons_other (c col : str) (s : series) (df : frame) :
  str_eqb c col = false -> getitem ((c, s) :: df) col = getitem df col.
Proof. intros E; cbn [getitem]. now rewrite E. Qed.

Lemma rectangular_take (df : frame) (rows : list nat) :
  rectangular (take df rows) (List.length rows).
Proof.
  unfold rectangular, take. apply Forall_forall. intros [c s] H.
  apply in_map_iff in H. destruct H as ([c0 s0] & E & _).
  injection E as <- <-. apply size_take_series.
Qed.

(** The table that [prepare_plot_data] sorts. *)
Lemma grouped_by_district (data : frame) (sd nm : series)
    (up tp : list (option Q)) :
  getitem data u"行政区" = Ok sd ->
  getitem data u"均价" = Ok (Numeric up) ->
  getitem data u"总价" = Ok (Numeric tp) ->
  getitem data u"楼盘名称" = Ok nm ->
  let n := nrows data in
  let ks := group_keys [sd] n in
  let column col h := Numeric (map (fun k => aggregated data col h (members [sd] n k)) ks) in
  groupby_agg data [u"行政区"]
    [(u"平均单价", (u"均价", Mean)); (u"平均总价", (u"总价", Mean));
     (u"楼盘数量", (u"楼盘名称", Count))]
  = Ok [(u"行政区", key_column sd ks 0);
        (u"平均单价", column u"均价" Mean);
        (u"平均总价", column u"总价" Mean);
        (u"楼盘数量", column u"楼盘名称" Count)].
Proof.
  intros Hsd Hup Htp Hnm n ks column.
  rewrite (groupby_one_column data u"行政区" sd _ Hsd); [reflexivity|].
  intros name col h [E|[E|[E|[]]]]; injection E as <- <- <-;
    (split; [vm_compute; reflexivity|]);
    eexists; (split; [eassumption|]); try reflexivity.
  discriminate.
Qed.

Lemma getitem_absent (df : frame) (col : str) :
  has_column df col = false -> getitem df col = Raise KeyError.
Proof.
  intros H. destruct (getitem df col) as [s|e] eqn:E.
  - rewrite (proj2 (has_column_getitem df col)) in H by eauto. discriminate.
  - clear H. induction df as [|[c s] df IH]; simpl in E.
    + congruence.
    + destruct (str_eqb c col); [discriminate|auto].
Qed.

Lemma nrows_rectangular (df : frame) (n : nat) (col : str) :
  rectangular df n -> has_column df col = true -> nrows df = n.
Proof.
  intros H Hc. destruct df as [|[c s] df]; [discriminate|].
  inversion H; subst. reflexivity.
Qed.

Lemma complete_first_cell (s : series) :
  complete s = true -> size s <> O -> exists x, nth 0 (cells s) None = Some x.
Proof.
  unfold complete, size. destruct (cells s) as [|[x|] l]; simpl.
  - intros _ H; now elim H.
  - eauto.
  - discriminate.
Qed.

Lemma to_numeric_numeric (parse_number : str -> option Q) (s : series) :
  exists l, to_numeric parse_number s = Numeric l.
Proof. destruct s; simpl; eauto. Qed.

(** The columns that the loader of the bar chart converts. *)
Lemma bar_chart_table_columns (parse_number : str -> option Q)
    (number_repr : Q -> str) (csv_file : str) (data cleaned : frame) :
  load_data parse_number number_repr csv_file (Loaded data)
  = Ok (Some cleaned, []) ->
  (exists up, getitem cleaned u"均价" = Ok (Numeric up)) /\
  (exists tp, getitem cleaned u"总价" = Ok (Numeric tp)) /\
  (exists sd, getitem cleaned u"行政区" = Ok sd /\ complete sd = true) /\
  column_names cleaned = column_names data.
Proof.
  intros Hload.
  destruct (load_table_columns _ _ _ _ _ _ _ _ _ _ Hload)
    as (_ & _ & Hnames & mask & Hcol & Hsub).
  assert (B1 : existsb (str_eqb u"均价") [u"均价"; u"总价"] = true)
    by (vm_compute; reflexivity).
  assert (B2 : existsb (str_eqb u"均价") [u"行政区"] = false)
    by (vm_compute; reflexivity).
  assert (B3 : existsb (str_eqb u"总价") [u"均价"; u"总价"] = true)
    by (vm_compute; reflexivity).
  assert (B4 : existsb (str_eqb u"总价") [u"行政区"] = false)
    by (vm_compute; reflexivity).
  split; [|split; [|split; [|exact Hnames]]].
  - destruct (proj1 (has_column_getitem data u"均价")) as (s & Hs);
      [apply Hsub; simpl; tauto|].
    destruct (Hcol _ _ Hs) as (G & _). rewrite B1, B2 in G.
    destruct (to_numeric_numeric parse_number s) as (l & E). rewrite E in G.
    eexists; exact G.
  - destruct (proj1 (has_column_getitem data u"总价")) as (s & Hs);
      [apply Hsub; simpl; tauto|].
    destruct (Hcol _ _ Hs) as (G & _). rewrite B3, B4 in G.
    destruct (to_numeric_numeric parse_number s) as (l & E). rewrite E in G.
    eexists; exact G.
  - destruct (proj1 (has_column_getitem data u"行政区")) as (s & Hs);
      [apply Hsub; simpl; tauto|].
    destruct (Hcol _ _ Hs) as (G & C).
    eexists; split; [exact G|]. apply C. simpl; tauto.
Qed.

(** X12: the loader of the bar chart does not ask for the column of
    listing names, and [prepare_plot_data] reads it: for a file with both
    prices and the district but without the names, [load_data] returns a
    table, and [prepare_plot_data] raises [KeyError] on that table,
    whatever its rows are. *)
Theorem prepare_plot_data_needs_names (parse_number : str -> option Q)
    (number_repr : Q -> str) (csv_file : str) (data : frame)
    (argsort : list (option Q) -> list nat) :
  (forall c, In c required_columns -> has_column data c = true) ->
  has_column data u"楼盘名称" = false ->
  exists cleaned,
    load_data parse_number number_repr csv_file (Loaded data)
    = Ok (Some cleaned, []) /\
    prepare_plot_data_by argsort cleaned = Raise KeyError /\
    prepare_plot_data cleaned = Raise KeyError.
Proof.
  intros Hreq Hname.
  destruct (load_table_total parse_number number_repr required_columns
              [u"均价"; u"总价"] [u"行政区"] [u"均价"; u"总价"; u"行政区"]
              csv_file (Loaded data)) as ([[cleaned|] out] & Hload & Hacc & Hlen);
    try (intros c Hc; simpl in Hc |- *; tauto).
  2:{ cbn [fst is_some] in Hacc. destruct Hacc as [_ Hacc].
      assert (false = true) by (apply Hacc; exists data; auto). discriminate. }
  cbn [fst snd is_some] in Hlen. destruct out; [|discriminate].
  exists cleaned. split; [exact Hload|].
  destruct (bar_chart_table_columns _ _ _ _ _ Hload)
    as ((up & G1) & (tp & G2) & (sd & G3 & _) & Hnames).
  assert (Hk : has_column cleaned u"楼盘名称" = false).
  { now rewrite (has_column_names data cleaned _ Hnames). }
  assert (G : forall a, prepare_plot_data_by a cleaned = Raise KeyError).
  { intros a. unfold prepare_plot_data_by, groupby_agg.
    cbn [mapM bind]. rewrite G3. cbn [mapM bind fst snd].
    assert (E1 : existsb (str_eqb u"均价") [u"行政区"] = false)
      by (vm_compute; reflexivity).
    assert (E2 : existsb (str_eqb u"总价") [u"行政区"] = false)
      by (vm_compute; reflexivity).
    assert (E3 : existsb (str_eqb u"楼盘名称") [u"行政区"] = false)
      by (vm_compute; reflexivity).
    rewrite (aggregated_column_ok cleaned [u"行政区"] u"均价" _ E1 G1).
    cbn [bind].
    rewrite (aggregated_column_ok cleaned [u"行政区"] u"总价" _ E2 G2).
    cbn [bind]. unfold aggregated_column.
    rewrite E3, (getitem_absent cleaned _ Hk). reflexivity. }
  split; apply G.
Qed.

Lemma prepare_plot_data_needs_names_witness :
  exists cleaned,
    load_data (fun _ => None) (fun _ => []) u"data.csv"
      (Loaded [(u"均价", Numeric []); (u"总价", Numeric []);
               (u"行政区", Object [])])
    = Ok (Some cleaned, []) /\
    prepare_plot_data_by stable_argsort cleaned = Raise KeyError /\
    prepare_plot_data cleaned = Raise KeyError.
Proof.
  apply (prepare_plot_data_needs_names (fun _ => None) (fun _ => []) u"data.csv"
           [(u"均价", Numeric []); (u"总价", Numeric []); (u"行政区", Object [])]
           stable_argsort).
  - intros c [<-|[<-|[<-|[]]]]; vm_compute; reflexivity.
  - vm_compute; reflexivity.
Defined.

End AggregatorMore.

(* ================================================================== *)
(** * More about the radar chart                                        *)
(* ================================================================== *)

Module RadarMore.
Import Py Pandas PyFacts PandasFacts TableVocabulary LoaderMore AggregatorMore.
Import RadarChart.
Local Open Scope py_scope.

(** ** The order of the group labels *)

Lemma str_leb_total (a b : str) : str_leb a b = true \/ str_leb b a = true.
Proof.
  revert b; induction a as [|x a IH]; intros [|y b]; simpl; auto.
  destruct (N.ltb_spec x y) as [H|H]; [auto|].
  destruct (N.ltb_spec y x) as [H'|H']; [auto|].
  assert (x = y) by lia; subst y. rewrite N.eqb_refl; simpl. apply IH.
Qed.

Lemma scalar_leb_total (x y : scalar) :
  scalar_leb x y = true \/ scalar_leb y x = true.
Proof.
  destruct x, y; simpl; auto using Qle_bool_total, str_leb_total.
Qed.

Lemma key_leb_total (a b : key) : key_leb a b = true \/ key_leb b a = true.
Proof.
  revert b; induction a as [|x a IH]; intros [|y b]; simpl; auto.
  rewrite (scalar_eqb_sym y x).
  destruct (scalar_eqb x y); [apply IH|apply scalar_leb_total].
Qed.

Lemma chain_strict {A} (leb eqb : A -> A -> bool) (l : list A) :
  chain leb l = true -> unique eqb l = true ->
  chain (fun a b => leb a b && negb (eqb a b)) l = true.
Proof.
  induction l as [|x [|y l] IH]; intros Hc Hu; try reflexivity.
  rewrite chain_cons in Hc |- *.
  apply andb_prop in Hc; destruct Hc as [Hxy Hc].
  cbn [unique] in Hu. apply andb_prop in Hu; destruct Hu as [Hx Hu].
  cbn [forallb] in Hx. apply andb_prop in Hx; destruct Hx as [Hne _].
  rewrite Hxy, Hne; cbn [andb]. apply IH; assumption.
Qed.

Lemma chain_weaken {A} (R R' : A -> A -> bool) (l : list A) :
  (forall a b, In a l -> In b l -> R a b = true -> R' a b = true) ->
  chain R l = true -> chain R' l = true.
Proof.
  induction l as [|x [|y l] IH]; intros H Hc; try reflexivity.
  rewrite chain_cons in Hc |- *.
  apply andb_prop in Hc; destruct Hc as [Hxy Hc].
  rewrite (H x y) by (simpl; auto). cbn [andb].
  apply IH; [|assumption]. intros a b Ha Hb; apply H; now right.
Qed.

(** The label of a group of a column of strings. *)
Lemma object_group_key (l : list (option str)) (n : nat) (k : key) :
  In k (group_keys [Object l] n) ->
  exists t i, k = [SStr t] /\ (i < n)%nat /\ nth i l None = Some t.
Proof.
  intros H. apply group_keys_from_rows in H. destruct H as (i & Hi & Hk).
  cbn [row_key cells] in Hk.
  change (@None scalar) with (option_map SStr None) in Hk.
  rewrite map_nth in Hk.
  destruct (nth i l None) as [t|] eqn:E; [|discriminate].
  exists t, i. split; [|auto]. cbn in Hk. congruence.
Qed.

(** ** Every row is counted once *)

Lemma list_sum_cons (x : nat) (l : list nat) :
  list_sum (x :: l) = (x + list_sum l)%nat.
Proof. reflexivity. Qed.

Lemma list_sum_zero {A} (f : A -> nat) (l : list A) :
  (forall x, In x l -> f x = O) -> list_sum (map f l) = O.
Proof.
  induction l as [|x l IH]; intros H; [reflexivity|].
  cbn [map]. rewrite list_sum_cons, (H x) by now left.
  apply IH. intros; apply H; now right.
Qed.

Lemma list_sum_add {A} (f g : A -> nat) (l : list A) :
  list_sum (map (fun x => (f x + g x)%nat) l)
  = (list_sum (map f l) + list_sum (map g l))%nat.
Proof.
  induction l as [|x l IH]; [reflexivity|].
  cbn [map]. rewrite !list_sum_cons, IH. lia.
Qed.

Lemma one_group_matches (ks : list key) (k : key) :
  unique key_eqb ks = true ->
  (exists g, In g ks /\ key_eqb g k = true) ->
  list_sum (map (fun g => if key_eqb k g then 1%nat else O) ks) = 1%nat.
Proof.
  induction ks as [|g0 ks IH]; intros Hu (g & Hin & Hg); [destruct Hin|].
  cbn [unique] in Hu. apply andb_prop in Hu; destruct Hu as [Hne Hu].
  cbn [map]. rewrite list_sum_cons. destruct (key_eqb k g0) eqn:E.
  - rewrite list_sum_zero; [reflexivity|].
    intros y Hy. destruct (key_eqb k y) eqn:Ey; [|reflexivity].
    rewrite forallb_forall in Hne. specialize (Hne y Hy).
    rewrite (key_eqb_trans g0 k y) in Hne; [discriminate| |assumption].
    now rewrite key_eqb_sym.
  - destruct Hin as [->|Hin].
    + rewrite key_eqb_sym in Hg; congruence.
    + rewrite IH; eauto.
Qed.

Lemma counts_by_filter (m : nat -> bool) (names : list label) (n s : nat) :
  List.length (present (select (map m (seq s n)) names))
  = List.length (filter (fun i => m i && is_some (nth (i - s) names None))
                        (seq s n)).
Proof.
  revert s names; induction n as [|n IH]; intros s names; [reflexivity|].
  cbn [seq map]. destruct names as [|x names].
  - cbn [select present flat_map List.length].
    rewrite (filter_ext _ (fun _ => false)); [now rewrite filter_false|].
    intros i. now destruct (i - s)%nat, (m i).
  - cbn [select filter].
    assert (T : filter (fun i => m i && is_some (nth (i - s) (x :: names) None))
                       (seq (S s) n)
                = filter (fun i => m i && is_some (nth (i - S s) names None))
                         (seq (S s) n)).
    { apply filter_ext_in. intros i Hi. apply in_seq in Hi.
      replace (i - s)%nat with (S (i - S s)) by lia. reflexivity. }
    rewrite T, Nat.sub_diag. cbn [nth].
    destruct (m s); cbn [andb]; [|apply IH].
    destruct x; cbn [is_some present flat_map app List.length];
      fold (present (select (map m (seq (S s) n)) names));
      now rewrite IH.
Qed.

Lemma sum_of_counts (ks : list key) (F : key -> nat -> bool) (G : nat -> bool)
    (L : list nat) :
  (forall i, In i L ->
     list_sum (map (fun k => if F k i then 1%nat else O) ks)
     = if G i then 1%nat else O) ->
  list_sum (map (fun k => List.length (filter (F k) L)) ks)
  = List.length (filter G L).
Proof.
  induction L as [|i L IH]; intros H.
  - now apply list_sum_zero.
  - rewrite (map_ext _ (fun k => ((if F k i then 1 else 0)
                                  + List.length (filter (F k) L))%nat)).
    2:{ intros k; cbn [filter]. now destruct (F k i). }
    rewrite list_sum_add, (H i) by now left.
    rewrite IH by (intros; apply H; now right).
    cbn [filter]. now destruct (G i).
Qed.

(** The counts of the groups of one column add up to the number of rows
    that have a value in that column and in the column counted. *)
Lemma group_counts_add_up (sd nm : series) (n : nat) :
  list_sum (map (fun k => List.length
                            (present (select (members [sd] n k) (cells nm))))
                (group_keys [sd] n))
  = List.length (both_present sd nm n).
Proof.
  unfold both_present.
  rewrite (map_ext _ (fun k => List.length (filter
             (fun i => match row_key [sd] i with
                       | Some k' => key_eqb k' k
                       | None => false
                       end && is_some (nth i (cells nm) None)) (seq 0 n)))).
  2:{ intros k. unfold members, row_keys. rewrite map_map.
      rewrite (counts_by_filter _ (cells nm) n 0).
      f_equal. apply filter_ext. intros i. now rewrite Nat.sub_0_r. }
  apply (sum_of_counts (group_keys [sd] n)
           (fun k i => match row_key [sd] i with
                       | Some k' => key_eqb k' k
                       | None => false
                       end && is_some (nth i (cells nm) None))).
  intros i Hi. apply in_seq in Hi.
  cbn [row_key].
  destruct (nth i (cells sd) None) as [x|] eqn:Ex; cbn [is_some andb].
  - destruct (is_some (nth i (cells nm) None)).
    + rewrite (map_ext _ (fun k => if key_eqb [x] k then 1%nat else O))
        by (intros k; now rewrite andb_true_r).
      apply one_group_matches; [apply group_keys_unique|].
      apply (group_keys_cover [sd] n i); [lia|].
      cbn [row_key]. now rewrite Ex.
    + apply list_sum_zero. intros k _. now rewrite andb_false_r.
  - now apply list_sum_zero.
Qed.

(** The table of [prepare_radar_data]. *)
Lemma grouped_for_radar (data : frame) (group_by : str) (sd nm : series)
    (area room up tp : list (option Q)) :
  In group_by [u"行政区"; u"类型"] ->
  getitem data group_by = Ok sd ->
  getitem data u"面积" = Ok (Numeric area) ->
  getitem data u"房型" = Ok (Numeric room) ->
  getitem data u"均价" = Ok (Numeric up) ->
  getitem data u"总价" = Ok (Numeric tp) ->
  getitem data u"楼盘名称" = Ok nm ->
  let n := nrows data in
  let ks := group_keys [sd] n in
  let means l := Numeric (map (fun k => mean (select (members [sd] n k) l)) ks) in
  prepare_radar_data data group_by
  = Ok [(group_by, key_column sd ks 0);
        (u"平均面积", means area); (u"平均房型", means room);
        (u"平均单价", means up); (u"平均总价", means tp);
        (u"楼盘数量",
         Numeric (map (fun k => Some (inject_Z (Z.of_nat (List.length
                    (present (select (members [sd] n k) (cells nm)))))))
                      ks))].
Proof.
  intros Hg Hsd Ha Hr Hu Ht Hn n ks means. unfold prepare_radar_data.
  rewrite (groupby_one_column data group_by sd _ Hsd).
  2:{ intros name col h [E|[E|[E|[E|[E|[]]]]]]; injection E as <- <- <-;
        (split; [destruct Hg as [<-|[<-|[]]]; vm_compute; reflexivity|]);
        eexists; (split; [eassumption|]); try reflexivity.
      discriminate. }
  cbv zeta. cbn [map]. unfold aggregated, aggregate.
  rewrite Ha, Hr, Hu, Ht, Hn. reflexivity.
Qed.

Lemma unique_texts (ks : list key) :
  (forall k, In k ks -> k = [SStr (key_text k)]) ->
  unique key_eqb ks = true -> NoDup (map key_text ks).
Proof.
  induction ks as [|k ks IH]; intros Hks Hu; [constructor|].
  cbn [unique] in Hu. apply andb_prop in Hu; destruct Hu as [Hne Hu].
  cbn [map]. constructor.
  - intros Hin. apply in_map_iff in Hin. destruct Hin as (y & Ey & Hy).
    rewrite forallb_forall in Hne. specialize (Hne y Hy).
    rewrite (Hks k (or_introl eq_refl)), (Hks y (or_intror Hy)), Ey in Hne.
    now rewrite key_eqb_refl in Hne.
  - apply IH; [|exact Hu]. intros y Hy; apply Hks; now right.
Qed.

(** The groups of a column of strings: one for every string that occurs,
    in the strictly ascending order of the strings. *)
Lemma object_groups (l : list (option str)) (n : nat) :
  let ks := group_keys [Object l] n in
  let labels := map key_text ks in
  key_column (Object l) ks 0 = Object (map Some labels) /\
  ascending labels = true /\ NoDup labels /\
  (forall t, In t labels <-> exists i, (i < n)%nat /\ nth i l None = Some t).
Proof.
  intros ks labels.
  assert (Hks : forall k, In k ks -> k = [SStr (key_text k)]).
  { intros k Hk. destruct (object_group_key l n k Hk) as (t & _ & -> & _).
    reflexivity. }
  split; [|split; [|split]].
  - cbn [key_column]. f_equal. unfold labels. rewrite map_map. apply map_ext_in.
    intros k Hk. rewrite (Hks k Hk). reflexivity.
  - unfold ascending, labels. rewrite chain_map.
    apply (chain_weaken (fun a b => key_leb a b && negb (key_eqb a b))).
    + intros a b Ha' Hb' H. rewrite (Hks a Ha'), (Hks b Hb') in H.
      cbn [key_leb key_eqb scalar_eqb scalar_leb] in H.
      rewrite andb_true_r in H. unfold str_ltb.
      destruct (str_eqb (key_text a) (key_text b)); [|exact H].
      cbn in H; discriminate.
    + apply chain_strict.
      * apply (chain_sort key_leb key_leb_total).
      * apply group_keys_unique.
  - apply unique_texts; [exact Hks|apply group_keys_unique].
  - intros t. unfold labels. rewrite in_map_iff. split.
    + intros (k & <- & Hk).
      destruct (object_group_key l n k Hk) as (t & i & -> & Hi & Ht').
      exists i; auto.
    + intros (i & Hi & Ht').
      destruct (group_keys_cover [Object l] n i [SStr t] Hi) as (k & Hk & E).
      { cbn [row_key cells].
        change (@None scalar) with (option_map SStr None).
        rewrite map_nth, Ht'. reflexivity. }
      exists k. split; [|exact Hk].
      rewrite (Hks k Hk) in E. cbn [key_eqb scalar_eqb] in E.
      rewrite andb_true_r in E. now apply str_eqb_eq in E.
Qed.

(** X13: on a table that has the listing names and holds numbers in the
    columns of area, rooms, unit price and total price, grouped by the
    district or by the type, a column of strings: [prepare_radar_data]
    returns one row for every string that occurs in the grouping column,
    and no other row; the rows stand in the strictly ascending order of
    these strings, and the table has the grouping column followed by the
    five aggregated columns. *)
Theorem prepare_radar_data_groups_ascending (data : frame) (group_by : str)
    (l : list (option str)) (nm : series) (area room up tp : list (option Q)) :
  In group_by [u"行政区"; u"类型"] ->
  getitem data group_by = Ok (Object l) ->
  getitem data u"面积" = Ok (Numeric area) ->
  getitem data u"房型" = Ok (Numeric room) ->
  getitem data u"均价" = Ok (Numeric up) ->
  getitem data u"总价" = Ok (Numeric tp) ->
  getitem data u"楼盘名称" = Ok nm ->
  exists grouped labels,
    prepare_radar_data data group_by = Ok grouped /\
    column_names grouped
    = [group_by; u"平均面积"; u"平均房型"; u"平均单价"; u"平均总价"; u"楼盘数量"] /\
    rectangular grouped (List.length labels) /\
    getitem grouped group_by = Ok (Object (map Some labels)) /\
    ascending labels = true /\ NoDup labels /\
    forall t, In t labels <->
              exists i, (i < nrows data)%nat /\ nth i l None = Some t.
Proof.
  intros Hg Hsd Ha Hr Hu Ht Hn.
  rewrite (grouped_for_radar data group_by _ nm area room up tp
             Hg Hsd Ha Hr Hu Ht Hn).
  cbv zeta. set (n := nrows data).
  destruct (object_groups l n) as (Hcol & Hasc & Hnd & Hin).
  set (ks := group_keys [Object l] n) in *.
  rewrite Hcol.
  eexists; exists (map key_text ks). split; [reflexivity|].
  split; [reflexivity|]. split; [|split; [|split; [|split]]]; auto.
  - unfold rectangular. rewrite length_map.
    repeat constructor; cbn [snd]; unfold size; cbn [cells];
      now rewrite !length_map.
  - apply getitem_cons_same.
Qed.

Lemma prepare_radar_data_groups_ascending_witness :
  exists grouped labels,
    prepare_radar_data
      [(u"楼盘名称", Object [Some u"甲"; Some u"乙"; Some u"丙"]);
       (u"行政区", Object [Some u"B"; Some u"A"; Some u"B"]);
       (u"面积", Numeric [Some 80%Q; Some 90%Q; Some 100%Q]);
       (u"房型", Numeric [Some 2%Q; Some 3%Q; Some 3%Q]);
       (u"均价", Numeric [Some 100%Q; Some 200%Q; Some 50%Q]);
       (u"总价", Numeric [Some 10%Q; Some 20%Q; Some 5%Q])] u"行政区"
    = Ok grouped /\
    getitem grouped u"行政区" = Ok (Object (map Some labels)) /\
    ascending labels = true.
Proof.
  destruct (prepare_radar_data_groups_ascending
              [(u"楼盘名称", Object [Some u"甲"; Some u"乙"; Some u"丙"]);
               (u"行政区", Object [Some u"B"; Some u"A"; Some u"B"]);
               (u"面积", Numeric [Some 80%Q; Some 90%Q; Some 100%Q]);
               (u"房型", Numeric [Some 2%Q; Some 3%Q; Some 3%Q]);
               (u"均价", Numeric [Some 100%Q; Some 200%Q; Some 50%Q]);
               (u"总价", Numeric [Some 10%Q; Some 20%Q; Some 5%Q])] u"行政区"
              [Some u"B"; Some u"A"; Some u"B"]
              (Object [Some u"甲"; Some u"乙"; Some u"丙"])
              [Some 80%Q; Some 90%Q; Some 100%Q] [Some 2%Q; Some 3%Q; Some 3%Q]
              [Some 100%Q; Some 200%Q; Some 50%Q]
              [Some 10%Q; Some 20%Q; Some 5%Q])
    as (grouped & labels & H1 & _ & _ & H2 & H3 & _);
    try (vm_compute; reflexivity).
  - left; reflexivity.
  - exists grouped, labels; auto.
Defined.

(** X14: in the table of [prepare_radar_data], grouped by the district or
    by the type, the counts of the groups add up to the number of rows of
    the input that have both a value in the grouping column and a listing
    name: no such row is counted twice and none is left out. *)
Theorem prepare_radar_data_counts_add_up (data : frame) (group_by : str)
    (sd nm : series) (area room up tp : list (option Q)) :
  In group_by [u"行政区"; u"类型"] ->
  getitem data group_by = Ok sd ->
  getitem data u"面积" = Ok (Numeric area) ->
  getitem data u"房型" = Ok (Numeric room) ->
  getitem data u"均价" = Ok (Numeric up) ->
  getitem data u"总价" = Ok (Numeric tp) ->
  getitem data u"楼盘名称" = Ok nm ->
  exists grouped counts,
    prepare_radar_data data group_by = Ok grouped /\
    getitem grouped u"楼盘数量"
    = Ok (Numeric (map (fun c => Some (inject_Z (Z.of_nat c))) counts)) /\
    list_sum counts = List.length (both_present sd nm (nrows data)).
Proof.
  intros Hg Hsd Ha Hr Hu Ht Hn.
  rewrite (grouped_for_radar data group_by _ nm area room up tp
             Hg Hsd Ha Hr Hu Ht Hn).
  cbv zeta. set (n := nrows data). set (ks := group_keys [sd] n).
  eexists.
  exists (map (fun k => List.length
                          (present (select (members [sd] n k) (cells nm)))) ks).
  split; [reflexivity|]. split.
  - assert (E0 : str_eqb group_by u"楼盘数量" = false).
    { destruct Hg as [<-|[<-|[]]]; vm_compute; reflexivity. }
    assert (E1 : str_eqb u"平均面积" u"楼盘数量" = false) by (vm_compute; reflexivity).
    assert (E2 : str_eqb u"平均房型" u"楼盘数量" = false) by (vm_compute; reflexivity).
    assert (E3 : str_eqb u"平均单价" u"楼盘数量" = false) by (vm_compute; reflexivity).
    assert (E4 : str_eqb u"平均总价" u"楼盘数量" = false) by (vm_compute; reflexivity).
    rewrite (getitem_cons_other _ _ _ _ E0), (getitem_cons_other _ _ _ _ E1),
      (getitem_cons_other _ _ _ _ E2), (getitem_cons_other _ _ _ _ E3),
      (getitem_cons_other _ _ _ _ E4), getitem_cons_same.
    now rewrite map_map.
  - apply group_counts_add_up.
Qed.

Lemma prepare_radar_data_counts_add_up_witness :
  exists grouped counts,
    prepare_radar_data
      [(u"楼盘名称", Object [None; Some u"乙"; Some u"丙"]);
       (u"行政区", Object [Some u"B"; Some u"A"; Some u"B"]);
       (u"面积", Numeric [Some 80%Q; Some 90%Q; Some 100%Q]);
       (u"房型", Numeric [Some 2%Q; Some 3%Q; Some 3%Q]);
       (u"均价", Numeric [Some 100%Q; Some 200%Q; Some 50%Q]);
       (u"总价", Numeric [Some 10%Q; Some 20%Q; Some 5%Q])] u"行政区"
    = Ok grouped /\
    getitem grouped u"楼盘数量"
    = Ok (Numeric (map (fun c => Some (inject_Z (Z.of_nat c))) counts)) /\
    list_sum counts = 2%nat.
Proof.
  apply (prepare_radar_data_counts_add_up
           [(u"楼盘名称", Object [None; Some u"乙"; Some u"丙"]);
            (u"行政区", Object [Some u"B"; Some u"A"; Some u"B"]);
            (u"面积", Numeric [Some 80%Q; Some 90%Q; Some 100%Q]);
            (u"房型", Numeric [Some 2%Q; Some 3%Q; Some 3%Q]);
            (u"均价", Numeric [Some 100%Q; Some 200%Q; Some 50%Q]);
            (u"总价", Numeric [Some 10%Q; Some 20%Q; Some 5%Q])] u"行政区"
           (Object [Some u"B"; Some u"A"; Some u"B"])
           (Object [None; Some u"乙"; Some u"丙"])
           [Some 80%Q; Some 90%Q; Some 100%Q] [Some 2%Q; Some 3%Q; Some 3%Q]
           [Some 100%Q; Some 200%Q; Some 50%Q]
           [Some 10%Q; Some 20%Q; Some 5%Q]);
    try (vm_compute; reflexivity).
  left; reflexivity.
Defined.

End RadarMore.

(* ================================================================== *)
(** * More about the bar chart                                          *)
(* ================================================================== *)

Module BarChartMore.
Import Py Pandas PyFacts PandasFacts TableVocabulary LoaderMore AggregatorMore.
Import RadarMore AveragePricePerDistrict.
Local Open Scope py_scope.

Lemma In_permuted (order : list nat) (n i : nat) :
  Permutation order (seq 0 n) -> (In i order <-> (i < n)%nat).
Proof.
  intros P. split; intros H.
  - apply (Permutation_in _ P), in_seq in H. lia.
  - apply (Permutation_in _ (Permutation_sym P)), in_seq. lia.
Qed.

Lemma NoDup_taken {A} (d : A) (l : list A) (order : list nat) :
  NoDup l -> NoDup order ->
  (forall i, In i order -> (i < List.length l)%nat) ->
  NoDup (map (fun i => nth i l d) order).
Proof.
  intros Hl Ho. induction Ho as [|i order Hi Ho IH]; intros Hb; [constructor|].
  cbn [map]. constructor.
  - intros Hin. apply in_map_iff in Hin. destruct Hin as (j & Ej & Hj).
    apply Hi.
    rewrite (proj1 (NoDup_nth l d) Hl i j) ;
      [exact Hj|apply Hb; now left|apply Hb; now right|now symmetry].
  - apply IH. intros j Hj; apply Hb; now right.
Qed.

Lemma nth_map_Some {A} (d : A) (l : list A) (i : nat) :
  (i < List.length l)%nat -> nth i (map Some l) None = Some (nth i l d).
Proof.
  intros H. rewrite (nth_indep _ None (Some d)) by now rewrite length_map.
  apply map_nth.
Qed.

(** X11: on a table with the district as a column of strings, both
    prices as numbers and the listing names, [prepare_plot_data] returns
    the rows of the grouped table, each once, in an order in which every
    average unit price is at least the next one (missing averages last):
    four columns and exactly one row for every district that occurs.
    This holds whatever the sorting routine does with equal averages. *)
Theorem prepare_plot_data_descending (argsort : list (option Q) -> list nat)
    (data : frame) (l : list (option str)) (nm : series)
    (up tp : list (option Q)) :
  sorts_descending argsort ->
  getitem data u"行政区" = Ok (Object l) ->
  getitem data u"均价" = Ok (Numeric up) ->
  getitem data u"总价" = Ok (Numeric tp) ->
  getitem data u"楼盘名称" = Ok nm ->
  exists g order grouped districts avgs,
    groupby_agg data [u"行政区"]
      [(u"平均单价", (u"均价", Mean)); (u"平均总价", (u"总价", Mean));
       (u"楼盘数量", (u"楼盘名称", Count))] = Ok g /\
    Permutation order (seq 0 (nrows g)) /\
    prepare_plot_data_by argsort data = Ok grouped /\
    grouped = take g order /\
    column_names grouped = [u"行政区"; u"平均单价"; u"平均总价"; u"楼盘数量"] /\
    rectangular grouped (List.length districts) /\
    getitem grouped u"行政区" = Ok (Object (map Some districts)) /\
    NoDup districts /\
    (forall t, In t districts <->
               exists i, (i < nrows data)%nat /\ nth i l None = Some t) /\
    getitem grouped u"平均单价" = Ok (Numeric avgs) /\
    descending avgs = true.
Proof.
  intros Hsort Hsd Hup Htp Hnm. unfold prepare_plot_data_by.
  rewrite (grouped_by_district data (Object l) nm up tp Hsd Hup Htp Hnm).
  cbv zeta. cbn [bind].
  destruct (object_groups l (nrows data)) as (Hcol & _ & Hnd & Hin).
  set (ks := group_keys [Object l] (nrows data)) in *.
  set (labels := map key_text ks) in *.
  set (l0 := map (fun k => aggregated data u"均价" Mean
                             (members [Object l] (nrows data) k)) ks).
  rewrite Hcol.
  match goal with
  | |- exists g _ _ _ _, Ok ?t = Ok g /\ _ => set (g0 := t)
  end.
  assert (E : str_eqb u"行政区" u"平均单价" = false) by (vm_compute; reflexivity).
  assert (G : getitem g0 u"平均单价" = Ok (Numeric l0)).
  { unfold g0. rewrite (getitem_cons_other _ _ _ _ E).
    apply getitem_cons_same. }
  assert (Gd : getitem g0 u"行政区" = Ok (Object (map Some labels))).
  { apply getitem_cons_same. }
  unfold sort_values_desc_by. rewrite G. cbn [bind].
  destruct (Hsort l0) as (Hperm & Hdesc).
  set (order := argsort l0) in *.
  assert (Hlen : List.length l0 = List.length labels).
  { unfold l0, labels. now rewrite !length_map. }
  assert (Hrows : nrows g0 = List.length labels).
  { unfold g0, nrows, size. cbn [cells]. now rewrite !length_map. }
  assert (Hb : forall i, In i order -> (i < List.length labels)%nat).
  { intros i Hi. apply (In_permuted order _ i Hperm) in Hi. lia. }
  exists g0, order, (take g0 order),
    (map (fun i => nth i labels []) order), (map (fun i => nth i l0 None) order).
  split; [reflexivity|]. split; [now rewrite Hrows, <- Hlen|].
  split; [reflexivity|]. split; [reflexivity|].
  split; [unfold take; now rewrite column_names_map|].
  split; [rewrite length_map; apply rectangular_take|].
  split.
  { rewrite (getitem_take g0 order _ _ Gd). cbn [take_series].
    do 2 f_equal. rewrite map_map. apply map_ext_in.
    intros i Hi. apply nth_map_Some, Hb, Hi. }
  split.
  { apply NoDup_taken; [exact Hnd| |exact Hb].
    apply (Permutation_NoDup (Permutation_sym Hperm)), seq_NoDup. }
  split.
  { intros t. rewrite <- Hin. rewrite in_map_iff. split.
    - intros (i & <- & Hi). apply nth_In, Hb, Hi.
    - intros Ht. destruct (In_nth labels t [] Ht) as (i & Hi & Ei).
      exists i. split; [exact Ei|].
      apply (In_permuted order _ i Hperm). lia. }
  split; [|exact Hdesc].
  apply (getitem_take g0 order _ _ G).
Qed.

Lemma prepare_plot_data_descending_witness :
  exists grouped districts avgs,
    prepare_plot_data Samples.three_listings = Ok grouped /\
    getitem grouped u"行政区" = Ok (Object (map Some districts)) /\
    NoDup districts /\
    getitem grouped u"平均单价" = Ok (Numeric avgs) /\
    descending avgs = true.
Proof.
  destruct (prepare_plot_data_descending stable_argsort Samples.three_listings
              [Some u"A"; Some u"A"; Some u"B"]
              (Object [Some u"甲"; Some u"乙"; Some u"丙"])
              [Some 100%Q; Some 200%Q; Some 50%Q]
              [Some 10%Q; Some 20%Q; Some 5%Q])
    as (g & order & grouped & districts & avgs &
        _ & _ & H1 & _ & _ & _ & H2 & H3 & _ & H4 & H5);
    try (vm_compute; reflexivity).
  - apply stable_argsort_sorts.
  - exists grouped, districts, avgs. repeat split; assumption.
Defined.

End BarChartMore.

(* ================================================================== *)
(** * Scaling: the normalised metrics and the widths of the bars        *)
(* ================================================================== *)

Module ScalingMore.
Import Py Pandas PyFacts PandasFacts TableVocabulary LoaderMore AggregatorMore.
Import RadarChartSpec RadarChart PlotBarChart.
Local Open Scope py_scope.

Lemma scaled_in_unit (mn mx v : Q) :
  (mn <= v)%Q -> (v <= mx)%Q -> ~ (mx == mn)%Q ->
  (0 <= (v - mn) / (mx - mn) <= 1)%Q.
Proof.
  intros H1 H2 Hne.
  assert (Hd : (0 < mx - mn)%Q).
  { destruct (Qlt_le_dec mn mx) as [H|H]; [lra|].
    exfalso; apply Hne. apply Qle_antisym; lra. }
  split.
  - apply Qle_shift_div_l; [exact Hd|lra].
  - apply Qle_shift_div_r; [exact Hd|lra].
Qed.

Lemma In_present_map {A B} (f : A -> B) (l : list (option A)) (y : B) :
  In y (present (map (option_map f) l)) ->
  exists x, In x (present l) /\ y = f x.
Proof.
  intros H. apply In_present in H. apply in_map_iff in H.
  destruct H as ([x|] & E & Hin); [|discriminate].
  injection E as <-. exists x; split; [now apply In_present|reflexivity].
Qed.

(** What [normalize_data] leaves in a numeric column. *)
Lemma normalize_column_range (l l' : list (option Q)) :
  normalize_column (Numeric l) = Ok (Numeric l') ->
  List.length l' = List.length l /\
  (forall x, In x (present l') -> (0 <= x <= 1)%Q) /\
  (forall mn mx, Qmin l = Some mn -> Qmax l = Some mx -> ~ (mx == mn)%Q ->
     In (Some 0%Q) l' /\ In (Some 1%Q) l' /\
     forall i, is_some (nth i l' None) = is_some (nth i l None)).
Proof.
  unfold normalize_column.
  destruct (Qmin l) as [mn|] eqn:Hmn, (Qmax l) as [mx|] eqn:Hmx.
  2-4: intros H; apply Ok_inj in H; injection H as <-;
       (split; [apply length_map|]); (split; [|discriminate]);
       intros x Hx; apply In_present in Hx; apply in_map_iff in Hx;
       destruct Hx as (? & ? & _); discriminate.
  destruct (Qmin_least l mn Hmn) as (Imn & Lmn).
  destruct (Qmax_greatest l mx Hmx) as (Imx & Gmx).
  destruct (Qeq_bool (mx - mn) 0) eqn:E; intros H; apply Ok_inj in H;
    injection H as <-; (split; [apply length_map|]).
  - split.
    + intros x Hx. apply In_present in Hx. apply in_map_iff in Hx.
      destruct Hx as (? & Hx & _). injection Hx as <-. lra.
    + intros mn' mx' Hmn' Hmx' Hne. apply zero_range in E.
      injection Hmn' as <-; injection Hmx' as <-. contradiction.
  - assert (Hne : ~ (mx == mn)%Q).
    { intros Heq. apply zero_range in Heq. congruence. }
    split.
    + intros x Hx. apply In_present_map in Hx. destruct Hx as (v & Hv & ->).
      pose proof (Qred_correct ((v - mn) / (mx - mn))) as R.
      destruct (scaled_in_unit mn mx v (Lmn v Hv) (Gmx v Hv) Hne) as [A B].
      split; rewrite R; assumption.
    + intros mn' mx' Hmn' Hmx' _.
      injection Hmn' as <-; injection Hmx' as <-.
      split; [|split].
      * apply In_present in Imn.
        apply (in_map (option_map (fun v => Qred ((v - mn) / (mx - mn))))) in Imn.
        cbn [option_map] in Imn.
        replace (Qred ((mn - mn) / (mx - mn))) with 0%Q in Imn; [exact Imn|].
        change 0%Q with (Qred 0). apply Qred_complete.
        unfold Qdiv. setoid_replace (mn - mn)%Q with 0%Q by ring. ring.
      * apply In_present in Imx.
        apply (in_map (option_map (fun v => Qred ((v - mn) / (mx - mn))))) in Imx.
        cbn [option_map] in Imx.
        replace (Qred ((mx - mn) / (mx - mn))) with 1%Q in Imx; [exact Imx|].
        change 1%Q with (Qred 1). apply Qred_complete.
        symmetry. field. intros Hz. apply Hne. lra.
      * intros i.
        change (@None Q) with
          (option_map (fun v => Qred ((v - mn) / (mx - mn))) None) at 1.
        rewrite map_nth. now destruct (nth i l None).
Qed.

(** X15: when [normalize_data] returns, each normalised metric has as many
    cells as before and every value of it lies between 0 and 1; when the
    least and the greatest value of the metric differ, 0 and 1 both occur
    and exactly the cells that were missing are missing. *)
Theorem normalize_data_within_unit (df : frame) (metrics : list str)
    (df' : frame) (m : str) (l' : list (option Q)) :
  normalize_data df metrics = Ok df' ->
  In m metrics ->
  getitem df' m = Ok (Numeric l') ->
  exists l,
    getitem df m = Ok (Numeric l) /\
    List.length l' = List.length l /\
    (forall x, In x (present l') -> (0 <= x <= 1)%Q) /\
    (forall mn mx, Qmin l = Some mn -> Qmax l = Some mx -> ~ (mx == mn)%Q ->
       In (Some 0%Q) l' /\ In (Some 1%Q) l' /\
       forall i, is_some (nth i l' None) = is_some (nth i l None)).
Proof.
  intros H Hm Hget.
  destruct (normalize_loop_spec df metrics df df' H) as [Hspec _].
  destruct (Hspec m Hm) as (s & s' & Hs & Hn & Hs').
  assert (s' = Numeric l') by congruence; subst s'.
  destruct s as [l|l].
  - exists l. split; [exact Hs|]. now apply normalize_column_range.
  - cbn [normalize_column] in Hn. destruct (present l); discriminate.
Qed.

Lemma normalize_data_within_unit_witness :
  exists l,
    getitem [(u"平均单价", Numeric [Some 1%Q; None; Some 3%Q])] u"平均单价"
    = Ok (Numeric l) /\
    List.length [Some 0%Q; None; Some 1%Q] = List.length l /\
    (forall x, In x (present [Some 0%Q; None; Some 1%Q]) -> (0 <= x <= 1)%Q).
Proof.
  destruct (normalize_data_within_unit
              [(u"平均单价", Numeric [Some 1%Q; None; Some 3%Q])]
              [u"平均单价"]
              [(u"平均单价", Numeric [Some 0%Q; None; Some 1%Q])]
              u"平均单价" [Some 0%Q; None; Some 1%Q])
    as (l & H1 & H2 & H3 & _).
  - vm_compute; reflexivity.
  - left; reflexivity.
  - vm_compute; reflexivity.
  - exists l; auto.
Defined.

(** ** The widths of the bars *)

Lemma differ_false (a b : option Q) :
  differ a b = false <-> exists x y, a = Some x /\ b = Some y /\ (x == y)%Q.
Proof.
  unfold differ; split.
  - destruct a as [x|], b as [y|]; try discriminate.
    intros H. apply negb_false_iff, Qeq_bool_iff in H. eauto.
  - intros (x & y & -> & -> & H). apply negb_false_iff, Qeq_bool_iff, H.
Qed.

Lemma extremum_some (better : Q -> Q -> bool) (l : list (option Q)) :
  present l <> [] -> exists m, extremum better l = Some m.
Proof.
  unfold extremum. destruct (present l); [intros H; now elim H|eauto].
Qed.

(** X16: the computation of the widths raises [TypeError] exactly when
    the counts have a value and all their values are equal; a chart of a
    single district is such a case. *)
Theorem widths_raise_iff_counts_equal :
  (forall counts,
      widths counts = Raise TypeError <->
      present counts <> [] /\
      forall x y, In x (present counts) -> In y (present counts) -> (x == y)%Q) /\
  (forall c, widths [Some c] = Raise TypeError).
Proof.
  assert (G : forall counts,
      widths counts = Raise TypeError <->
      present counts <> [] /\
      forall x y, In x (present counts) -> In y (present counts) -> (x == y)%Q).
  { intros counts. unfold widths, normalized_counts.
    destruct (differ (Qmax counts) (Qmin counts)) eqn:E.
    - split.
      + destruct (Qmin counts), (Qmax counts); discriminate.
      + intros (Hne & Hall). exfalso.
        destruct (extremum_some (fun y m => negb (Qle_bool m y)) counts Hne)
          as (mn & Hmn).
        destruct (extremum_some (fun y m => negb (Qle_bool y m)) counts Hne)
          as (mx & Hmx).
        fold (Qmin counts) in Hmn. fold (Qmax counts) in Hmx.
        assert (F : differ (Qmax counts) (Qmin counts) = false).
        { apply differ_false. exists mx, mn. repeat split; auto.
          apply Hall; [now apply Qmax_greatest|now apply Qmin_least]. }
        congruence.
    - split; [intros _|reflexivity].
      apply differ_false in E. destruct E as (mx & mn & Hmx & Hmn & Heq).
      destruct (Qmin_least counts mn Hmn) as (Imn & Lmn).
      destruct (Qmax_greatest counts mx Hmx) as (_ & Gmx).
      split.
      + intros Hnil; rewrite Hnil in Imn; destruct Imn.
      + intros x y Hx Hy.
        pose proof (Lmn x Hx). pose proof (Gmx x Hx).
        pose proof (Lmn y Hy). pose proof (Gmx y Hy).
        apply Qle_antisym; lra. }
  split; [exact G|].
  intros c. apply G. split; [discriminate|].
  intros x y [<-|[]] [<-|[]]. reflexivity.
Qed.

(** X17: a width that is computed lies between [min_width] and
    [max_width], and there is one width for every count. *)
Theorem widths_within_bounds (counts w : list (option Q)) :
  widths counts = Ok w ->
  List.length w = List.length counts /\
  forall x, In x (present w) -> (min_width <= x <= max_width)%Q.
Proof.
  unfold widths, normalized_counts.
  destruct (differ (Qmax counts) (Qmin counts)); [|discriminate].
  destruct (Qmin counts) as [mn|] eqn:Hmn, (Qmax counts) as [mx|] eqn:Hmx.
  2-4: intros H; apply Ok_inj in H; subst w; rewrite !length_map;
       (split; [reflexivity|]); rewrite map_map;
       intros x Hx; apply In_present in Hx; apply in_map_iff in Hx;
       destruct Hx as (? & ? & _); discriminate.
  intros H; apply Ok_inj in H; subst w. rewrite !length_map.
  split; [reflexivity|].
  intros x Hx. apply In_present_map in Hx. destruct Hx as (t & Ht & ->).
  apply In_present_map in Ht. destruct Ht as (v & Hv & ->).
  destruct (Qmin_least counts mn Hmn) as (_ & Lmn).
  destruct (Qmax_greatest counts mx Hmx) as (_ & Gmx).
  set (t := ((v - mn) / (mx - mn))%Q).
  pose proof (Qred_correct (min_width + t * (max_width - min_width))) as R.
  assert (Ht : (0 <= t <= 1)%Q).
  { destruct (Qeq_dec mx mn) as [Heq|Hne].
    - assert (Hz : (t == 0)%Q).
      { unfold t, Qdiv. setoid_replace (mx - mn)%Q with 0%Q by lra.
        change (/ 0)%Q with 0%Q. ring. }
      rewrite Hz. lra.
    - apply scaled_in_unit; auto. }
  unfold min_width, max_width in *. split; rewrite R; lra.
Qed.

Lemma widths_within_bounds_witness :
  List.length [Some (3 # 10)%Q; Some 1%Q] = List.length [Some 1%Q; Some 2%Q] /\
  forall x, In x (present [Some (3 # 10)%Q; Some 1%Q]) ->
            (min_width <= x <= max_width)%Q.
Proof.
  apply (widths_within_bounds [Some 1%Q; Some 2%Q] [Some (3 # 10)%Q; Some 1%Q]).
  vm_compute; reflexivity.
Defined.

Lemma widths_one_count (c : Q) : widths [Some c] = Raise TypeError.
Proof.
  unfold widths, normalized_counts.
  change (Qmax [Some c]) with (Some c). change (Qmin [Some c]) with (Some c).
  cbn [differ]. now rewrite (proj2 (Qeq_bool_iff c c) (Qeq_refl c)).
Qed.

Lemma one_group (sd : series) (n i0 : nat) (x0 : scalar) :
  (i0 < n)%nat -> nth i0 (cells sd) None = Some x0 ->
  (forall i x, (i < n)%nat -> nth i (cells sd) None = Some x -> x = x0) ->
  group_keys [sd] n = [[x0]].
Proof.
  intros Hi0 Hx0 Hall.
  assert (Hk : forall k, In k (group_keys [sd] n) -> k = [x0]).
  { intros k Hk. apply group_keys_from_rows in Hk. destruct Hk as (i & Hi & Hk).
    cbn [row_key] in Hk. destruct (nth i (cells sd) None) as [x|] eqn:E;
      [|discriminate].
    rewrite (Hall i x Hi E) in Hk. congruence. }
  destruct (group_keys_cover [sd] n i0 [x0] Hi0) as (k & Hin & _).
  { cbn [row_key]. now rewrite Hx0. }
  pose proof (group_keys_unique [sd] n) as Hu.
  destruct (group_keys [sd] n) as [|k1 [|k2 ks]]; [destruct Hin| |].
  - now rewrite (Hk k1 (or_introl eq_refl)).
  - exfalso. cbn [unique forallb] in Hu.
    rewrite (Hk k1), (Hk k2) in Hu by (simpl; auto).
    now rewrite key_eqb_refl in Hu.
Qed.

(** X18: on a table with the district, both prices as numbers and the
    listing names, in which some row has a district and all the rows that
    have one have the same: [prepare_plot_data] returns a table of one
    row, whatever the sorting routine, and the widths of the bars cannot
    be computed from its column of counts: [TypeError]. *)
Theorem one_district_has_no_widths (argsort : list (option Q) -> list nat)
    (data : frame) (sd nm : series)
    (up tp : list (option Q)) (i0 : nat) (x0 : scalar) :
  sorts_descending argsort ->
  getitem data u"行政区" = Ok sd ->
  getitem data u"均价" = Ok (Numeric up) ->
  getitem data u"总价" = Ok (Numeric tp) ->
  getitem data u"楼盘名称" = Ok nm ->
  (i0 < nrows data)%nat -> nth i0 (cells sd) None = Some x0 ->
  (forall i x, (i < nrows data)%nat -> nth i (cells sd) None = Some x -> x = x0) ->
  exists grouped counts,
    AveragePricePerDistrict.prepare_plot_data_by argsort data = Ok grouped /\
    rectangular grouped 1 /\
    getitem grouped u"楼盘数量" = Ok (Numeric counts) /\
    widths counts = Raise TypeError.
Proof.
  intros Hsort Hsd Hup Htp Hnm Hi0 Hx0 Hall.
  unfold AveragePricePerDistrict.prepare_plot_data_by.
  rewrite (grouped_by_district data sd nm up tp Hsd Hup Htp Hnm).
  cbv zeta. rewrite (one_group sd (nrows data) i0 x0 Hi0 Hx0 Hall).
  cbn [bind map]. unfold sort_values_desc_by.
  assert (E1 : str_eqb u"行政区" u"平均单价" = false) by (vm_compute; reflexivity).
  rewrite (getitem_cons_other _ _ _ _ E1), getitem_cons_same.
  cbn [bind].
  match goal with
  | |- context [argsort ?l1] =>
      destruct (Hsort l1) as (Hperm & _);
      cbn [List.length seq] in Hperm;
      apply Permutation_sym, Permutation_length_1_inv in Hperm;
      rewrite Hperm
  end.
  unfold aggregated at 3. unfold aggregate. rewrite Hnm. cbn [bind].
  eexists; eexists. split; [reflexivity|]. split; [|split].
  - unfold rectangular, take. cbn [map].
    repeat constructor; cbn [snd]; apply size_take_series.
  - assert (E2 : str_eqb u"行政区" u"楼盘数量" = false) by (vm_compute; reflexivity).
    assert (E3 : str_eqb u"平均单价" u"楼盘数量" = false) by (vm_compute; reflexivity).
    assert (E4 : str_eqb u"平均总价" u"楼盘数量" = false) by (vm_compute; reflexivity).
    unfold take. cbn [map].
    rewrite (getitem_cons_other _ _ _ _ E2), (getitem_cons_other _ _ _ _ E3),
      (getitem_cons_other _ _ _ _ E4), getitem_cons_same.
    cbn [take_series map nth]. reflexivity.
  - apply widths_one_count.
Qed.

Lemma one_district_has_no_widths_witness :
  exists grouped counts,
    AveragePricePerDistrict.prepare_plot_data
      [(u"楼盘名称", Object [Some u"甲"; Some u"乙"]);
       (u"行政区", Object [Some u"朝阳"; Some u"朝阳"]);
       (u"均价", Numeric [Some 100%Q; Some 200%Q]);
       (u"总价", Numeric [Some 10%Q; Some 20%Q])] = Ok grouped /\
    rectangular grouped 1 /\
    getitem grouped u"楼盘数量" = Ok (Numeric counts) /\
    widths counts = Raise TypeError.
Proof.
  apply (one_district_has_no_widths stable_argsort
           [(u"楼盘名称", Object [Some u"甲"; Some u"乙"]);
            (u"行政区", Object [Some u"朝阳"; Some u"朝阳"]);
            (u"均价", Numeric [Some 100%Q; Some 200%Q]);
            (u"总价", Numeric [Some 10%Q; Some 20%Q])]
           (Object [Some u"朝阳"; Some u"朝阳"])
           (Object [Some u"甲"; Some u"乙"])
           [Some 100%Q; Some 200%Q] [Some 10%Q; Some 20%Q]
           0%nat (SStr u"朝阳")); try (vm_compute; reflexivity).
  - apply stable_argsort_sorts.
  - vm_compute; lia.
  - intros [|[|i]] x Hi H; vm_compute in Hi, H.
    + injection H as <-. vm_compute; reflexivity.
    + injection H as <-. vm_compute; reflexivity.
    + lia.
Defined.

End ScalingMore.

(* ================================================================== *)
(** * The script of the preprocessing                                   *)
(* ================================================================== *)

Module ScriptSpec.
Import Py PyFacts Preprocessing PreprocessingFacts Batch Script.
Local Open Scope py_scope.

(** X20: what the script leaves behind.  After a JSON file that could
    not be decoded it has written no CSV file and still prints its line
    of success; when every record converts and can be written, and every
    other entry can be printed, it has written the rows and prints that
    line after the lines of the skipped entries; when a record raises,
    the exception leaves the script and the line of success is not
    printed.  An input that is not a list is treated as the list of that
    one entry. *)
Theorem script_outcomes (value_str : value -> str) :
  let line := u"数据已成功从 " ++ input_json ++ u" 转换为 " ++ output_csv in
  (forall e,
     encodable e = true ->
     main value_str (JSONDecodeError e)
     = {| written := None; printed := [u"JSON 解码错误: " ++ e; line];
          raised := None |}) /\
  (forall l,
     (forall d, In d (records l) ->
        conversions_finite d = true /\ writable d = true) ->
     (forall v, In v (skipped l) -> encodable (skip_line value_str v) = true) ->
     exists rows,
       Forall2 row_of (records l) rows /\
       main value_str (Parsed (VList l))
       = {| written := Some (header :: rows);
            printed := map (skip_line value_str) (skipped l) ++ [line];
            raised := None |}) /\
  (forall pre d post e,
     (forall d', In d' (records pre) ->
        conversions_finite d' = true /\ writable d' = true) ->
     (forall v, In v (skipped pre) -> encodable (skip_line value_str v) = true) ->
     process_record d = Raise e ->
     raised (main value_str (Parsed (VList (pre ++ VDict d :: post)))) = Some e /\
     ~ In line (printed (main value_str (Parsed (VList (pre ++ VDict d :: post)))))) /\
  (forall data, not_a_list data = true ->
     main value_str (Parsed data) = main value_str (Parsed (VList [data]))).
Proof.
  intros line. split; [|split; [|split]].
  - intros e He. unfold main, json_to_csv.
    assert (E : encodable (u"JSON 解码错误: " ++ e) = true).
    { unfold encodable in *. rewrite forallb_app, He, andb_true_r.
      vm_compute; reflexivity. }
    rewrite E. reflexivity.
  - intros l H Hs.
    destruct (BatchSpec.write_records_prefix value_str l H Hs)
      as (rows & HF & Hw).
    exists rows. split; [exact HF|].
    specialize (Hw [] [header] []). rewrite app_nil_r in Hw.
    unfold main, json_to_csv. cbn [entries]. rewrite Hw. reflexivity.
  - intros pre d post e H Hs Hd.
    destruct (BatchSpec.write_records_prefix value_str pre H Hs)
      as (rows & _ & Hw).
    unfold main, json_to_csv. cbn [entries]. rewrite Hw.
    cbn [write_records]. rewrite Hd. cbn [raised printed app]. split; [reflexivity|].
    intros Hin. apply in_map_iff in Hin. destruct Hin as (v & E & _).
    apply (f_equal (fun t => hd 0%N t)) in E. vm_compute in E. discriminate.
  - intros data Hd. destruct data; try discriminate; reflexivity.
Qed.

Lemma script_outcomes_witness :
  main (fun _ => u"?") (JSONDecodeError u"Expecting value")
  = {| written := None;
       printed := [u"JSON 解码错误: " ++ u"Expecting value";
                   u"数据已成功从 " ++ input_json ++ u" 转换为 " ++ output_csv];
       raised := None |} /\
  raised (main (fun _ => u"?")
            (Parsed (VList ([VDict [(u"area", VStr u"75㎡")]]
                            ++ VDict [(u"total_price",
                                       VStr (49%N :: repeat 48%N 309))]
                            :: [VInt 3]))))
  = Some OverflowError.
Proof.
  destruct (script_outcomes (fun _ => u"?")) as (H1 & _ & H3 & _). split.
  - apply H1. vm_compute; reflexivity.
  - apply (H3 [VDict [(u"area", VStr u"75㎡")]]
              [(u"total_price", VStr (49%N :: repeat 48%N 309))] [VInt 3]
              OverflowError).
    + intros d [<-|[]]; split; vm_compute; reflexivity.
    + intros v [].
    + vm_compute; reflexivity.
Defined.

End ScriptSpec.
